(** * playing-with-voices: RTTM segment model, merger, overlap analyser,
      alignment-to-RTTM converter

    Shallow embedding of the core of [code/forced_alignment.py],
    [code/evaluation.py] and [code/diarization.py]:

    - [list_to_rttm_string], [merge_close_numbers], [convert_csv_to_rttm],
      [normalize_uroman], the text written by [save_result_as_csv]
      (forced_alignment.py);
    - [parse_rttm_file], [calculate_overlap_duration],
      [calculate_filler_word_amount], [count_speaker_from_rttm],
      [compare_speaker_amount_of_two_files] (evaluation.py);
    - the file selection and the loop of [diarize_all_files]
      (diarization.py).

    Functions that read a file are functions of the text read; what lies
    outside the program (the file system, the diarization pipeline,
    [num2words], [str.lower]) is a parameter of the function that uses it.

    Python exceptions are values of [exn] carried by the [outcome] monad.
    Python [float] arithmetic is reached through the interface [PyNum],
    which has two instances: [float_PyNum], IEEE 754 binary64 (what the
    interpreter computes), and [Q_PyNum], exact rationals (the "real"
    seconds of the specification's data model).  Everything that only
    depends on the control flow of the code is proved for every instance;
    arithmetic facts are proved over the rationals. *)

From Stdlib Require Import PrimFloat Floats QArith Qround Qabs Qpower Lia Lqa.
From Stdlib Require Import Ascii String DecimalString DecimalN.
From Stdlib Require Import Sorting.Sorted Sorting.Permutation.
From stdpp Require Import base list functions strings gmap.

Set Default Proof Using "Type".

(** String concatenation unfolds on a constructor, as in the Standard
    Library. *)
Arguments String.append !_ _ / : simpl nomatch.

(** ** Exceptions and results *)

Inductive exn : Set :=
| IndexError
| ValueError
| ZeroDivisionError.

Inductive outcome (A : Type) : Type :=
| Ok (a : A)
| Raise (e : exn).
Arguments Ok {A} a.
Arguments Raise {A} e.

#[global] Instance outcome_ret : MRet outcome := fun _ a => Ok a.
#[global] Instance outcome_bind : MBind outcome := fun _ _ k m =>
  match m with
  | Ok a => k a
  | Raise e => Raise e
  end.
#[global] Instance outcome_fmap : FMap outcome := fun _ _ f m =>
  match m with
  | Ok a => Ok (f a)
  | Raise e => Raise e
  end.

(** A [for] loop whose body may raise. *)
Fixpoint for_each {S A : Type} (body : S -> A -> outcome S) (xs : list A) (s : S)
  : outcome S :=
  match xs with
  | [] => Ok s
  | x :: xs' => s' ← body s x; for_each body xs' s'
  end.

(** The names the specification gives to the failures of the core; the
    code raises the interpreter's built-in exceptions. *)
Definition EmptyInputError (e : exn) : Prop := e = IndexError.
Definition MalformedRecordError (e : exn) : Prop := e = IndexError \/ e = ValueError.

(** ** Numbers *)

(** The operations the code applies to its time values.  [half] is the
    literal [0.5]; [div] is [None] where Python raises
    [ZeroDivisionError]. *)
Class PyNum (F : Type) := {
  zero : F;
  half : F;
  add : F -> F -> F;
  sub : F -> F -> F;
  div : F -> F -> option F;
  ltb : F -> F -> bool;
  leb : F -> F -> bool;
}.

#[global] Instance float_PyNum : PyNum float := {|
  zero := 0%float;
  half := 0.5%float;
  add := PrimFloat.add;
  sub := PrimFloat.sub;
  div := fun a b => if PrimFloat.eqb b 0%float then None else Some (PrimFloat.div a b);
  ltb := PrimFloat.ltb;
  leb := PrimFloat.leb;
|}.

Definition Qltb (a b : Q) : bool := negb (Qle_bool b a).

#[global] Instance Q_PyNum : PyNum Q := {|
  zero := 0%Q;
  half := (1 # 2)%Q;
  add := Qplus;
  sub := Qminus;
  div := fun a b => if Qeq_bool b 0 then None else Some (a / b)%Q;
  ltb := Qltb;
  leb := Qle_bool;
|}.

(** The conversion of an [int] operand of a true division.  In binary64
    it is exact below 2^53, where the quotient of the converted operands
    is the correctly rounded quotient that Python returns. *)
Class PyInt (F : Type) := {
  of_int : nat -> F;
}.

#[global] Instance float_PyInt : PyInt float := {|
  of_int := fun n => PrimFloat.of_uint63 (Uint63.of_Z (Z.of_nat n));
|}.

#[global] Instance Q_PyInt : PyInt Q := {|
  of_int := fun n => inject_Z (Z.of_nat n);
|}.

(** Python's [max(a, b)] and [min(a, b)]: the first argument is kept
    unless the second is strictly larger (smaller). *)
Definition py_max `{PyNum F} (a b : F) : F := if ltb a b then b else a.
Definition py_min `{PyNum F} (a b : F) : F := if ltb b a then b else a.

(** [sum(xs)]: a left fold from 0.  (From Python 3.12 on, floats are
    summed with compensation; the two agree whenever the partial sums are
    exact, as they are in the scenarios below, and always over the
    rationals.) *)
Definition py_sum `{PyNum F} (xs : list F) : F := fold_left add xs zero.

(** ** Segment records *)

(** The three-element list [[start_time, end_time, speaker]]. *)
Record segment (F : Type) : Type := Seg {
  start_time : F;
  end_time : F;
  speaker : string;
}.
Arguments Seg {F} _ _ _.
Arguments start_time {F} _.
Arguments end_time {F} _.
Arguments speaker {F} _.

Definition set_end_time {F} (r : segment F) (e : F) : segment F :=
  Seg (start_time r) e (speaker r).

(** ** Segment Merger: [merge_close_numbers] *)

Section Merger.
Context `{PyNum F}.

(** The records are mutable Python lists, so the loop works on object
    references.  A store maps every reference to the record it holds. *)
Definition loc := nat.
Definition store := loc -> segment F.

(** One iteration of [for i in l[1:]]. [merged_list[-1]] raises
    [IndexError] on an empty list. *)
Definition merge_iteration (threshold : F)
    (st : store * list loc) (i : loc) : outcome (store * list loc) :=
  let '(h, merged_list) := st in
  match list.last merged_list with
  | None => Raise IndexError
  | Some m =>
      if ltb (sub (start_time (h i)) (end_time (h m))) threshold
      then Ok (<[m := set_end_time (h m) (end_time (h i))]> h, merged_list)
      else Ok (h, merged_list ++ [i])
  end.

(** The function on references: [l[0]] raises [IndexError] on [[]]. *)
Definition merge_close_numbers_refs (h : store) (l : list loc) (threshold : F)
  : outcome (store * list loc) :=
  match l with
  | [] => Raise IndexError
  | l0 :: tl => for_each (merge_iteration threshold) tl (h, [l0])
  end.

(** A list of record values is a list of pairwise distinct objects:
    record [k] lives at reference [k]. *)
Definition alloc (l : list (segment F)) : store :=
  fun a => nth a l (Seg zero zero EmptyString).

(** [merge_close_numbers(l, threshold)] on values: allocate, run, read
    the returned list back from the final store. *)
Definition merge_close_numbers (l : list (segment F)) (threshold : F)
  : outcome (list (segment F)) :=
  match merge_close_numbers_refs (alloc l) (seq 0 (length l)) threshold with
  | Ok (h, merged_list) => Ok (h <$> merged_list)
  | Raise e => Raise e
  end.

(** *** What the specification says the merger computes *)

(** The gap between a record and its successor is below the threshold. *)
Definition close (threshold : F) (cur next : segment F) : bool :=
  ltb (sub (start_time next) (end_time cur)) threshold.

(** A run is a non-empty block of consecutive records: its first record
    and the records that follow it. *)
Definition run := (segment F * list (segment F))%type.

Definition run_records (r : run) : list (segment F) := r.1 :: r.2.
Definition run_last (r : run) : segment F := List.last r.2 r.1.

(** Cut the sequence [x :: rest] after every record whose successor is
    not close to it. *)
Fixpoint runs (threshold : F) (x : segment F) (rest : list (segment F)) : list run :=
  match rest with
  | [] => [(x, [])]
  | y :: rest' =>
      if close threshold x y
      then match runs threshold y rest' with
           | (_, tl) :: rs => (x, y :: tl) :: rs
           | [] => [(x, [y])]
           end
      else (x, []) :: runs threshold y rest'
  end.

(** A run coalesces into one record from the start of its first record
    to the end of its last one, with the first record's label. *)
Definition coalesce (r : run) : segment F :=
  Seg (start_time r.1) (end_time (run_last r)) (speaker r.1).

(** Every adjacent pair of a list satisfies [R]. *)
Fixpoint adjacent {A} (R : A -> A -> Prop) (l : list A) : Prop :=
  match l with
  | a :: (b :: _) as l' => R a b /\ adjacent R l'
  | _ => True
  end.

(** The greedy reading: the record being built absorbs successors while
    the gap to its current end is below the threshold. *)
Fixpoint merge_from (threshold : F) (cur : segment F) (rest : list (segment F))
  : list (segment F) :=
  match rest with
  | [] => [cur]
  | i :: rest' =>
      if ltb (sub (start_time i) (end_time cur)) threshold
      then merge_from threshold (set_end_time cur (end_time i)) rest'
      else cur :: merge_from threshold i rest'
  end.

(** The time fields of a record. *)
Definition times (r : segment F) : F * F := (start_time r, end_time r).

(** Total span [max(end) - min(start)] and its two extremes. *)
Definition max_end (x : segment F) (rest : list (segment F)) : F :=
  fold_left py_max (end_time <$> rest) (end_time x).
Definition min_start (x : segment F) (rest : list (segment F)) : F :=
  fold_left py_min (start_time <$> rest) (start_time x).
Definition total_span (l : list (segment F)) : option F :=
  match l with
  | [] => None
  | x :: rest => Some (sub (max_end x rest) (min_start x rest))
  end.
End Merger.

Arguments store F : clear implicits.
Arguments run F : clear implicits.

(** ** Python strings *)

Open Scope string_scope.
Open Scope list_scope.

Definition LF : ascii := "010"%char.

(** [c.isspace()] on the ASCII range: TAB, LF, VT, FF, CR, the four
    separators FS, GS, RS, US, and the blank. *)
Definition is_space (c : ascii) : bool :=
  let n := nat_of_ascii c in
  (((9 <=? n) && (n <=? 13)) || ((28 <=? n) && (n <=? 32)))%nat.

(** [s.lstrip()], [s.rstrip()], [s.strip()]. *)
Fixpoint lstrip (s : string) : string :=
  match s with
  | String c s' => if is_space c then lstrip s' else s
  | EmptyString => EmptyString
  end.

Fixpoint rstrip (s : string) : string :=
  match s with
  | String c s' =>
      match rstrip s' with
      | EmptyString => if is_space c then EmptyString else String c EmptyString
      | t => String c t
      end
  | EmptyString => EmptyString
  end.

Definition strip (s : string) : string := rstrip (lstrip s).

(** [s.split()]: the maximal blocks of non-whitespace characters. *)
Fixpoint split_ws (s : string) : list string :=
  match s with
  | EmptyString => []
  | String c s' =>
      if is_space c then split_ws s'
      else match s' with
           | EmptyString => [String c EmptyString]
           | String c' _ =>
               if is_space c' then String c EmptyString :: split_ws s'
               else match split_ws s' with
                    | w :: ws => String c w :: ws
                    | [] => [String c EmptyString]
                    end
           end
  end.

(** [s.split(sep)] for a non-empty separator: scan from the left, cut at
    every occurrence of [sep] that does not overlap the previous one.
    [skip] counts the characters of a separator still to be passed. *)
Fixpoint split_scan (sep : string) (skip : nat) (s : string) : list string :=
  match s with
  | EmptyString => [EmptyString]
  | String c s' =>
      match skip with
      | S k => split_scan sep k s'
      | O =>
          if String.prefix sep s
          then EmptyString :: split_scan sep (String.length sep - 1) s'
          else match split_scan sep 0 s' with
               | w :: ws => String c w :: ws
               | [] => [String c EmptyString]
               end
      end
  end.

Definition split_on (sep s : string) : list string := split_scan sep 0 s.

(** [sep.join(xs)]. *)
Fixpoint join (sep : string) (xs : list string) : string :=
  match xs with
  | [] => EmptyString
  | [x] => x
  | x :: xs' => (x ++ sep ++ join sep xs')%string
  end.

(** [fp.readlines()]: the lines of a text, each with its line feed. *)
Fixpoint readlines (s : string) : list string :=
  match s with
  | EmptyString => []
  | String c s' =>
      if Ascii.eqb c LF then String c EmptyString :: readlines s'
      else match readlines s' with
           | ln :: lns => String c ln :: lns
           | [] => [String c EmptyString]
           end
  end.

(** [os.path.basename(p)]: what follows the last slash. *)
Definition basename (p : string) : string :=
  List.last (split_on "/" p) EmptyString.

(** [xs[k]] on a list: [IndexError] out of range. *)
Definition index {A} (xs : list A) (k : nat) : outcome A :=
  match xs !! k with
  | Some x => Ok x
  | None => Raise IndexError
  end.

(** *** Tokens *)

Fixpoint all_chars (p : ascii -> bool) (s : string) : bool :=
  match s with
  | EmptyString => true
  | String c s' => p c && all_chars p s'
  end.

Definition not_space (c : ascii) : bool := negb (is_space c).

(** A string that survives as one field of a whitespace-separated line:
    it is not empty and holds no whitespace. *)
Definition token (s : string) : Prop :=
  s <> EmptyString /\ all_chars not_space s = true.

(** ** Text form of the numbers *)

(** [float(s)] and the format specification [:.2f]. [py_float] is [None]
    where Python raises [ValueError]. *)
Class PyText (F : Type) := {
  py_float : string -> option F;
  format_2f : F -> string;
}.

Definition float_of (F : Type) `{PyText F} (s : string) : outcome F :=
  match py_float s with
  | Some x => Ok x
  | None => Raise ValueError
  end.
Arguments float_of {F _} s.

(** *** Rationals as decimal literals *)

(** Round to the nearest integer, ties to even: the rounding of [:.2f]
    applied to the exact value. *)
Definition round_half_even (x : Q) : Z :=
  let f := Qfloor x in
  let r := (x - inject_Z f)%Q in
  if Qltb r (1 # 2) then f
  else if Qltb (1 # 2) r then (f + 1)%Z
  else if Z.even f then f else (f + 1)%Z.

Definition digit_uint (d : N) (tl : Decimal.uint) : Decimal.uint :=
  match d with
  | 0%N => Decimal.D0 tl
  | 1%N => Decimal.D1 tl
  | 2%N => Decimal.D2 tl
  | 3%N => Decimal.D3 tl
  | 4%N => Decimal.D4 tl
  | 5%N => Decimal.D5 tl
  | 6%N => Decimal.D6 tl
  | 7%N => Decimal.D7 tl
  | 8%N => Decimal.D8 tl
  | _ => Decimal.D9 tl
  end.

Definition two_digits (n : N) : Decimal.uint :=
  digit_uint (n / 10) (digit_uint (n mod 10) Decimal.Nil).

(** The hundredths [n] written as [i.ff]. *)
Definition hundredths_to_string (n : N) : string :=
  (NilEmpty.string_of_uint (N.to_uint (n / 100)) ++ "."
   ++ NilEmpty.string_of_uint (two_digits (n mod 100)))%string.

(** [f"{x:.2f}"]: a minus sign for a negative value, then the magnitude
    rounded to hundredths. *)
Definition Q_format_2f (x : Q) : string :=
  ((if Qltb x 0 then "-" else EmptyString)
   ++ hundredths_to_string (Z.to_N (round_half_even (Qabs x * 100))))%string.

(** Cut a string at the first character satisfying [p]. *)
Fixpoint cut_at (p : ascii -> bool) (s : string) : string * option string :=
  match s with
  | EmptyString => (EmptyString, None)
  | String c s' =>
      if p c then (EmptyString, Some s')
      else let '(a, b) := cut_at p s' in (String c a, b)
  end.

Definition is_dot (c : ascii) : bool := Ascii.eqb c ".".
Definition is_exp (c : ascii) : bool := Ascii.eqb c "e" || Ascii.eqb c "E".

(** The characters of a printed magnitude. *)
Definition is_digit (c : ascii) : bool :=
  let n := nat_of_ascii c in ((48 <=? n) && (n <=? 57))%nat.

Definition is_decimal_char (c : ascii) : bool := is_digit c || is_dot c.

(** An optional sign in front of [s]: [true] for a minus. *)
Definition cut_sign (s : string) : bool * string :=
  match s with
  | String c s' =>
      if Ascii.eqb c "-" then (true, s')
      else if Ascii.eqb c "+" then (false, s')
      else (false, s)
  | EmptyString => (false, s)
  end.

(** A digit string, at least one digit long. *)
Definition digits_value (s : string) : option N :=
  match s with
  | EmptyString => None
  | _ => N.of_uint <$> NilEmpty.uint_of_string s
  end.

(** [digits], [digits.], [.digits] or [digits.digits]: the value is
    [m / 10^k] for the outcome [(m, k)]. *)
Definition mantissa_value (s : string) : option (N * nat) :=
  match cut_at is_dot s with
  | (ip, None) => m ← digits_value ip; Some (m, 0)
  | (ip, Some fp) =>
      if (String.length ip + String.length fp =? 0)%nat then None
      else
        a ← NilEmpty.uint_of_string ip;
        b ← NilEmpty.uint_of_string fp;
        Some (N.of_uint a * 10 ^ N.of_nat (String.length fp) + N.of_uint b,
              String.length fp)%N
  end.

Definition exponent_value (s : string) : option Z :=
  let '(neg, ds) := cut_sign s in
  e ← digits_value ds;
  Some (if neg then - Z.of_N e else Z.of_N e)%Z.

Definition pow10 (e : Z) : Q := Qpower 10 e.

(** [float(s)] on the decimal literals that [repr] and the format
    specifications write for finite values: surrounding whitespace,
    a sign, digits with an optional point, an optional exponent.
    The value is exact. *)
Definition Q_py_float (s : string) : option Q :=
  let '(neg, body) := cut_sign (strip s) in
  let '(ms, es) := cut_at is_exp body in
  '(m, k) ← mantissa_value ms;
  e ← match es with
      | None => Some 0%Z
      | Some ex => exponent_value ex
      end;
  let v := (inject_Z (Z.of_N m) * pow10 (e - Z.of_nat k))%Q in
  Some (if neg then (- v)%Q else v).

#[global] Instance Q_PyText : PyText Q := {|
  py_float := Q_py_float;
  format_2f := Q_format_2f;
|}.

(** ** RTTM codec *)

Section Codec.
Context `{PyNum F} `{PyText F}.

(** [list_to_rttm_string(file_id, l)] *)
Definition list_to_rttm_string (file_id : string) (l : segment F) : string :=
  ("SPEAKER " ++ file_id ++ " 1 " ++ format_2f (start_time l) ++ " "
   ++ format_2f (sub (end_time l) (start_time l))
   ++ " <NA> <NA> " ++ speaker l ++ " <NA> <NA>")%string.

(** The tuple [(start_time, duration, speaker_id)] of one line. *)
Definition speaker_tuple := (F * F * string)%type.

(** The body of the loop of [parse_rttm_file]. *)
Definition parse_rttm_line (line : string) : outcome speaker_tuple :=
  let parts := split_ws (strip line) in
  p3 ← index parts 3;
  start_time ← float_of p3;
  p4 ← index parts 4;
  duration ← float_of p4;
  speaker_id ← index parts 7;
  Ok (start_time, duration, speaker_id).

(** [parse_rttm_file] from the list [lines = file.readlines()]. *)
Definition parse_rttm_lines (lines : list string) : outcome (list speaker_tuple) :=
  for_each (fun speaker_info line =>
              t ← parse_rttm_line line; Ok (speaker_info ++ [t]))
           lines [].

(** [parse_rttm_file], from the text of the file. *)
Definition parse_rttm_file (content : string) : outcome (list speaker_tuple) :=
  parse_rttm_lines (readlines content).

(** The segment a parsed tuple stands for: [end = start + duration]. *)
Definition segment_of_tuple (t : speaker_tuple) : segment F :=
  Seg t.1.1 (add t.1.1 t.1.2) t.2.
End Codec.

Arguments speaker_tuple F : clear implicits.

(** *** RTTM lines in the words of the specification *)

Section RttmLines.
Context `{PyText F}.

(** The whitespace-separated fields of a line. *)
Definition fields (line : string) : list string := split_ws (strip line).

(** Fewer than 8 fields, or a time field (index 3 or 4) that [float]
    rejects. *)
Definition malformed (line : string) : Prop :=
  length (fields line) < 8
  \/ (exists p, fields line !! 3 = Some p /\ py_float p = None)
  \/ (exists p, fields line !! 4 = Some p /\ py_float p = None).

(** The tuple read from a well-formed line: fields 3, 4 and 7. *)
Definition line_tuple (line : string) (t : speaker_tuple F) : Prop :=
  exists p3 p4,
    fields line !! 3 = Some p3 /\ py_float p3 = Some t.1.1
    /\ fields line !! 4 = Some p4 /\ py_float p4 = Some t.1.2
    /\ fields line !! 7 = Some t.2.
End RttmLines.

(** ** Overlap Analyzer: [calculate_overlap_duration] *)

Section Overlap.
Context `{PyNum F}.

(** The body of [for i in range(len(speaker_info) - 1)]. *)
Definition overlap_iteration (speaker_info : list (speaker_tuple F))
    (overlap_tuple : list (F * F)) (i : nat) : outcome (list (F * F)) :=
  let j := i + 1 in
  '(start_i, duration_i, _) ← index speaker_info i;
  '(start_j, duration_j, _) ← index speaker_info j;
  let end_i := add start_i duration_i in
  let end_j := add start_j duration_j in
  let overlap_start := py_max start_i start_j in
  let overlap_end := py_min end_i end_j in
  if ltb overlap_start overlap_end
  then Ok (overlap_tuple ++ [(overlap_start, overlap_end)])
  else Ok overlap_tuple.

Definition collect_overlaps (speaker_info : list (speaker_tuple F))
  : outcome (list (F * F)) :=
  for_each (overlap_iteration speaker_info)
           (seq 0 (length speaker_info - 1)) [].

(** The body of [for start, end in overlap_tuple], on the state
    [(last_end, overlaps)]. *)
Definition attribute_iteration (st : F * list F) (o : F * F) : F * list F :=
  let '(last_end, overlaps) := st in
  let '(start, end_) := o in
  if leb start last_end
  then (end_, overlaps ++ [sub end_ last_end])
  else (end_, overlaps ++ [sub end_ start]).

(** The function after [speaker_info = parse_rttm_file(...)]. *)
Definition overlap_duration (speaker_info : list (speaker_tuple F))
  : outcome (F * F) :=
  overlap_tuple ← collect_overlaps speaker_info;
  let '(last_end, overlaps) := fold_left attribute_iteration overlap_tuple (zero, []) in
  let total_overlap_duration := py_sum overlaps in
  match overlaps with
  | [] => Ok (total_overlap_duration, zero)
  | _ :: _ =>
      match div total_overlap_duration last_end with
      | Some relative_overlap => Ok (total_overlap_duration, relative_overlap)
      | None => Raise ZeroDivisionError
      end
  end.

Definition calculate_overlap_duration `{PyText F} (content : string)
  : outcome (F * F) :=
  speaker_info ← parse_rttm_file content;
  overlap_duration speaker_info.

(** *** The analyser in the words of the specification *)

(** The overlap interval of a pair, kept when it is not empty. *)
Definition pair_overlap (a b : speaker_tuple F) : option (F * F) :=
  let s := py_max a.1.1 b.1.1 in
  let e := py_min (add a.1.1 a.1.2) (add b.1.1 b.1.2) in
  if ltb s e then Some (s, e) else None.

(** The qualifying intervals of the consecutive pairs, in order. *)
Fixpoint qualifying (l : list (speaker_tuple F)) : list (F * F) :=
  match l with
  | a :: (b :: _) as l' =>
      match pair_overlap a b with
      | Some o => o :: qualifying l'
      | None => qualifying l'
      end
  | _ => []
  end.

(** The durations attributed to the intervals, from [last_end]. *)
Fixpoint attributed (last_end : F) (os : list (F * F)) : list F :=
  match os with
  | [] => []
  | (s, e) :: os' =>
      (if leb s last_end then sub e last_end else sub e s) :: attributed e os'
  end.

(** [last_end] once every interval has been seen. *)
Definition final_last_end (os : list (F * F)) : F :=
  List.last (snd <$> os) zero.
End Overlap.

(** ** Filler words: [calculate_filler_word_amount] *)

(** [a / b] on two [int]s: [ZeroDivisionError] when [b] is 0, otherwise
    the quotient of the operands in the number model (the converted
    divisor is not 0 then, for counts below 2^63). *)
Definition true_div `{PyNum F} `{PyInt F} (a b : nat) : outcome F :=
  match b with
  | O => Raise ZeroDivisionError
  | S _ =>
      match div (of_int a) (of_int b) with
      | Some q => Ok q
      | None => Raise ZeroDivisionError
      end
  end.

(** [nlp] is the part-of-speech tagger: it yields the tag [pos_] of every
    token of the text. *)
Definition calculate_filler_word_amount `{PyNum F} `{PyInt F}
    (nlp : string -> list string) (lines : string) : outcome (nat * F) :=
  let doc := nlp lines in
  let intj_amount := length (filter (fun pos_ => String.eqb pos_ "INTJ" = true) doc) in
  let number_of_words := length (split_ws lines) in
  ratio ← true_div intj_amount number_of_words;
  Ok (intj_amount, ratio).

(** ** Alignment-to-segment converter: [convert_csv_to_rttm] *)

(** [sorted(xs, key=key)]: a stable sort that compares keys with [<].
    An element is inserted in front of the first element whose key is
    strictly larger, so elements with equal keys keep their order. *)
Section Sorted.
Context `{PyNum F} {A : Type} (key : A -> F).

Fixpoint insert_by (x : A) (l : list A) : list A :=
  match l with
  | [] => [x]
  | y :: l' => if ltb (key x) (key y) then x :: l else y :: insert_by x l'
  end.

Definition py_sorted (xs : list A) : list A :=
  fold_left (fun acc x => insert_by x acc) xs [].
End Sorted.

Section Converter.
Context `{PyNum F} `{PyText F}.

(** The dict [result]: speaker to list of records, in insertion order. *)
Definition groups := list (string * list (segment F)).

Definition dict_contains (result : groups) (speaker : string) : bool :=
  existsb (fun kv => String.eqb kv.1 speaker) result.

(** [result[speaker].append(r)] *)
Definition dict_append (result : groups) (speaker : string) (r : segment F) : groups :=
  (fun kv => if String.eqb kv.1 speaker then (kv.1, kv.2 ++ [r]) else kv) <$> result.

(** The tuple assignment [_, start_time, end_time, _, speaker = ...]:
    [ValueError] unless there are exactly five values. *)
Definition unpack5 (parts : list string) : outcome (string * string * string) :=
  match parts with
  | [_; start_time; end_time; _; speaker] => Ok (start_time, end_time, speaker)
  | _ => Raise ValueError
  end.

(** The body of [for w in words]. *)
Definition group_iteration (result : groups) (w : string) : outcome groups :=
  '(start_time, end_time, speaker) ← unpack5 (split_on ", " w);
  start_time ← float_of start_time;
  end_time ← float_of end_time;
  if dict_contains result speaker
  then Ok (dict_append result speaker (Seg start_time end_time speaker))
  else Ok (result ++ [(speaker, [Seg start_time end_time speaker])]).

(** [for speaker in result.keys(): result[speaker] =
    merge_close_numbers(result[speaker])], with the default threshold. *)
Fixpoint merge_groups (result : groups) : outcome groups :=
  match result with
  | [] => Ok []
  | (speaker, l) :: rest =>
      merged ← merge_close_numbers l half;
      rest' ← merge_groups rest;
      Ok ((speaker, merged) :: rest')
  end.

(** [os.path.basename(input_csv_path).split('.')[0]]; [split] never
    returns an empty list. *)
Definition file_id_of (input_csv_path : string) : string :=
  hd EmptyString (split_on "." (basename input_csv_path)).

(** [input.split('\n')[1:]] without the empty strings. *)
Definition data_lines (input : string) : list string :=
  filter (fun w => w <> EmptyString) (drop 1 (split_on (String LF EmptyString) input)).

(** The function from the path and the text read from it to the text
    written to [output_rttm_path]. *)
Definition convert_csv_to_rttm (input_csv_path input : string) : outcome string :=
  let file_id := file_id_of input_csv_path in
  let words := data_lines input in
  result ← for_each group_iteration words [];
  result ← merge_groups result;
  let result := concat (snd <$> result) in
  let result := py_sorted start_time result in
  let rttm_str := list_to_rttm_string file_id <$> result in
  Ok (join (String LF EmptyString) rttm_str).

(** *** The converter in the words of the specification *)

(** A row of the speaker-assigned table; the word and the score stay
    text, the converter never reads them. *)
Record alignment_row : Type := Row {
  row_word : string;
  row_start : F;
  row_end : F;
  row_score : string;
  row_speaker : string;
}.

Definition read_row (w : string) : option alignment_row :=
  match split_on ", " w with
  | [word; st; en; score; sp] =>
      match py_float st, py_float en with
      | Some s, Some e => Some (Row word s e score sp)
      | _, _ => None
      end
  | _ => None
  end.

(** The rows of a table whose every data line is well formed. *)
Definition read_table (input : string) : option (list alignment_row) :=
  mapM read_row (data_lines input).

Definition row_segment (r : alignment_row) : segment F :=
  Seg (row_start r) (row_end r) (row_speaker r).

(** The speakers in the order of their first row. *)
Fixpoint speakers_of (rows : list alignment_row) : list string :=
  match rows with
  | [] => []
  | r :: rows' =>
      row_speaker r ::
      filter (fun sp => sp <> row_speaker r) (speakers_of rows')
  end.

(** The rows of one speaker, in row order, as records. *)
Definition sequence_of (rows : list alignment_row) (sp : string) : list (segment F) :=
  row_segment <$> filter (fun r => row_speaker r = sp) rows.

(** The table grouped by speaker. *)
Definition grouped (rows : list alignment_row) : groups :=
  (fun sp => (sp, sequence_of rows sp)) <$> speakers_of rows.
End Converter.

Arguments groups F : clear implicits.
Arguments alignment_row F : clear implicits.

(** Ascending order of start, and the records that start at [q]. *)
Definition ascending (l : list (segment Q)) : Prop :=
  adjacent (fun a b => (start_time a <= start_time b)%Q) l.

Definition starting_at (q : Q) (l : list (segment Q)) : list (segment Q) :=
  List.filter (fun r => Qeq_bool (start_time r) q) l.

(** ** Scenarios and notions used in the statements *)

Set Warnings "-inexact-float".

(** The merge scenario, in binary64 and in exact arithmetic. *)
Definition scenario_float : list (segment float) :=
  [Seg 0.0%float 1.0%float "A"; Seg 1.3%float 2.0%float "A"; Seg 5.0%float 6.0%float "A"].

Definition scenario_Q : list (segment Q) :=
  [Seg 0%Q 1%Q "A"; Seg (13 # 10)%Q 2%Q "A"; Seg 5%Q 6%Q "A"].

(** Two close records of different speakers. *)
Definition mixed_labels_float : list (segment float) :=
  [Seg 0.0%float 1.0%float "A"; Seg 1.3%float 2.0%float "B"].

(** A record that starts inside its predecessor and ends before it. *)
Definition span_input_Q : list (segment Q) := [Seg 0%Q 10%Q "A"; Seg 1%Q 2%Q "A"].

Definition span_input_float : list (segment float) :=
  [Seg 0.0%float 10.0%float "A"; Seg 1.0%float 2.0%float "A"].

(** The overlap scenario (0,2,A), (1,3,B), (4,5,C) as parsed tuples
    (start, duration, label). *)
Definition overlap_scenario_float : list (speaker_tuple float) :=
  [(0.0%float, 2.0%float, "A"); (1.0%float, 2.0%float, "B"); (4.0%float, 1.0%float, "C")].

Definition overlap_scenario_Q : list (speaker_tuple Q) :=
  [(0%Q, 2%Q, "A"); (1%Q, 2%Q, "B"); (4%Q, 1%Q, "C")].

(** The intervals start at or after [lo], each later one starts no
    earlier than the one before, and none is empty. *)
Fixpoint rising (lo : Q) (os : list (Q * Q)) : Prop :=
  match os with
  | [] => True
  | (s, e) :: os' => (lo <= s)%Q /\ (s < e)%Q /\ rising s os'
  end.

(** The segments (5,10,A), (0,10,B), (0,1,C): not ordered by start. *)
Definition unsorted_float : list (speaker_tuple float) :=
  [(5.0%float, 5.0%float, "A"); (0.0%float, 10.0%float, "B"); (0.0%float, 1.0%float, "C")].

Definition unsorted_Q : list (speaker_tuple Q) :=
  [(5%Q, 5%Q, "A"); (0%Q, 10%Q, "B"); (0%Q, 1%Q, "C")].

(** What [float] reads from the hundredths [n] written as [i.ff]. *)
Definition hundredths_value (n : N) : Q :=
  (inject_Z (Z.of_N n) * pow10 (0 - Z.of_nat 2))%Q.


(** The converter scenario as the text of the table. *)
Definition scenario_csv : string :=
  ("Word, Start_ms, End_ms, Score, Speaker" ++ String LF
   "hi, 0.0, 0.5, 0.9, A" ++ String LF
   "there, 0.6, 1.0, 0.8, A" ++ String LF
   "yo, 0.2, 0.4, 0.7, B" ++ String LF EmptyString)%string.

(** ** Speaker counting: [count_speaker_from_rttm] *)

(** The function from the text of the file.  The lines are cut at line
    feeds, empty lines are dropped, and field 7 of a line is what
    [line.split(' ')] finds there: the pieces between single blanks. *)
Definition count_speaker_from_rttm (content : string) : outcome nat :=
  let lines := split_on (String LF EmptyString) content in
  let lines := List.filter (fun s => negb (String.length s =? 0)%nat) lines in
  speakers ← for_each (fun (speakers : gset string) line =>
                         p ← index (split_on " " line) 7;
                         Ok (speakers ∪ {[p]}))
                      lines ∅;
  Ok (size speakers).

(** [compare_speaker_amount_of_two_files], from the texts of the two
    files. *)
Definition compare_speaker_amount_of_two_files `{PyNum F} `{PyInt F}
    (rttm_a rttm_b : string) : outcome (nat * nat * F) :=
  speakers_a ← count_speaker_from_rttm rttm_a;
  speakers_b ← count_speaker_from_rttm rttm_b;
  ratio ← true_div speakers_b speakers_a;
  Ok (speakers_a, speakers_b, ratio).

(** The lines the loop of [count_speaker_from_rttm] visits, and the
    field it reads from a line. *)
Definition counted_lines (content : string) : list string :=
  List.filter (fun s => negb (String.length s =? 0)%nat)
              (split_on (String LF EmptyString) content).

Definition speaker_field (line : string) : option string :=
  split_on " " line !! 7.

(** ** Batch diarization: [diarize_all_files] *)

(** [s.endswith(suffix)] *)
Definition endswith (s suffix : string) : bool :=
  (String.length suffix <=? String.length s)%nat
  && String.eqb (substring (String.length s - String.length suffix)
                           (String.length suffix) s) suffix.

(** [os.path.join(a, b)] on POSIX paths. *)
Definition path_join (a b : string) : string :=
  if String.prefix "/" b then b
  else if (String.length a =? 0)%nat || endswith a "/" then (a ++ b)%string
  else (a ++ "/" ++ b)%string.

(** Iterating over a [str] yields its characters, each a string of
    length 1. *)
Fixpoint characters (s : string) : list string :=
  match s with
  | EmptyString => []
  | String c s' => String c EmptyString :: characters s'
  end.

Section Diarization.
(** The world outside the function: which paths are regular files, the
    text of the reference files, and the diarization of one file, which
    acts on a state [St] and may fail. *)
Context {St : Type}.
Variable isfile : string -> bool.
Variable read_text : string -> string.
Variable diarize : string -> string -> string -> option nat -> St -> outcome St.

(** [[f for f in audio_path if os.path.isfile(os.path.join(audio_path, f))
    and f.endswith(audio_format)]]: the comprehension runs over the string
    [audio_path] itself. *)
Definition wav_files (audio_path audio_format : string) : list string :=
  List.filter (fun f => isfile (path_join audio_path f) && endswith f audio_format)
              (characters audio_path).

(** The body of [for wav_file in wav_files]. *)
Definition diarize_iteration (audio_path result_path access_token : string)
    (consider_speakers : bool) (reference_path : string)
    (st : St) (wav_file : string) : outcome St :=
  let rttm_file := (hd EmptyString (split_on "." wav_file) ++ ".rttm")%string in
  let result_file := path_join result_path rttm_file in
  let audio_file := path_join audio_path wav_file in
  num_speakers ← (if consider_speakers
                  then n ← count_speaker_from_rttm
                             (read_text (path_join reference_path rttm_file));
                       Ok (Some n)
                  else Ok None);
  diarize audio_file result_file access_token num_speakers st.

Definition diarize_all_files (audio_path result_path access_token audio_format : string)
    (consider_speakers : bool) (reference_path : string) (st : St) : outcome St :=
  for_each (diarize_iteration audio_path result_path access_token
                              consider_speakers reference_path)
           (wav_files audio_path audio_format) st.
End Diarization.

(** ** The table written by [forced_alignment] *)

(** The header line [forced_alignment] writes when it creates the file. *)
Definition alignment_header : string :=
  String.append "Word, Start_ms, End_ms, Score" (String LF EmptyString).

(** The line [save_result_as_csv] writes for one span: the word and the
    texts of [x0 / sample_rate], [x1 / sample_rate] and the score. *)
Definition alignment_line (span : string * string * string * string) : string :=
  let '(word, x0, x1, score) := span in
  (word ++ ", " ++ x0 ++ ", " ++ x1 ++ ", " ++ score)%string.

(** [save_result_as_csv]: every span appends its line and a line feed to
    the text [fp] of the result file. *)
Definition save_result_as_csv (fp : string)
    (spans : list (string * string * string * string)) : string :=
  fold_left (fun fp span => (fp ++ alignment_line span ++ String LF EmptyString)%string)
            spans fp.

(** No comma and no line feed: what a normalized word and a printed
    number look like. *)
Definition plain (s : string) : Prop :=
  all_chars (fun c => negb (Ascii.eqb c ",") && negb (Ascii.eqb c LF)) s = true.

(** ** Transcript normalization: [normalize_uroman] *)

(** The transcript is arbitrary text, so a [str] is modelled here as the
    sequence of its code points. *)
Definition text := list N.

Definition blank : N := 32.
Definition apostrophe : N := 39.
Definition right_quote : N := 8217.

Definition is_lower_letter (c : N) : bool := ((97 <=? c) && (c <=? 122))%N.
Definition is_ascii_digit (c : N) : bool := ((48 <=? c) && (c <=? 57))%N.

(** The classes [[a-z'0-9 ]] and [[a-z' ]] of the two patterns. *)
Definition word_or_blank (c : N) : bool :=
  is_lower_letter c || (c =? apostrophe)%N || is_ascii_digit c || (c =? blank)%N.
Definition letter_or_blank (c : N) : bool :=
  is_lower_letter c || (c =? apostrophe)%N || (c =? blank)%N.

(** [c.isspace()] on code points. *)
Definition py_isspace (c : N) : bool :=
  (((9 <=? c) && (c <=? 13)) || ((28 <=? c) && (c <=? 32))
   || (c =? 133) || (c =? 160) || (c =? 5760)
   || ((8192 <=? c) && (c <=? 8202)) || (c =? 8232) || (c =? 8233)
   || (c =? 8239) || (c =? 8287) || (c =? 12288))%N.

(** [t.replace("’", "'")] *)
Definition replace_quote (t : text) : text :=
  (fun c => if (c =? right_quote)%N then apostrophe else c) <$> t.

(** [re.sub("([^...])", " ", t)] for a character class [keep]. *)
Definition blank_others (keep : N -> bool) (t : text) : text :=
  (fun c => if keep c then c else blank) <$> t.

(** [re.sub(' +', r, t)]: every maximal run of blanks becomes [r]. *)
Fixpoint sub_blank_runs (r t : text) : text :=
  match t with
  | [] => []
  | c :: t' =>
      if (c =? blank)%N
      then match t' with
           | c' :: _ => if (c' =? blank)%N then sub_blank_runs r t'
                        else r ++ sub_blank_runs r t'
           | [] => r
           end
      else c :: sub_blank_runs r t'
  end.

(** [t.split()] *)
Fixpoint split_text (t : text) : list text :=
  match t with
  | [] => []
  | c :: t' =>
      if py_isspace c then split_text t'
      else match t' with
           | [] => [[c]]
           | c' :: _ =>
               if py_isspace c' then [c] :: split_text t'
               else match split_text t' with
                    | w :: ws => (c :: w) :: ws
                    | [] => [[c]]
                    end
           end
  end.

Section Normalize.
(** From outside: [str.lower], the Unicode property behind
    [str.isnumeric], and [num2words], which may raise. *)
Variable lower : text -> text.
Variable numeric : N -> bool.
Variable num2words : text -> option text.

(** [w.isnumeric()] *)
Definition isnumeric (w : text) : bool :=
  match w with
  | [] => false
  | _ => forallb numeric w
  end.

(** The body of [for i in range(len(text))]: what [text[i]] becomes. *)
Definition normalize_word (w : text) : option text :=
  if isnumeric w
  then t ← num2words w;
       let t := replace_quote t in
       let t := blank_others letter_or_blank t in
       Some (sub_blank_runs [] t)
  else Some w.

(** [normalize_uroman(text)]; the result of [text.strip()] is dropped by
    the code.  [None] when [num2words] raises. *)
Definition normalize_uroman (t : text) : option (list text) :=
  let t := lower t in
  let t := replace_quote t in
  let t := blank_others word_or_blank t in
  let t := sub_blank_runs [blank] t in
  mapM normalize_word (split_text t).
End Normalize.

(** ** Order and division in a number model *)

Section Order.
Context `{PyNum F}.

(** [<] orders the numbers [keys]: it is asymmetric on them, and where
    it relates neither [a] to [b] nor [b] to [c] it does not relate [a]
    to [c].  This holds for all rationals and for all binary64 numbers
    other than NaN. *)
Definition weakly_ordered (keys : list F) : Prop :=
  (forall a b, a ∈ keys -> b ∈ keys -> ltb a b = true -> ltb b a = false)
  /\ (forall a b c, a ∈ keys -> b ∈ keys -> c ∈ keys ->
         ltb a b = false -> ltb b c = false -> ltb a c = false).

(** Sorted by start, ascending: no record starts before a record that
    precedes it. *)
Definition sorted_by_start (l : list (segment F)) : Prop :=
  StronglySorted (fun a b => ltb (start_time b) (start_time a) = false) l.

(** The records whose start is tied with [q]: neither is below the
    other. *)
Definition tied (q : F) (r : segment F) : bool :=
  negb (ltb (start_time r) q) && negb (ltb q (start_time r)).

Definition tied_with (q : F) (l : list (segment F)) : list (segment F) :=
  List.filter (tied q) l.

(** A number above one that is not below 0 can be divided by. *)
Definition positive_divisors : Prop :=
  forall t s e : F, ltb s e = true -> ltb s zero = false -> is_Some (div t e).
End Order.

Arguments positive_divisors F {_}.

(** The base name stripped of its extension, in the words of the
    specification: what precedes the last dot of the base name. *)
Definition stripped_of_extension (path : string) : string :=
  let parts := split_on "." (basename path) in
  match parts with
  | _ :: _ :: _ => join "." (removelast parts)
  | _ => basename path
  end.

(** Two inputs in binary64, both ordered by start with no start below 0,
    on which rounding carries the result out of the bounds. *)
Definition rounded_above_float : list (speaker_tuple float) :=
  [(0.0%float, 0.03%float, "A"); (0.0%float, 100.0%float, "B");
   (0.0%float, 0.3%float, "C")].

Definition rounded_below_float : list (speaker_tuple float) :=
  [(0.0%float, 9007199254740992.0%float, "A");
   (0.6%float, 9007199254740992.0%float, "B");
   (0.75%float, 0.25%float, "C"); (0.8%float, 0.1%float, "D")].

(** The first of them in exact arithmetic. *)
Definition rounded_above_Q : list (speaker_tuple Q) :=
  [(0%Q, (3 # 100)%Q, "A"); (0%Q, 100%Q, "B"); (0%Q, (3 # 10)%Q, "C")].

(** A token of ASCII characters.  On ASCII text the whitespace of the
    model, [is_space], is the whitespace of [str.split] and [str.strip]. *)
Definition is_ascii (c : ascii) : bool := (nat_of_ascii c <? 128)%nat.

Definition ascii_token (s : string) : Prop :=
  token s /\ all_chars is_ascii s = true.

(** ** Text form of the numbers in binary64 *)

(** [f"{x:.2f}"] for a binary64 number: its exact value rounded to
    hundredths, ties to even; the sign is that of [x], also where the
    digits are all 0; the words for the infinities and for NaN. *)
Definition float_format_2f (x : float) : string :=
  match Prim2SF x with
  | S754_nan => "nan"
  | S754_infinity s => if s then "-inf" else "inf"
  | S754_zero s => ((if s then "-" else EmptyString) ++ hundredths_to_string 0)%string
  | S754_finite s m e =>
      ((if s then "-" else EmptyString)
       ++ hundredths_to_string
            (Z.to_N (round_half_even (inject_Z (Zpos m) * Qpower 2 e * 100))))%string
  end.

(** The binary64 number nearest to the rational [x >= 0], ties to even,
    with the sign [neg]: the exponent [e] has [2^e <= x < 2^(e+1)], the
    last place is [2^(e-52)] and not below [2^-1074]; beyond the largest
    number the result is an infinity. *)
Definition nearest_float (neg : bool) (x : Q) : float :=
  if Qle_bool x 0 then (if neg then neg_zero else PrimFloat.zero)
  else
    let e0 := (Z.log2 (Qnum x) - Z.log2 (Zpos (Qden x)))%Z in
    let e := if Qle_bool (Qpower 2 e0) x then e0 else (e0 - 1)%Z in
    let ex := Z.max (e - 52) (-1074) in
    let m := round_half_even (x / Qpower 2 ex) in
    SF2Prim (binary_normalize prec emax (if neg then (- m)%Z else m) ex neg).

Definition lower_char (c : ascii) : ascii :=
  let n := nat_of_ascii c in
  if ((65 <=? n) && (n <=? 90))%nat then ascii_of_nat (n + 32) else c.

Fixpoint lower_ascii (s : string) : string :=
  match s with
  | EmptyString => EmptyString
  | String c s' => String (lower_char c) (lower_ascii s')
  end.

(** An underscore between two digits groups digits and is dropped; any
    other underscore stays, and the literal is rejected. *)
Fixpoint drop_underscores (after_digit : bool) (s : string) : string :=
  match s with
  | EmptyString => EmptyString
  | String c s' =>
      if Ascii.eqb c "_" && after_digit
         && match s' with String d _ => is_digit d | EmptyString => false end
      then drop_underscores false s'
      else String c (drop_underscores (is_digit c) s')
  end.

(** [float(s)] in binary64: surrounding whitespace, a sign, then [inf],
    [infinity] or [nan] in any case, or a decimal literal with an optional
    exponent, read as the nearest binary64 number. *)
Definition float_py_float (s : string) : option float :=
  let '(neg, body) := cut_sign (strip s) in
  let word := lower_ascii body in
  if String.eqb word "inf" || String.eqb word "infinity"
  then Some (if neg then neg_infinity else infinity)
  else if String.eqb word "nan" then Some nan
  else
    let '(ms, es) := cut_at is_exp (drop_underscores false body) in
    '(m, k) ← mantissa_value ms;
    e ← match es with
        | None => Some 0%Z
        | Some ex => exponent_value ex
        end;
    Some (nearest_float neg (inject_Z (Z.of_N m) * pow10 (e - Z.of_nat k))%Q).

#[global] Instance float_PyText : PyText float := {|
  py_float := float_py_float;
  format_2f := float_format_2f;
|}.

(** Two records in binary64: one of everyday size, one so large that
    [(start + duration) - start] is no longer [duration]. *)
Definition everyday_record_float : segment float :=
  Seg 0.125%float 1.3%float "spk_0".


(** A table on which binary64 and exact arithmetic decide differently:
    the gap 0.7 - 0.2 is 0.49999999999999994 in binary64 and 1/2
    exactly. *)
Definition boundary_csv : string :=
  ("Word, Start_ms, End_ms, Score, Speaker" ++ String LF
   "so, 0.0, 0.2, 0.9, A" ++ String LF
   "on, 0.7, 1.0, 0.8, A" ++ String LF EmptyString)%string.

(** A binary64 value that is not below 0: NaN, a zero of either sign,
    or a value whose sign bit is clear. *)
Definition not_negative (y : spec_float) : Prop :=
  match y with
  | S754_infinity s | S754_finite s _ _ => s = false
  | S754_zero _ | S754_nan => True
  end.

(** What [parse_rttm_file] makes of the line of a record: start and
    duration are what [float] reads from the two printed numbers. *)
Definition read_back `{PyNum F} `{PyText F} (r : segment F) : F * F * string :=
  (default zero (py_float (format_2f (start_time r))),
   default zero (py_float (format_2f (sub (end_time r) (start_time r)))),
   speaker r).

(** Two RTTM texts, with three speakers and with one. *)
Definition three_speakers_rttm : string :=
  ("S f 1 0.00 1.00 <NA> <NA> A <NA> <NA>" ++ String LF
   "S f 1 1.00 1.00 <NA> <NA> B <NA> <NA>" ++ String LF
   "S f 1 2.00 1.00 <NA> <NA> C <NA> <NA>")%string.

Definition one_speaker_rttm : string := "S f 1 0.00 1.00 <NA> <NA> A <NA> <NA>".

(** * Proofs *)

(** ** The model on concrete inputs *)

Example split_ws_collapses_blanks :
  split_ws "  SPEAKER f 1  0.00 " = ["SPEAKER"; "f"; "1"; "0.00"].
Proof. reflexivity. Qed.

Example split_on_comma_blank :
  split_on ", " "hi, 0.0, 0.5, 0.9, A" = ["hi"; "0.0"; "0.5"; "0.9"; "A"]
  /\ split_on ", " "a,, b, " = ["a,"; "b"; EmptyString]
  /\ split_on "." "my.file.csv" = ["my"; "file"; "csv"].
Proof. by split_and!. Qed.

Example readlines_keeps_line_feeds :
  readlines (String "a" (String LF (String "b" EmptyString)))
  = [String "a" (String LF EmptyString); "b"].
Proof. reflexivity. Qed.

Example format_2f_rounds_half_even :
  Q_format_2f (1 # 8) = "0.12" /\ Q_format_2f (3 # 8) = "0.38"
  /\ Q_format_2f (123456 # 100) = "1234.56" /\ Q_format_2f (-1 # 3) = "-0.33"
  /\ Q_format_2f (-1 # 1000) = "-0.00".
Proof. by split_and!. Qed.

Example py_float_literals :
  Qred <$> Q_py_float "1.30" = Some (13 # 10)%Q
  /\ Qred <$> Q_py_float " 6.25e-05 " = Some (1 # 16000)%Q
  /\ Qred <$> Q_py_float "-.5" = Some (-1 # 2)%Q
  /\ Q_py_float "." = None
  /\ Q_py_float "<NA>" = None
  /\ Q_py_float EmptyString = None.
Proof. by split_and!. Qed.

Example file_id_of_examples :
  file_id_of "/data/rec01.csv" = "rec01" /\ file_id_of "my.file.csv" = "my".
Proof. by split_and!. Qed.

(** [:.2f] and [float] in binary64. *)
Example float_format_2f_examples :
  float_format_2f 0.125 = "0.12" /\ float_format_2f 0.375 = "0.38"
  /\ float_format_2f 2.675 = "2.67" /\ float_format_2f 1e23 = "99999999999999991611392.00"
  /\ float_format_2f (-0.001) = "-0.00" /\ float_format_2f neg_zero = "-0.00"
  /\ float_format_2f nan = "nan" /\ float_format_2f neg_infinity = "-inf".
Proof. split_and!; vm_compute; reflexivity. Qed.

Example float_py_float_examples :
  float_py_float "0.12" = Some 0x1.eb851eb851eb8p-4%float
  /\ float_py_float " 6.25e-05 " = Some 0x1.0624dd2f1a9fcp-14%float
  /\ float_py_float "9007199254740993" = Some 9007199254740992%float
  /\ float_py_float "1_000.5" = Some 1000.5%float
  /\ float_py_float "1e400" = Some infinity
  /\ float_py_float "2.4703282292062327e-324" = Some 0%float
  /\ float_py_float "2.4703282292062328e-324" = Some 0x0.0000000000001p-1022%float
  /\ float_py_float "-Infinity" = Some neg_infinity
  /\ float_py_float "NaN" = Some nan
  /\ float_py_float "1__0" = None
  /\ float_py_float "." = None
  /\ float_py_float "<NA>" = None.
Proof. split_and!; vm_compute; reflexivity. Qed.

(** The converter scenario of the specification, in exact arithmetic and
    in binary64. *)
Example convert_csv_to_rttm_scenario :
  convert_csv_to_rttm (F:=Q) "/data/rec01.csv" scenario_csv
  = Ok (join (String LF EmptyString)
          ["SPEAKER rec01 1 0.00 1.00 <NA> <NA> A <NA> <NA>";
           "SPEAKER rec01 1 0.20 0.20 <NA> <NA> B <NA> <NA>"])
  /\ convert_csv_to_rttm (F:=float) "/data/rec01.csv" scenario_csv
     = Ok (join (String LF EmptyString)
             ["SPEAKER rec01 1 0.00 1.00 <NA> <NA> A <NA> <NA>";
              "SPEAKER rec01 1 0.20 0.20 <NA> <NA> B <NA> <NA>"]).
Proof. split; vm_compute; reflexivity. Qed.

(** ** Small facts about the numbers *)

Lemma Qltb_lt (a b : Q) : Qltb a b = true <-> (a < b)%Q.
Proof.
  unfold Qltb. rewrite negb_true_iff. split.
  - intros E. apply Qnot_le_lt. intros L. apply Qle_bool_iff in L. congruence.
  - intros L. destruct (Qle_bool b a) eqn:E; [|done].
    apply Qle_bool_iff in E. exfalso. eapply Qlt_not_le; eauto.
Qed.

Lemma Qltb_ge (a b : Q) : Qltb a b = false <-> (b <= a)%Q.
Proof.
  unfold Qltb. rewrite negb_false_iff. apply Qle_bool_iff.
Qed.

(** ** The merger *)

Section MergerFacts.
Context `{PyNum F}.
Implicit Types (x y cur : segment F) (rest l : list (segment F)) (h : store F).

(** Reading a freshly allocated list back gives the list. *)
Lemma alloc_seq l : alloc l <$> seq 0 (length l) = l.
Proof.
  unfold alloc. generalize (Seg (F:=F) zero zero EmptyString). intros d.
  induction l as [|x l IH]; [done|].
  cbn [length seq]. rewrite <- seq_shift. csimpl. f_equal.
  rewrite <- list_fmap_compose. exact IH.
Qed.

Lemma store_insert_eq h (m : loc) (v : segment F) : (<[m:=v]> h) m = v.
Proof. apply fn_lookup_insert. Qed.

Lemma store_insert_notin h (m : loc) (v : segment F) (ks : list loc) :
  m ∉ ks -> <[m:=v]> h <$> ks = h <$> ks.
Proof.
  intros Hm. apply list_fmap_ext. intros k a Ha. apply fn_lookup_insert_ne.
  intros ->. apply Hm. by eapply list_elem_of_lookup_2.
Qed.

Lemma merge_iteration_snoc threshold h (done : list loc) (m i : loc) :
  merge_iteration threshold (h, done ++ [m]) i =
    if ltb (sub (start_time (h i)) (end_time (h m))) threshold
    then Ok (<[m := set_end_time (h m) (end_time (h i))]> h, done ++ [m])
    else Ok (h, (done ++ [m]) ++ [i]).
Proof. unfold merge_iteration. by rewrite last_snoc. Qed.

(** The loop on references, for pairwise distinct references, computes
    the greedy merge of the values. *)
Lemma merge_loop_spec threshold (locs : list loc) :
  forall h (done : list loc) (m : loc),
    NoDup (done ++ m :: locs) ->
    exists h' out,
      for_each (merge_iteration threshold) locs (h, done ++ [m]) = Ok (h', out)
      /\ h' <$> out = (h <$> done) ++ merge_from threshold (h m) (h <$> locs).
Proof.
  induction locs as [|i locs IH]; intros h done m ND.
  - exists h, (done ++ [m]). split; [done|]. by rewrite fmap_app.
  - cbn [for_each]. rewrite merge_iteration_snoc.
    assert (NDm : NoDup (done ++ m :: locs)).
    { apply list.NoDup_app in ND as (Hd1 & Hd2 & Hd3).
      apply list.NoDup_app. split_and!; [done| |].
      - intros a Ha Hin. apply (Hd2 a Ha).
        apply elem_of_cons in Hin as [->|Hin]; [left|right; by right].
      - apply list.NoDup_cons in Hd3 as [Hm Hd3].
        apply list.NoDup_cons in Hd3 as [_ Hd3].
        apply list.NoDup_cons. split; [|done]. intros Hin. apply Hm. by right. }
    assert ((m ∉ done) /\ (m ∉ locs)) as [Hmd Hml].
    { apply list.NoDup_app in NDm as (_ & Hd & ND').
      apply list.NoDup_cons in ND' as [? _].
      split; [|done]. intros Hin. apply (Hd m Hin). left. }
    rewrite fmap_cons. cbn [merge_from]. destruct (ltb _ _) eqn:E; csimpl.
    + destruct (IH (<[m:=set_end_time (h m) (end_time (h i))]> h) done m NDm)
        as (h' & out & -> & Hout).
      exists h', out. split; [done|].
      by rewrite Hout, store_insert_eq, !store_insert_notin.
    + destruct (IH h (done ++ [m]) i) as (h' & out & -> & Hout).
      { by rewrite <- app_assoc. }
      exists h', out. split; [done|].
      by rewrite Hout, fmap_app, <- app_assoc.
Qed.

(** On a list of values the function is the greedy merge. *)
Lemma merge_close_numbers_cons x rest threshold :
  merge_close_numbers (x :: rest) threshold = Ok (merge_from threshold x rest).
Proof.
  unfold merge_close_numbers, merge_close_numbers_refs.
  cbn [length seq].
  destruct (merge_loop_spec threshold (seq 1 (length rest)) (alloc (x :: rest)) [] 0)
    as (h' & out & E & Hout).
  { apply (NoDup_seq 0 (S (length rest))). }
  cbn [app] in E. rewrite E, Hout. f_equal.
  pose proof (alloc_seq (x :: rest)) as A. cbn [length seq] in A.
  csimpl in A. injection A as A1. csimpl. by rewrite A1.
Qed.

(** A list that holds one record object twice is another matter: the
    second visit reads the end the first merge has written. *)
Remark merge_close_numbers_refs_shared_object :
  match merge_close_numbers_refs
          (alloc [Seg 0%Q 1%Q "r"; Seg (6 # 5)%Q 3%Q "s"]) [0; 1; 0] half with
  | Ok (h, merged_list) => h <$> merged_list
  | Raise _ => []
  end = [Seg 0%Q 3%Q "r"]
  /\ merge_close_numbers
       [Seg 0%Q 1%Q "r"; Seg (6 # 5)%Q 3%Q "s"; Seg 0%Q 1%Q "r"] half
     = Ok [Seg 0%Q 1%Q "r"].
Proof. split; reflexivity. Qed.

Lemma merge_close_numbers_nil threshold :
  merge_close_numbers (F:=F) [] threshold = Raise IndexError.
Proof. done. Qed.

(** *** Runs *)

Lemma last_cons_default {A} (a d : A) (l : list A) :
  List.last (a :: l) d = List.last l a.
Proof.
  revert a d. induction l as [|b l IH]; intros a d; [done|].
  change (List.last (a :: b :: l) d) with (List.last (b :: l) d).
  by rewrite !IH.
Qed.

Lemma runs_nonempty threshold x rest : runs threshold x rest <> [].
Proof.
  destruct rest as [|y rest]; [done|]. cbn [runs].
  destruct (close _ _ _); [|done]. by destruct (runs threshold y rest) as [|[] ?].
Qed.

(** The cuts only look at the end of the first record. *)
Lemma runs_head threshold x x' rest :
  end_time x = end_time x' ->
  runs threshold x rest =
    match runs threshold x' rest with
    | (_, tl) :: rs => (x, tl) :: rs
    | [] => []
    end.
Proof.
  intros E. destruct rest as [|y rest]; [done|]. cbn [runs]. unfold close.
  rewrite E. destruct (ltb _ _); [|done].
  by destruct (runs threshold y rest) as [|[] ?].
Qed.

Lemma runs_concat threshold x rest :
  concat (run_records <$> runs threshold x rest) = x :: rest.
Proof.
  revert x. induction rest as [|y rest IH]; intros x; [done|].
  cbn [runs]. destruct (close _ _ _).
  - specialize (IH y). pose proof (runs_nonempty threshold y rest).
    destruct (runs threshold y rest) as [|[z tl] rs]; [done|].
    csimpl in *. unfold run_records in *. cbn [fst snd] in *.
    injection IH as -> IH. by rewrite IH.
  - csimpl. by rewrite IH.
Qed.

Lemma runs_first threshold x rest :
  exists tl rs, runs threshold x rest = (x, tl) :: rs.
Proof.
  destruct rest as [|y rest]; [by eexists _, _|]. cbn [runs].
  destruct (close _ _ _); [|by eexists _, _].
  destruct (runs threshold y rest) as [|[] ?]; by eexists _, _.
Qed.

(** Inside a run every record is close to its predecessor. *)
Lemma runs_inside threshold x rest :
  Forall (fun r => adjacent (fun a b => close threshold a b = true) (run_records r))
         (runs threshold x rest).
Proof.
  revert x. induction rest as [|y rest IH]; intros x.
  - by repeat constructor.
  - cbn [runs]. destruct (close _ _ _) eqn:E.
    + specialize (IH y). destruct (runs_first threshold y rest) as (tl & rs & R).
      rewrite R in *. apply list.Forall_cons in IH as [IH1 IH2].
      apply list.Forall_cons. split; [|done]. by split.
    + apply list.Forall_cons. split; [done|]. apply IH.
Qed.

(** Between two runs the gap is not below the threshold: runs are maximal. *)
Lemma runs_between threshold x rest :
  adjacent (fun r1 r2 => close threshold (run_last r1) r2.1 = false)
           (runs threshold x rest).
Proof.
  revert x. induction rest as [|y rest IH]; intros x; [done|].
  cbn [runs]. destruct (close _ _ _) eqn:E.
  - specialize (IH y). destruct (runs_first threshold y rest) as (tl & rs & R).
    rewrite R in *. destruct rs as [|r2 rs]; [done|].
    destruct IH as [IH1 IH2]. split; [|done].
    unfold run_last in *. cbn [fst snd] in *. by rewrite last_cons_default.
  - destruct (runs_first threshold y rest) as (tl & rs & R).
    specialize (IH y). rewrite R in *. split; [|done]. done.
Qed.

(** The greedy merge emits one coalesced record per run. *)
Lemma merge_from_runs threshold rest :
  forall x, merge_from threshold x rest = coalesce <$> runs threshold x rest.
Proof.
  induction rest as [|y rest IH]; intros x; [by destruct x|].
  cbn [merge_from runs]. unfold close. destruct (ltb _ _) eqn:E.
  - rewrite IH. rewrite (runs_head threshold (set_end_time x (end_time y)) y) by done.
    destruct (runs_first threshold y rest) as (tl & rs & ->). csimpl. f_equal.
    unfold coalesce, run_last. cbn [fst snd set_end_time start_time speaker].
    f_equal. rewrite last_cons_default.
    destruct tl; [done|]. by rewrite !last_cons_default.
  - csimpl. rewrite IH. f_equal. by destruct x.
Qed.

Lemma merge_from_length threshold rest :
  forall x, length (merge_from threshold x rest) <= length (x :: rest).
Proof.
  induction rest as [|y rest IH]; intros x; [done|].
  cbn [merge_from]. destruct (ltb _ _).
  - etrans; [apply IH|]. cbn [length]. lia.
  - cbn [length]. specialize (IH y). cbn [length] in IH. lia.
Qed.
End MergerFacts.

(** ** The order of binary64 *)

Section FloatOrder.
Implicit Types (x y z : spec_float) (a b c : float).

Lemma Prim2SF_zero : Prim2SF 0%float = S754_zero false.
Proof. reflexivity. Qed.

(** A number that equals itself is not NaN. *)
Lemma Prim2SF_number a : PrimFloat.eqb a a = true -> Prim2SF a <> S754_nan.
Proof.
  intros Ha E. rewrite FloatAxioms.eqb_spec, E in Ha. discriminate.
Qed.

Ltac compare_cases :=
  repeat match goal with
  | |- context [Z.compare ?p ?q] => destruct (Z.compare_spec p q)
  | |- context [Pos.compare_cont Eq ?p ?q] =>
      change (Pos.compare_cont Eq p q) with (Pos.compare p q);
      destruct (Pos.compare_spec p q)
  end.

Lemma SFltb_asym x y : SFltb x y = true -> SFltb y x = false.
Proof.
  unfold SFltb, SFcompare.
  destruct x as [sx|sx| |sx mx ex], y as [sy|sy| |sy my ey];
    try destruct sx; try destruct sy; cbn; try discriminate; try reflexivity;
    compare_cases; cbn; try discriminate; try reflexivity; intros; subst; lia.
Qed.

Lemma SFltb_negtrans x y z :
  x <> S754_nan -> y <> S754_nan -> z <> S754_nan ->
  SFltb x y = false -> SFltb y z = false -> SFltb x z = false.
Proof.
  unfold SFltb, SFcompare. intros Hx Hy Hz.
  destruct x as [sx|sx| |sx mx ex]; try congruence;
    destruct y as [sy|sy| |sy my ey]; try congruence;
    destruct z as [sz|sz| |sz mz ez]; try congruence;
    try destruct sx; try destruct sy; try destruct sz;
    cbn; try discriminate; try reflexivity;
    compare_cases; cbn; try discriminate; try reflexivity; intros; subst; lia.
Qed.

Lemma SFltb_above_zero x y :
  SFltb x y = true -> SFltb x (S754_zero false) = false ->
  SFeqb y (S754_zero false) = false.
Proof.
  unfold SFltb, SFeqb, SFcompare.
  destruct x as [sx|sx| |sx mx ex], y as [sy|sy| |sy my ey];
    try destruct sx; try destruct sy; cbn; try discriminate; reflexivity.
Qed.

Lemma float_ltb_asym a b : PrimFloat.ltb a b = true -> PrimFloat.ltb b a = false.
Proof. rewrite !FloatAxioms.ltb_spec. apply SFltb_asym. Qed.

Lemma float_ltb_negtrans a b c :
  PrimFloat.eqb a a = true -> PrimFloat.eqb b b = true -> PrimFloat.eqb c c = true ->
  PrimFloat.ltb a b = false -> PrimFloat.ltb b c = false -> PrimFloat.ltb a c = false.
Proof.
  intros Ha Hb Hc. rewrite !FloatAxioms.ltb_spec.
  apply SFltb_negtrans; by apply Prim2SF_number.
Qed.

Lemma float_above_zero a b :
  PrimFloat.ltb a b = true -> PrimFloat.ltb a 0 = false -> PrimFloat.eqb b 0 = false.
Proof.
  rewrite !FloatAxioms.ltb_spec, FloatAxioms.eqb_spec, Prim2SF_zero.
  apply SFltb_above_zero.
Qed.
End FloatOrder.

(** Binary64 numbers other than NaN are ordered by [<]; so are the
    rationals. *)
Lemma float_weakly_ordered (keys : list float) :
  Forall (fun k => PrimFloat.eqb k k = true) keys -> weakly_ordered keys.
Proof.
  rewrite list.Forall_forall. intros Hnum. split.
  - intros a b _ _. apply float_ltb_asym.
  - intros a b c Ha Hb Hc. apply float_ltb_negtrans; by apply Hnum.
Qed.

Lemma Q_weakly_ordered (keys : list Q) : weakly_ordered keys.
Proof.
  split.
  - intros a b _ _ Hab%Qltb_lt. apply Qltb_ge. lra.
  - intros a b c _ _ _ Hab%Qltb_ge Hbc%Qltb_ge. apply Qltb_ge. lra.
Qed.

Lemma float_positive_divisors : positive_divisors float.
Proof.
  intros t s e Hse Hs. cbn [div float_PyNum].
  cbn [ltb zero float_PyNum] in Hse, Hs.
  by rewrite (float_above_zero s e Hse Hs).
Qed.

Lemma Q_positive_divisors : positive_divisors Q.
Proof.
  intros t s e Hse%Qltb_lt Hs%Qltb_ge. cbn [div Q_PyNum].
  destruct (Qeq_bool e 0) eqn:E; [|done].
  apply Qeq_bool_iff in E. cbn [zero Q_PyNum] in Hs. lra.
Qed.

(** ** Claims about the Segment Merger *)

(** C1. For a non-empty list of records and any threshold (no ordering is
    needed), [merge_close_numbers] returns one record per run, where the
    runs cut the input exactly between the consecutive records whose gap
    [next.start - current.end] is not strictly below the threshold: inside
    a run every gap is below it, between two runs it is not.  Each run is
    coalesced to [first.start, last.end] with the label of its first
    record, a run of one record passes through unchanged, and the result
    is the greedy chain merge in which the record being built absorbs each
    successor whose gap to its current end is below the threshold.  With
    the default threshold 0.5 the scenario [(0,1,A), (1.3,2,A), (5,6,A)]
    gives [(0,2,A), (5,6,A)], in binary64 and in exact arithmetic. *)
Theorem merge_close_numbers_coalesces_runs :
  (forall (F : Type) (N : PyNum F) (x : segment F) (rest : list (segment F))
          (threshold : F),
      merge_close_numbers (x :: rest) threshold
        = Ok (coalesce <$> runs threshold x rest)
      /\ concat (run_records <$> runs threshold x rest) = x :: rest
      /\ Forall (fun r => adjacent (fun a b => close threshold a b = true)
                                   (run_records r))
                (runs threshold x rest)
      /\ adjacent (fun r1 r2 => close threshold (run_last r1) r2.1 = false)
                  (runs threshold x rest)
      /\ (forall r : segment F, coalesce (r, []) = r)
      /\ (forall (a b : segment F) (tl : list (segment F)),
             coalesce (a, tl ++ [b]) = Seg (start_time a) (end_time b) (speaker a))
      /\ merge_close_numbers (x :: rest) threshold
           = Ok (merge_from threshold x rest))
  /\ merge_close_numbers scenario_float half
       = Ok [Seg 0.0%float 2.0%float "A"; Seg 5.0%float 6.0%float "A"]
  /\ merge_close_numbers scenario_Q half
       = Ok [Seg 0%Q 2%Q "A"; Seg 5%Q 6%Q "A"].
Proof.
  split; [|split; reflexivity].
  intros F N x rest threshold. split_and!.
  - by rewrite merge_close_numbers_cons, merge_from_runs.
  - apply runs_concat.
  - apply runs_inside.
  - apply runs_between.
  - by intros [].
  - intros a b tl. unfold coalesce, run_last. cbn [fst snd]. by rewrite last_last.
  - apply merge_close_numbers_cons.
Qed.

(** C9. On the empty list [merge_close_numbers] raises at [l[0]]: the
    failure the specification calls EmptyInputError is Python's
    [IndexError].  Nothing in the function catches it, so whatever the
    caller does next is skipped and the caller fails with it. *)
Theorem merge_close_numbers_empty_input :
  forall (F : Type) (N : PyNum F) (threshold : F),
    merge_close_numbers (F:=F) [] threshold = Raise IndexError
    /\ EmptyInputError IndexError
    /\ (forall h : store F, merge_close_numbers_refs h [] threshold = Raise IndexError)
    /\ (forall (B : Type) (k : list (segment F) -> outcome B),
           (merge_close_numbers [] threshold ≫= k) = Raise IndexError)
    /\ merge_groups (F:=F) [("A", [])] = Raise IndexError.
Proof. intros F N threshold. by split_and!. Qed.

Section MergerLabels.
Context `{PyNum F}.
Implicit Types (x y : segment F) (rest l : list (segment F)).

(** The greedy merge reads the labels nowhere: two inputs with the same
    time fields are cut and extended alike. *)
Lemma merge_from_times threshold rest :
  forall rest' x x',
    times x = times x' ->
    times <$> rest = times <$> rest' ->
    times <$> merge_from threshold x rest = times <$> merge_from threshold x' rest'.
Proof.
  induction rest as [|i rest IH]; intros rest' x x' Hx Hr.
  - destruct rest'; [|done]. csimpl. by rewrite Hx.
  - destruct rest' as [|i' rest']; [done|]. csimpl in Hr.
    injection Hr as His Hie Hr. cbn [merge_from].
    unfold times in Hx. injection Hx as Hxs Hxe.
    rewrite His, Hxe. destruct (ltb _ _).
    + apply IH; [|done]. unfold times. cbn. by rewrite Hxs, Hie.
    + csimpl. f_equal; [unfold times; by rewrite Hxs, Hxe|].
      apply IH; [|done]. unfold times. by rewrite His, Hie.
Qed.

Lemma merge_from_first threshold rest :
  forall x, Forall2 (fun o r => start_time o = start_time r.1 /\ speaker o = speaker r.1)
                    (merge_from threshold x rest) (runs threshold x rest).
Proof.
  intros x. rewrite merge_from_runs. apply Forall2_fmap_l, Forall_Forall2_diag.
  by apply Forall_forall.
Qed.

Lemma merge_from_head threshold rest :
  forall x, exists o tl,
    merge_from threshold x rest = o :: tl /\ start_time o = start_time x
    /\ speaker o = speaker x.
Proof.
  induction rest as [|i rest IH]; intros x; [by eexists _, _|].
  cbn [merge_from]. destruct (ltb _ _); [|by eexists _, _].
  destruct (IH (set_end_time x (end_time i))) as (o & tl & -> & ? & ?).
  by eexists _, _.
Qed.

Lemma merge_from_last threshold rest :
  forall x, exists o,
    list.last (merge_from threshold x rest) = Some o
    /\ end_time o = end_time (List.last rest x).
Proof.
  induction rest as [|i rest IH]; intros x; [by eexists|].
  cbn [merge_from]. rewrite last_cons_default. destruct (ltb _ _).
  - destruct (IH (set_end_time x (end_time i))) as (o & -> & E).
    exists o. split; [done|]. rewrite E.
    destruct rest; [done|]. by rewrite !last_cons_default.
  - destruct (IH i) as (o & Ho & E). exists o. split; [|done].
    destruct (merge_from_head threshold rest i) as (o' & tl & R & _).
    rewrite R in *. by rewrite last_cons, Ho.
Qed.

(** Every start (end) of the output is the start (end) of an input record. *)
Lemma merge_from_fields threshold rest :
  forall x o, o ∈ merge_from threshold x rest ->
    start_time o ∈ start_time <$> (x :: rest)
    /\ end_time o ∈ end_time <$> (x :: rest).
Proof.
  induction rest as [|i rest IH]; intros x o Ho.
  - apply list_elem_of_singleton in Ho as ->. csimpl. split; apply list_elem_of_here.
  - cbn [merge_from] in Ho. destruct (ltb _ _).
    + apply IH in Ho as [Hs He]. csimpl in *. split.
      * apply elem_of_cons in Hs as [->|Hs]; [left|right; by right].
      * by right.
    + apply elem_of_cons in Ho as [->|Ho].
      * csimpl. split; apply list_elem_of_here.
      * apply IH in Ho as [Hs He]. csimpl in *. split; by right.
Qed.
End MergerLabels.

(** C10. The merger decides on the time fields alone.  Two inputs with
    the same times and any labels are merged into outputs with the same
    times; a record whose gap to its predecessor is below the threshold is
    absorbed whatever the two labels are, and the merged record keeps the
    first label (in binary64, [(0,1,A), (1.3,2,B)] gives [(0,2,A)]); every
    output record has the start and the label of the first record of its
    run. *)
Theorem merge_close_numbers_ignores_labels :
  forall (F : Type) (N : PyNum F) (x : segment F) (rest : list (segment F))
         (threshold : F),
    (forall l' : list (segment F),
        times <$> l' = times <$> (x :: rest) ->
        exists out out',
          merge_close_numbers (x :: rest) threshold = Ok out
          /\ merge_close_numbers l' threshold = Ok out'
          /\ times <$> out' = times <$> out)
    /\ (forall a b : segment F,
           close threshold a b = true ->
           merge_close_numbers [a; b] threshold
             = Ok [Seg (start_time a) (end_time b) (speaker a)])
    /\ (exists out,
           merge_close_numbers (x :: rest) threshold = Ok out
           /\ Forall2 (fun o r => start_time o = start_time r.1
                                  /\ speaker o = speaker r.1)
                      out (runs threshold x rest)
           /\ concat (run_records <$> runs threshold x rest) = x :: rest)
    /\ merge_close_numbers mixed_labels_float half = Ok [Seg 0.0%float 2.0%float "A"].
Proof.
  intros F N x rest threshold. split_and!.
  - intros [|x' rest'] Hl; [done|]. csimpl in Hl. injection Hl as Hs He Hr.
    eexists _, _. rewrite !merge_close_numbers_cons. split_and!; [done..|].
    apply merge_from_times; [|done]. unfold times. by rewrite Hs, He.
  - intros a b Hab. rewrite merge_close_numbers_cons. cbn [merge_from].
    unfold close in Hab. by rewrite Hab.
  - eexists. rewrite merge_close_numbers_cons. split_and!; [done| |].
    + apply merge_from_first.
    + apply runs_concat.
  - reflexivity.
Qed.

Lemma merge_close_numbers_ignores_labels_witness :
  (exists out out',
      merge_close_numbers scenario_Q half = Ok out
      /\ merge_close_numbers
           [Seg 0%Q 1%Q "X"; Seg (13 # 10)%Q 2%Q "Y"; Seg 5%Q 6%Q "Z"] half = Ok out'
      /\ times <$> out' = times <$> out)
  /\ merge_close_numbers [Seg 0%Q 1%Q "A"; Seg (13 # 10)%Q 2%Q "B"] half
       = Ok [Seg 0%Q 2%Q "A"].
Proof.
  destruct (merge_close_numbers_ignores_labels Q _
              (Seg 0%Q 1%Q "A") [Seg (13 # 10)%Q 2%Q "A"; Seg 5%Q 6%Q "A"] half)
    as (H1 & H2 & _).
  split.
  - apply H1. reflexivity.
  - apply (H2 (Seg 0%Q 1%Q "A") (Seg (13 # 10)%Q 2%Q "B")). reflexivity.
Defined.

(** *** Spans, over the rationals *)

Lemma py_max_Q (a b : Q) :
  (a <= py_max a b)%Q /\ (b <= py_max a b)%Q /\ (py_max a b = a \/ py_max a b = b).
Proof.
  unfold py_max. cbn [ltb Q_PyNum]. destruct (Qltb a b) eqn:E.
  - apply Qltb_lt in E. cbv iota. split_and!; [lra|lra|by right].
  - apply Qltb_ge in E. cbv iota. split_and!; [lra|lra|by left].
Qed.

Lemma py_min_Q (a b : Q) :
  (py_min a b <= a)%Q /\ (py_min a b <= b)%Q /\ (py_min a b = a \/ py_min a b = b).
Proof.
  unfold py_min. cbn [ltb Q_PyNum]. destruct (Qltb b a) eqn:E.
  - apply Qltb_lt in E. cbv iota. split_and!; [lra|lra|by right].
  - apply Qltb_ge in E. cbv iota. split_and!; [lra|lra|by left].
Qed.

Lemma fold_max_Q (l : list Q) :
  forall a : Q,
    (a <= fold_left py_max l a)%Q
    /\ (forall e, e ∈ l -> (e <= fold_left py_max l a)%Q)
    /\ fold_left py_max l a ∈ a :: l.
Proof.
  induction l as [|e l IH]; intros a.
  - cbn [fold_left]. split_and!; [lra| |left]. intros e He. by apply elem_of_nil in He.
  - cbn [fold_left]. destruct (IH (py_max a e)) as (Ha & Hl & Hin).
    destruct (py_max_Q a e) as (M1 & M2 & M3). split_and!.
    + lra.
    + intros e' He'. apply elem_of_cons in He' as [->|He']; [lra|by apply Hl].
    + apply elem_of_cons in Hin as [->|Hin].
      * destruct M3 as [->| ->]; [left|right; left].
      * right. by right.
Qed.

Lemma fold_min_Q (l : list Q) :
  forall a : Q,
    (fold_left py_min l a <= a)%Q
    /\ (forall e, e ∈ l -> (fold_left py_min l a <= e)%Q)
    /\ fold_left py_min l a ∈ a :: l.
Proof.
  induction l as [|e l IH]; intros a.
  - cbn [fold_left]. split_and!; [lra| |left]. intros e He. by apply elem_of_nil in He.
  - cbn [fold_left]. destruct (IH (py_min a e)) as (Ha & Hl & Hin).
    destruct (py_min_Q a e) as (M1 & M2 & M3). split_and!.
    + lra.
    + intros e' He'. apply elem_of_cons in He' as [->|He']; [lra|by apply Hl].
    + apply elem_of_cons in Hin as [->|Hin].
      * destruct M3 as [->| ->]; [left|right; left].
      * right. by right.
Qed.

Lemma max_end_Q (x : segment Q) (rest : list (segment Q)) :
  (forall r, r ∈ x :: rest -> (end_time r <= max_end x rest)%Q)
  /\ max_end x rest ∈ end_time <$> (x :: rest).
Proof.
  unfold max_end. destruct (fold_max_Q (end_time <$> rest) (end_time x)) as (Ha & Hl & Hin).
  split; [|done]. intros r Hr. apply elem_of_cons in Hr as [->|Hr]; [done|].
  apply Hl. apply list_elem_of_fmap. by exists r.
Qed.

Lemma min_start_Q (x : segment Q) (rest : list (segment Q)) :
  (forall r, r ∈ x :: rest -> (min_start x rest <= start_time r)%Q)
  /\ min_start x rest ∈ start_time <$> (x :: rest).
Proof.
  unfold min_start.
  destruct (fold_min_Q (start_time <$> rest) (start_time x)) as (Ha & Hl & Hin).
  split; [|done]. intros r Hr. apply elem_of_cons in Hr as [->|Hr]; [done|].
  apply Hl. apply list_elem_of_fmap. by exists r.
Qed.

(** In a list ordered by start no record starts before the first one. *)
Lemma ordered_first (x : segment Q) (rest : list (segment Q)) :
  adjacent (fun a b => (start_time a <= start_time b)%Q) (x :: rest) ->
  forall r, r ∈ x :: rest -> (start_time x <= start_time r)%Q.
Proof.
  revert x. induction rest as [|y rest IH]; intros x Hadj r Hr.
  - apply list_elem_of_singleton in Hr as ->. lra.
  - destruct Hadj as [Hxy Hadj]. apply elem_of_cons in Hr as [->|Hr]; [lra|].
    specialize (IH y Hadj r Hr). lra.
Qed.

(** C4, as stated, fails: the input [(0,10,A), (1,2,A)] is ordered by
    start, its second record starts before the first one ends, so the
    two are coalesced into (0,2,A): the end 10 is overwritten by 2 and
    the span drops from 10 to 2. *)
Lemma merge_span_not_preserved :
  adjacent (fun a b => (start_time a <= start_time b)%Q) span_input_Q
  /\ merge_close_numbers span_input_Q half = Ok [Seg 0%Q 2%Q "A"]
  /\ total_span span_input_Q = Some (10 - 0)%Q
  /\ total_span [Seg 0%Q 2%Q "A"] = Some (2 - 0)%Q
  /\ ~ (2 - 0 == 10 - 0)%Q
  /\ merge_close_numbers span_input_float half = Ok [Seg 0.0%float 2.0%float "A"]
  /\ total_span span_input_float = Some 10.0%float
  /\ total_span [Seg 0.0%float 2.0%float "A"] = Some 2.0%float.
Proof.
  split_and!; try reflexivity.
  - cbn. split; [|done]. lra.
  - intros E. lra.
Qed.

(** C4, amended.  For every non-empty input the merged output has at most
    as many records as the input and its total span is at most the span of
    the input; the two spans are equal when the input is ordered by start
    and no record ends later than the last one. *)
Theorem merge_span_and_count :
  forall (x : segment Q) (rest : list (segment Q)) (threshold : Q),
  exists (out : list (segment Q)) (span_in span_out : Q),
    merge_close_numbers (x :: rest) threshold = Ok out
    /\ length out <= length (x :: rest)
    /\ total_span (x :: rest) = Some span_in
    /\ total_span out = Some span_out
    /\ (span_out <= span_in)%Q
    /\ (adjacent (fun a b => (start_time a <= start_time b)%Q) (x :: rest) ->
        (forall r, r ∈ x :: rest -> (end_time r <= end_time (List.last rest x))%Q) ->
        (span_out == span_in)%Q).
Proof.
  intros x rest threshold. rewrite merge_close_numbers_cons.
  destruct (merge_from_head threshold rest x) as (o & tl & R & Ho & _).
  destruct (merge_from_last threshold rest x) as (ol & Hol & Eol).
  pose proof (merge_from_fields threshold rest x) as Hf.
  pose proof (merge_from_length threshold rest x) as Hlen.
  rewrite R in *.
  exists (o :: tl), (max_end x rest - min_start x rest)%Q,
         (max_end o tl - min_start o tl)%Q.
  destruct (max_end_Q x rest) as (Mi & Mi').
  destruct (min_start_Q x rest) as (Si & Si').
  destruct (max_end_Q o tl) as (Mo & Mo').
  destruct (min_start_Q o tl) as (So & So').
  assert (Hmax : (max_end o tl <= max_end x rest)%Q).
  { apply list_elem_of_fmap in Mo' as (r & -> & Hr).
    destruct (Hf r Hr) as [_ He]. apply list_elem_of_fmap in He as (r' & -> & Hr').
    by apply Mi. }
  assert (Hmin : (min_start x rest <= min_start o tl)%Q).
  { apply list_elem_of_fmap in So' as (r & -> & Hr).
    destruct (Hf r Hr) as [Hs _]. apply list_elem_of_fmap in Hs as (r' & -> & Hr').
    by apply Si. }
  split_and!; [done|done|done|done|lra|].
  intros Hord Hend.
  assert (Hol' : ol ∈ o :: tl).
  { apply list_elem_of_lookup. exists (Nat.pred (length (o :: tl))).
    by rewrite <- last_lookup. }
  assert (E1 : (max_end x rest <= end_time (List.last rest x))%Q).
  { apply list_elem_of_fmap in Mi' as (r & -> & Hr). by apply Hend. }
  assert (E2 : (end_time ol <= max_end o tl)%Q) by by apply Mo.
  assert (E3 : (start_time x <= min_start x rest)%Q).
  { apply list_elem_of_fmap in Si' as (r & -> & Hr). exact (ordered_first x rest Hord r Hr). }
  assert (E4 : (min_start o tl <= start_time o)%Q) by (apply So; left).
  rewrite Eol in E2. rewrite Ho in E4. lra.
Qed.

Lemma merge_span_and_count_witness :
  exists (out : list (segment Q)) (span_in span_out : Q),
    merge_close_numbers scenario_Q half = Ok out
    /\ total_span scenario_Q = Some span_in
    /\ total_span out = Some span_out
    /\ (span_out == span_in)%Q.
Proof.
  destruct (merge_span_and_count
              (Seg 0%Q 1%Q "A") [Seg (13 # 10)%Q 2%Q "A"; Seg 5%Q 6%Q "A"] half)
    as (out & si & so & H1 & _ & H3 & H4 & _ & H6).
  exists out, si, so. split_and!; [exact H1|exact H3|exact H4|].
  apply H6.
  - cbn. split_and!; [lra|lra|done].
  - intros r Hr. cbn.
    repeat (apply elem_of_cons in Hr as [->|Hr]; [cbn; lra|]).
    by apply elem_of_nil in Hr.
Defined.

(** ** The Overlap Analyzer *)

Section OverlapFacts.
Context `{PyNum F}.
Implicit Types (info : list (speaker_tuple F)) (os : list (F * F)).

Lemma qualifying_short info : length info <= 1 -> qualifying info = [].
Proof. destruct info as [|a [|b info]]; cbn; [done|done|lia]. Qed.

Lemma qualifying_cons2 a b info :
  qualifying (a :: b :: info)
  = match pair_overlap a b with
    | Some o => o :: qualifying (b :: info)
    | None => qualifying (b :: info)
    end.
Proof. done. Qed.

Lemma overlap_iteration_pair info (acc : list (F * F)) (k : nat) a b :
  info !! k = Some a ->
  info !! (k + 1) = Some b ->
  overlap_iteration info acc k
  = Ok (match pair_overlap a b with
        | Some o => acc ++ [o]
        | None => acc
        end).
Proof.
  intros Ha Hb. unfold overlap_iteration, index. rewrite Ha, Hb.
  destruct a as [[start_i duration_i] sp_i], b as [[start_j duration_j] sp_j].
  csimpl. unfold pair_overlap. cbn [fst snd]. by destruct (ltb _ _).
Qed.

(** The loop over the indices visits the consecutive pairs. *)
Lemma collect_overlaps_from info :
  forall (n k : nat) (acc : list (F * F)),
    k + n = length info - 1 ->
    for_each (overlap_iteration info) (seq k n) acc
    = Ok (acc ++ qualifying (drop k info)).
Proof.
  induction n as [|n IH]; intros k acc Hk.
  - cbn [seq for_each]. rewrite qualifying_short, app_nil_r; [done|].
    rewrite length_drop. lia.
  - cbn [seq for_each].
    destruct (lookup_lt_is_Some_2 info k) as [a Ha]; [lia|].
    destruct (lookup_lt_is_Some_2 info (k + 1)) as [b Hb]; [lia|].
    rewrite (drop_S _ _ _ Ha). replace (S k) with (k + 1) by lia.
    rewrite (drop_S _ _ _ Hb), qualifying_cons2, <- (drop_S _ _ _ Hb).
    rewrite (overlap_iteration_pair _ _ _ _ _ Ha Hb). csimpl.
    replace (S k) with (k + 1) by lia.
    destruct (pair_overlap a b).
    + rewrite IH by lia. by rewrite <- app_assoc.
    + by rewrite IH by lia.
Qed.

Lemma collect_overlaps_qualifying info :
  collect_overlaps info = Ok (qualifying info).
Proof.
  unfold collect_overlaps. by rewrite collect_overlaps_from by lia.
Qed.

(** The second loop attributes one duration per interval. *)
Lemma attribute_loop os :
  forall (last_end : F) (overlaps : list F),
    fold_left attribute_iteration os (last_end, overlaps)
    = (List.last (snd <$> os) last_end, overlaps ++ attributed last_end os).
Proof.
  induction os as [|[s e] os IH]; intros last_end overlaps.
  - by rewrite app_nil_r.
  - rewrite fmap_cons, last_cons_default.
    cbn [fold_left attribute_iteration attributed snd].
    destruct (leb s last_end); rewrite IH, <- app_assoc; done.
Qed.

Lemma overlap_duration_unfold info :
  overlap_duration info
  = match qualifying info with
    | [] => Ok (zero, zero)
    | os =>
        let total := py_sum (attributed zero os) in
        match div total (final_last_end os) with
        | Some relative => Ok (total, relative)
        | None => Raise ZeroDivisionError
        end
    end.
Proof.
  unfold overlap_duration. rewrite collect_overlaps_qualifying. csimpl.
  rewrite attribute_loop. cbn [app].
  destruct (qualifying info) as [|[s e] os]; [done|].
  cbn [attributed]. done.
Qed.
End OverlapFacts.

(** C2. For every list of parsed tuples (start, duration, label), with
    end = start + duration, the analyser collects for each consecutive pair
    the interval [max of the starts, min of the ends] when its start is
    strictly below its end; starting from last_end = 0 it attributes to
    each interval (s, e), in order, e - last_end if s <= last_end and
    e - s otherwise, and moves last_end to e; the total is the sum of the
    attributed durations and the relative overlap is the total divided by
    the final last_end (a division by a zero last_end raises Python's
    ZeroDivisionError), or 0 when no interval qualifies.  The segments
    (0,2,A), (1,3,B), (4,5,C) give total 1 and relative overlap 0.5. *)
Theorem overlap_duration_accounting :
  (forall (F : Type) (N : PyNum F) (info : list (speaker_tuple F)),
      collect_overlaps info = Ok (qualifying info)
      /\ (forall (a b : speaker_tuple F) (rest : list (speaker_tuple F)),
             qualifying (a :: b :: rest)
             = (let s := py_max a.1.1 b.1.1 in
                let e := py_min (add a.1.1 a.1.2) (add b.1.1 b.1.2) in
                if ltb s e then (s, e) :: qualifying (b :: rest)
                else qualifying (b :: rest)))
      /\ fold_left attribute_iteration (qualifying info) (zero, [])
         = (final_last_end (qualifying info), attributed zero (qualifying info))
      /\ overlap_duration info
         = match qualifying info with
           | [] => Ok (zero, zero)
           | os =>
               let total := py_sum (attributed zero os) in
               match div total (final_last_end os) with
               | Some relative => Ok (total, relative)
               | None => Raise ZeroDivisionError
               end
           end)
  /\ segment_of_tuple <$> overlap_scenario_float
     = [Seg 0.0%float 2.0%float "A"; Seg 1.0%float 3.0%float "B"; Seg 4.0%float 5.0%float "C"]
  /\ overlap_duration overlap_scenario_float = Ok (1.0%float, 0.5%float)
  /\ overlap_duration overlap_scenario_Q = Ok (1%Q, (1 # 2)%Q).
Proof.
  split; [|split_and!; reflexivity].
  intros F N info. split_and!.
  - apply collect_overlaps_qualifying.
  - intros a b rest. rewrite qualifying_cons2. unfold pair_overlap. cbn zeta.
    by destruct (ltb _ _).
  - by rewrite attribute_loop.
  - apply overlap_duration_unfold.
Qed.

(** *** Bounds, over the rationals *)

Lemma rising_weaken (lo lo' : Q) (os : list (Q * Q)) :
  (lo' <= lo)%Q -> rising lo os -> rising lo' os.
Proof.
  destruct os as [|[s e] os]; [done|]. cbn. intros Hlo (H1 & H2 & H3).
  split_and!; [lra|done|done].
Qed.

(** For an input ordered by start the qualifying intervals rise. *)
Lemma qualifying_rising (info : list (speaker_tuple Q)) :
  forall t rest,
    info = t :: rest ->
    adjacent (fun a b : speaker_tuple Q => (a.1.1 <= b.1.1)%Q) info ->
    rising t.1.1 (qualifying info).
Proof.
  induction info as [|a info IH]; intros t rest E Hadj; [done|].
  injection E as <- <-. destruct info as [|b info]; [done|].
  destruct Hadj as [Hab Hadj]. rewrite qualifying_cons2.
  specialize (IH b info eq_refl Hadj).
  unfold pair_overlap. cbn zeta.
  destruct (py_max_Q a.1.1 b.1.1) as (M1 & M2 & M3).
  destruct (ltb _ _) eqn:E.
  - cbn [rising]. apply Qltb_lt in E. split_and!; [done|done|].
    eapply rising_weaken; [|exact IH]. destruct M3 as [-> | ->]; lra.
  - eapply rising_weaken; [|exact IH]. done.
Qed.

(** The accounting invariant: the running total lies between 0 and
    [last_end], and what [last_end] exceeds it by is at most the lower
    bound of the next start. *)
Lemma attributed_bounds (os : list (Q * Q)) :
  forall lo last_end total : Q,
    rising lo os ->
    (0 <= lo)%Q -> (0 <= total)%Q -> (total <= last_end)%Q ->
    (last_end - total <= lo)%Q ->
    (0 <= fold_left add (attributed last_end os) total)%Q
    /\ (fold_left add (attributed last_end os) total
        <= List.last (snd <$> os) last_end)%Q
    /\ (os <> [] -> (0 < List.last (snd <$> os) last_end)%Q).
Proof.
  induction os as [|[s e] os IH]; intros lo last_end total Hr Hlo H0 H1 H2.
  - cbn. split_and!; [done|done|]. by intros [].
  - destruct Hr as (Hs & Hse & Hr).
    rewrite fmap_cons, last_cons_default. cbn [attributed fold_left snd].
    cbn [leb add sub Q_PyNum].
    assert (Hstep : (0 <= total + (if Qle_bool s last_end then e - last_end else e - s))%Q
                    /\ (total + (if Qle_bool s last_end then e - last_end else e - s) <= e)%Q
                    /\ (e - (total + (if Qle_bool s last_end then e - last_end else e - s)) <= s)%Q).
    { destruct (Qle_bool s last_end) eqn:E.
      - apply Qle_bool_iff in E. split_and!; lra.
      - assert (last_end < s)%Q.
        { apply Qnot_le_lt. intros L. apply Qle_bool_iff in L. congruence. }
        split_and!; lra. }
    destruct Hstep as (S0 & S1 & S2).
    destruct (IH s e (total + (if Qle_bool s last_end then e - last_end else e - s))%Q Hr)
      as (I0 & I1 & I2); [lra|done|done|done|].
    split_and!; [done|done|]. intros _.
    destruct os as [|o os]; [cbn; lra|]. by apply I2.
Qed.

(** C6, as stated, fails without an ordering precondition: for the
    segments (5,10,A), (0,10,B), (0,1,C) the intervals (5,10) and (0,1)
    qualify; the first is a fresh run of 5, the second starts before
    last_end = 10 and is attributed 1 - 10 = -9.  The total is -4 and,
    with the final last_end = 1 > 0, the relative overlap is -4. *)
Lemma overlap_negative_when_unsorted :
  qualifying unsorted_float = [(5.0%float, 10.0%float); (0.0%float, 1.0%float)]
  /\ overlap_duration unsorted_float = Ok ((-4.0)%float, (-4.0)%float)
  /\ PrimFloat.ltb (-4.0)%float 0.0%float = true
  /\ PrimFloat.ltb 0.0%float (final_last_end (qualifying unsorted_float)) = true
  /\ overlap_duration unsorted_Q = Ok ((-4)%Q, (-4)%Q)
  /\ (0 < final_last_end (qualifying unsorted_Q))%Q
  /\ ~ (0 <= -4)%Q.
Proof.
  split_and!; try reflexivity. intros L. lra.
Qed.

(** *** Returning a result, for every number model *)

Section Returns.
Context `{PyNum F}.

(** The qualifying intervals of segments that do not start below 0
    start at such a number and are not empty. *)
Lemma qualifying_above (info : list (speaker_tuple F)) :
  (forall t, t ∈ info -> ltb t.1.1 zero = false) ->
  Forall (fun o : F * F => ltb o.1 zero = false /\ ltb o.1 o.2 = true)
         (qualifying info).
Proof.
  induction info as [|a info IH]; intros Hpos; [constructor|].
  destruct info as [|b info]; [constructor|]. rewrite qualifying_cons2.
  assert (IH' := IH (fun t Ht => Hpos t (list_elem_of_further _ _ _ Ht))).
  unfold pair_overlap. cbn zeta.
  destruct (ltb (py_max a.1.1 b.1.1) _) eqn:E; [|done].
  constructor; [|done]. cbn [fst snd]. split; [|done].
  unfold py_max. destruct (ltb a.1.1 b.1.1); apply Hpos; [right|]; by left.
Qed.

(** With no start below 0 the division by [last_end] is defined. *)
Lemma overlap_duration_returns (info : list (speaker_tuple F)) :
  positive_divisors F ->
  (forall t, t ∈ info -> ltb t.1.1 zero = false) ->
  exists total relative : F, overlap_duration info = Ok (total, relative).
Proof.
  intros Hdiv Hpos. pose proof (qualifying_above info Hpos) as Hq.
  rewrite overlap_duration_unfold.
  destruct (qualifying info) as [|o os] eqn:Eq; [by eexists _, _|].
  cbn zeta.
  assert (Hlast : exists s, ltb s (final_last_end (o :: os)) = true
                            /\ ltb s zero = false).
  { unfold final_last_end. clear Eq. revert o Hq.
    induction os as [|o' os IH]; intros o Hq.
    - apply list.Forall_cons in Hq as [[H0 Hse] _]. by exists o.1.
    - apply list.Forall_cons in Hq as [_ Hq].
      rewrite fmap_cons, last_cons_default.
      destruct (IH o' Hq) as (s & Hs & H0). exists s. split; [|done].
      rewrite fmap_cons, last_cons_default in Hs.
      by rewrite fmap_cons, last_cons_default. }
  destruct Hlast as (s & Hs & H0).
  destruct (Hdiv (py_sum (attributed zero (o :: os))) s _ Hs H0) as [q ->].
  by eexists _, _.
Qed.
End Returns.

(** C6, amended.  For every input ordered by start whose start times are
    not below 0, the analyser returns a result, in binary64 as in exact
    arithmetic: it does not divide by zero.  In exact arithmetic the total
    overlap is then at least 0 and the relative overlap lies in [0, 1].
    In binary64 the two bounds give way to rounding: such inputs yield the
    relative overlap 1.0000000000000002 and the total
    -0.09999999999999998. *)
Theorem overlap_result_when_sorted :
  (forall info : list (speaker_tuple float),
      adjacent (fun a b : speaker_tuple float => PrimFloat.ltb b.1.1 a.1.1 = false) info ->
      (forall t, t ∈ info -> PrimFloat.ltb t.1.1 0 = false) ->
      exists total relative : float, overlap_duration info = Ok (total, relative))
  /\ (forall info : list (speaker_tuple Q),
         adjacent (fun a b : speaker_tuple Q => (a.1.1 <= b.1.1)%Q) info ->
         (forall t, t ∈ info -> (0 <= t.1.1)%Q) ->
         exists total relative : Q,
           overlap_duration info = Ok (total, relative)
           /\ (0 <= total)%Q /\ (0 <= relative)%Q /\ (relative <= 1)%Q)
  /\ (adjacent (fun a b : speaker_tuple float => PrimFloat.ltb b.1.1 a.1.1 = false)
               rounded_above_float
      /\ Forall (fun t : speaker_tuple float => PrimFloat.ltb t.1.1 0 = false)
                rounded_above_float
      /\ overlap_duration rounded_above_float
         = Ok (0.30000000000000004%float, 1.0000000000000002%float)
      /\ PrimFloat.ltb 1 1.0000000000000002 = true
      /\ exists total relative : Q,
           overlap_duration rounded_above_Q = Ok (total, relative)
           /\ (total == 3 # 10)%Q /\ (relative == 1)%Q)
  /\ (adjacent (fun a b : speaker_tuple float => PrimFloat.ltb b.1.1 a.1.1 = false)
               rounded_below_float
      /\ Forall (fun t : speaker_tuple float => PrimFloat.ltb t.1.1 0 = false)
                rounded_below_float
      /\ overlap_duration rounded_below_float
         = Ok ((-0.09999999999999998)%float, (-0.11111111111111108)%float)
      /\ PrimFloat.ltb (-0.09999999999999998) 0 = true).
Proof.
  split; [|split; [|split]].
  - intros info _ Hpos.
    apply overlap_duration_returns; [apply float_positive_divisors|exact Hpos].
  - intros info Hord Hpos. rewrite overlap_duration_unfold.
    destruct info as [|t rest]; [exists 0%Q, 0%Q; cbn; split_and!; [done|lra..]|].
    pose proof (qualifying_rising _ t rest eq_refl Hord) as Hr.
    assert (H0 : (0 <= t.1.1)%Q) by (apply Hpos; left).
    destruct (qualifying (t :: rest)) as [|o os] eqn:Eq.
    { exists 0%Q, 0%Q. cbn. split_and!; [done|lra..]. }
    destruct (attributed_bounds (o :: os) t.1.1 0%Q 0%Q Hr) as (B0 & B1 & B2);
      [done|lra|lra|lra|].
    specialize (B2 ltac:(done)).
    unfold py_sum, final_last_end. cbn zeta. cbn [zero div Q_PyNum].
    set (total := fold_left add (attributed 0%Q (o :: os)) 0%Q) in *.
    set (last_end := List.last (snd <$> o :: os) 0%Q) in *.
    destruct (Qeq_bool last_end 0) eqn:Ez.
    { apply Qeq_bool_iff in Ez. lra. }
    exists total, (total / last_end)%Q. split_and!; [done|done| |].
    + apply Qle_shift_div_l; [done|]. lra.
    + apply Qle_shift_div_r; [done|]. lra.
  - split_and!; try reflexivity; try (cbn; split_and!; reflexivity).
    + repeat constructor.
    + eexists _, _. split; [reflexivity|]. split; reflexivity.
  - split_and!; try reflexivity; try (cbn; split_and!; reflexivity).
    repeat constructor.
Qed.

Lemma overlap_result_when_sorted_witness :
  exists total relative : float,
    overlap_duration overlap_scenario_float = Ok (total, relative).
Proof.
  apply (proj1 overlap_result_when_sorted overlap_scenario_float).
  - cbn. split_and!; reflexivity.
  - intros t Ht.
    repeat (apply elem_of_cons in Ht as [->|Ht]; [reflexivity|]).
    by apply elem_of_nil in Ht.
Defined.

(** C5.  The filler-word ratio is computed by an unguarded division: on a
    text without words (empty, or whitespace only) the function raises
    ZeroDivisionError whatever the tagger returns, in every number model,
    where the specification requires 0.  The sibling computation of the
    relative overlap has the guard: with no qualifying overlap it returns
    0. *)
Theorem filler_word_ratio_unguarded :
  (forall (F : Type) (N : PyNum F) (I : PyInt F) (nlp : string -> list string),
      calculate_filler_word_amount (F:=F) nlp EmptyString = Raise ZeroDivisionError)
  /\ (forall (F : Type) (N : PyNum F) (I : PyInt F) (nlp : string -> list string),
         calculate_filler_word_amount (F:=F) nlp (String " " (String LF EmptyString))
         = Raise ZeroDivisionError)
  /\ (forall (F : Type) (N : PyNum F),
         overlap_duration (F:=F) [] = Ok (zero, zero))
  /\ (forall (F : Type) (N : PyNum F) (t : speaker_tuple F),
         overlap_duration [t] = Ok (zero, zero)).
Proof. by split_and!. Qed.

(** ** The RTTM codec: parsing *)

Lemma Forall_not_Exists_absurd {A} (P : A -> Prop) (l : list A) :
  Forall (fun x => ~ P x) l -> Exists P l -> False.
Proof. induction 1 as [|x l Hx _ IH]; inversion 1; subst; auto. Qed.

Section ParseFacts.
Context `{PyNum F} `{PyText F}.

(** A line either parses to its tuple or is malformed and raises. *)
Lemma parse_rttm_line_cases (line : string) :
  (exists t : speaker_tuple F,
      parse_rttm_line line = Ok t /\ line_tuple line t /\ ~ malformed line)
  \/ (exists e, parse_rttm_line (F:=F) line = Raise e
                /\ MalformedRecordError e /\ malformed (F:=F) line).
Proof.
  unfold parse_rttm_line, index, float_of. fold (fields line).
  destruct (fields line !! 3) as [p3|] eqn:E3; csimpl.
  2:{ right. exists IndexError. split_and!; [done|by left|left].
      apply lookup_ge_None in E3. lia. }
  destruct (py_float p3) as [s|] eqn:F3; csimpl.
  2:{ right. exists ValueError. split_and!; [done|by right|right; left]. eauto. }
  destruct (fields line !! 4) as [p4|] eqn:E4; csimpl.
  2:{ right. exists IndexError. split_and!; [done|by left|left].
      apply lookup_ge_None in E4. lia. }
  destruct (py_float p4) as [d|] eqn:F4; csimpl.
  2:{ right. exists ValueError. split_and!; [done|by right|right; right]. eauto. }
  destruct (fields line !! 7) as [p7|] eqn:E7; csimpl.
  2:{ right. exists IndexError. split_and!; [done|by left|left].
      apply lookup_ge_None in E7. lia. }
  left. exists (s, d, p7). split_and!; [done| |].
  - exists p3, p4. by split_and!.
  - intros [L|[(p & Hp & Fp)|(p & Hp & Fp)]].
    + apply lookup_lt_Some in E7. lia.
    + congruence.
    + congruence.
Qed.

Lemma lines_cases (lines : list string) :
  Forall (fun line => ~ malformed (F:=F) line) lines
  \/ Exists (malformed (F:=F)) lines.
Proof.
  induction lines as [|line lines [IH|IH]].
  - by left.
  - destruct (parse_rttm_line_cases line) as [(t & _ & _ & Hw)|(e & _ & _ & Hm)].
    + left. by constructor.
    + right. by constructor.
  - right. by constructor 2.
Qed.

Lemma parse_rttm_lines_from (lines : list string) :
  forall acc : list (speaker_tuple F),
    (Forall (fun line => ~ malformed (F:=F) line) lines ->
     exists recs,
       for_each (fun speaker_info line =>
                   t ← parse_rttm_line line; Ok (speaker_info ++ [t]))
                lines acc = Ok (acc ++ recs)
       /\ Forall2 line_tuple lines recs)
    /\ (Exists (malformed (F:=F)) lines ->
        exists e,
          for_each (fun speaker_info line =>
                      t ← parse_rttm_line line; Ok (speaker_info ++ [t]))
                   lines acc = Raise e
          /\ MalformedRecordError e).
Proof.
  induction lines as [|line lines IH]; intros acc.
  - split.
    + intros _. exists []. by rewrite app_nil_r.
    + intros Hex. by apply Exists_nil in Hex.
  - cbn [for_each].
    destruct (parse_rttm_line_cases line) as [(t & -> & Ht & Hw)|(e & -> & He & Hm)];
      csimpl.
    + destruct (IH (acc ++ [t])) as [IHok IHbad]. split.
      * intros Hall. apply list.Forall_cons in Hall as [_ Hall].
        destruct (IHok Hall) as (recs & -> & Hrecs).
        exists (t :: recs). rewrite <- app_assoc. split; [done|by constructor].
      * intros Hex. apply Exists_cons in Hex as [?|Hex]; [done|]. by apply IHbad.
    + split.
      * intros Hall. by apply list.Forall_cons in Hall as [? _].
      * intros _. by exists e.
Qed.
End ParseFacts.

(** C8.  [parse_rttm_file] fails exactly when some line has fewer than 8
    whitespace-separated fields or a time field (index 3 or 4) that
    [float] rejects; the failure is Python's IndexError or ValueError, the
    two faults the specification calls MalformedRecordError.  When no line
    is malformed it returns one tuple (start, duration, label) per line,
    read from fields 3, 4 and 7, and the segment of a tuple ends at
    start + duration. *)
Theorem parse_rttm_malformed_iff :
  forall (F : Type) (N : PyNum F) (T : PyText F) (lines : list string),
    ((exists e, parse_rttm_lines (F:=F) lines = Raise e)
     <-> Exists (malformed (F:=F)) lines)
    /\ (forall e, parse_rttm_lines (F:=F) lines = Raise e -> MalformedRecordError e)
    /\ (Forall (fun line => ~ malformed (F:=F) line) lines
        <-> exists recs : list (speaker_tuple F),
              parse_rttm_lines lines = Ok recs
              /\ Forall2 line_tuple lines recs)
    /\ (forall t : speaker_tuple F,
           start_time (segment_of_tuple t) = t.1.1
           /\ end_time (segment_of_tuple t) = add t.1.1 t.1.2
           /\ speaker (segment_of_tuple t) = t.2)
    /\ (forall content : string,
           parse_rttm_file (F:=F) content = parse_rttm_lines (readlines content)).
Proof.
  intros F N T lines. unfold parse_rttm_lines.
  destruct (parse_rttm_lines_from lines []) as [Hok Hbad]. cbn [app] in Hok.
  destruct (lines_cases (F:=F) lines) as [Hall|Hex].
  - destruct (Hok Hall) as (recs & E & Hrecs). rewrite E. split_and!.
    + split; [by intros [e ?]|]. intros Hex.
      destruct (Forall_not_Exists_absurd _ _ Hall Hex).
    + done.
    + split; [by exists recs|done].
    + done.
    + done.
  - destruct (Hbad Hex) as (e & E & He). rewrite E. split_and!.
    + split; [done|by exists e].
    + by intros e' [= <-].
    + split; [|by intros (recs & ? & _)]. intros Hall.
      destruct (Forall_not_Exists_absurd _ _ Hall Hex).
    + done.
    + done.
Qed.

Lemma parse_rttm_malformed_iff_witness :
  (exists recs : list (speaker_tuple Q),
      parse_rttm_lines ["SPEAKER f 1 0.00 1.00 <NA> <NA> A <NA> <NA>"] = Ok recs
      /\ Forall2 line_tuple ["SPEAKER f 1 0.00 1.00 <NA> <NA> A <NA> <NA>"] recs)
  /\ Exists (malformed (F:=Q)) ["SPEAKER f 1 0.00 1.00 <NA> <NA>"]
  /\ MalformedRecordError ValueError.
Proof.
  split_and!.
  - apply (parse_rttm_malformed_iff Q _ _
             ["SPEAKER f 1 0.00 1.00 <NA> <NA> A <NA> <NA>"]).
    constructor; [|constructor].
    intros [L|[(p & Hp & Fp)|(p & Hp & Fp)]].
    + vm_compute in L. lia.
    + vm_compute in Hp. injection Hp as <-. vm_compute in Fp. discriminate.
    + vm_compute in Hp. injection Hp as <-. vm_compute in Fp. discriminate.
  - apply (parse_rttm_malformed_iff Q _ _ ["SPEAKER f 1 0.00 1.00 <NA> <NA>"]).
    exists IndexError. reflexivity.
  - apply (parse_rttm_malformed_iff Q _ _ ["SPEAKER f 1 x 1.00 <NA> <NA> A"]).
    reflexivity.
Defined.

(** ** The RTTM codec: strings *)

Section StringFacts.
Implicit Types (s t w : string) (c : ascii) (p q : ascii -> bool).

Lemma append_assoc s t w : ((s ++ t) ++ w = s ++ (t ++ w))%string.
Proof. induction s as [|c s IH]; [done|]. cbn [append]. by rewrite IH. Qed.

Lemma append_nonempty_r s t : t <> EmptyString -> (s ++ t)%string <> EmptyString.
Proof. by destruct s, t. Qed.

Lemma all_chars_app p s t :
  all_chars p (s ++ t)%string = all_chars p s && all_chars p t.
Proof.
  induction s as [|c s IH]; [done|]. cbn [append all_chars]. by rewrite IH, andb_assoc.
Qed.

Lemma all_chars_impl p q s :
  (forall c, p c = true -> q c = true) ->
  all_chars p s = true -> all_chars q s = true.
Proof.
  intros Hpq. induction s as [|c s IH]; [done|]. cbn [all_chars].
  rewrite !andb_true_iff. intros [Hc Hs]. split; [by apply Hpq|by apply IH].
Qed.

(** [strip] leaves a string alone that begins and ends with a character
    that is not whitespace. *)
Lemma rstrip_app_r s t :
  rstrip t = t -> t <> EmptyString -> rstrip (s ++ t) = (s ++ t)%string.
Proof.
  intros Ht Hne. induction s as [|c s IH]; [done|].
  cbn [append rstrip]. rewrite IH. pose proof (append_nonempty_r s t Hne).
  by destruct (s ++ t)%string.
Qed.

Lemma rstrip_no_space s : all_chars not_space s = true -> rstrip s = s.
Proof.
  induction s as [|c s IH]; [done|]. cbn [all_chars rstrip]. rewrite andb_true_iff.
  intros [Hc Hs]. rewrite (IH Hs). unfold not_space in Hc.
  apply negb_true_iff in Hc. rewrite Hc. by destruct s.
Qed.

Lemma strip_no_space s : all_chars not_space s = true -> strip s = s.
Proof.
  intros Hs. unfold strip. destruct s as [|c s]; [done|].
  pose proof Hs as Hs'. cbn in Hs'. apply andb_true_iff in Hs' as [Hc _].
  unfold not_space in Hc. apply negb_true_iff in Hc.
  cbn [lstrip]. rewrite Hc. by apply rstrip_no_space.
Qed.

Lemma split_ws_cons c s :
  split_ws (String c s)
  = if is_space c then split_ws s
    else match s with
         | EmptyString => [String c EmptyString]
         | String c' _ =>
             if is_space c' then String c EmptyString :: split_ws s
             else match split_ws s with
                  | w :: ws => String c w :: ws
                  | [] => [String c EmptyString]
                  end
         end.
Proof. done. Qed.

Lemma token_cons a w :
  token (String a w) ->
  is_space a = false /\ (w = EmptyString \/ token w).
Proof.
  intros [_ Hw]. cbn [all_chars] in Hw. apply andb_true_iff in Hw as [Ha Hw].
  unfold not_space in Ha. apply negb_true_iff in Ha. split; [done|].
  destruct w; [by left|right]. by split.
Qed.

(** [split] peels a token off the front of a line. *)
Lemma split_ws_token w c s :
  token w -> is_space c = true ->
  split_ws (w ++ String c s) = w :: split_ws s.
Proof.
  intros Hw Hc. induction w as [|a w IH]; [by destruct Hw|].
  apply token_cons in Hw as [Ha [->|Hw]].
  - cbn [append]. by rewrite split_ws_cons, Ha, Hc, split_ws_cons, Hc.
  - specialize (IH Hw). destruct w as [|a' w]; [by destruct Hw|].
    apply token_cons in Hw as [Ha' _].
    change (String a (String a' w) ++ String c s)%string
      with (String a (String a' (w ++ String c s))).
    change (String a' w ++ String c s)%string
      with (String a' (w ++ String c s)) in IH.
    rewrite split_ws_cons, Ha. cbv iota. by rewrite Ha', IH.
Qed.

Lemma split_ws_token_end w : token w -> split_ws w = [w].
Proof.
  intros Hw. induction w as [|a w IH]; [by destruct Hw|].
  apply token_cons in Hw as [Ha [->|Hw]].
  - by rewrite split_ws_cons, Ha.
  - specialize (IH Hw). destruct w as [|a' w]; [by destruct Hw|].
    apply token_cons in Hw as [Ha' _].
    rewrite split_ws_cons, Ha. cbv iota. by rewrite Ha', IH.
Qed.

(** Cutting at the first character that satisfies [p]. *)
Lemma cut_at_app p s c t :
  all_chars (fun a => negb (p a)) s = true -> p c = true ->
  cut_at p (s ++ String c t) = (s, Some t).
Proof.
  intros Hs Hc. induction s as [|a s IH]; cbn [append cut_at].
  - by rewrite Hc.
  - cbn in Hs. apply andb_true_iff in Hs as [Ha Hs].
    apply negb_true_iff in Ha. by rewrite Ha, (IH Hs).
Qed.

Lemma cut_at_none p s :
  all_chars (fun a => negb (p a)) s = true -> cut_at p s = (s, None).
Proof.
  intros Hs. induction s as [|a s IH]; [done|]. cbn [cut_at].
  cbn in Hs. apply andb_true_iff in Hs as [Ha Hs].
  apply negb_true_iff in Ha. by rewrite Ha, (IH Hs).
Qed.

(** What a digit or a point is not. *)
Lemma decimal_char_facts c :
  is_decimal_char c = true ->
  not_space c = true /\ is_exp c = false
  /\ Ascii.eqb c "-" = false /\ Ascii.eqb c "+" = false.
Proof.
  destruct c as [[] [] [] [] [] [] [] []]; vm_compute; intros; by split_and!.
Qed.

Lemma digit_facts c :
  is_digit c = true -> is_decimal_char c = true /\ is_dot c = false.
Proof.
  destruct c as [[] [] [] [] [] [] [] []]; vm_compute; intros; by split_and!.
Qed.

Lemma string_of_uint_digits (d : Decimal.uint) :
  all_chars is_digit (NilEmpty.string_of_uint d) = true.
Proof. induction d; cbn; try done; by rewrite IHd. Qed.
End StringFacts.

(** ** The RTTM codec: decimal literals *)

Lemma two_digits_ok (m : N) :
  (m < 100)%N ->
  N.of_uint (two_digits m) = m
  /\ String.length (NilEmpty.string_of_uint (two_digits m)) = 2.
Proof.
  intros Hm.
  assert (Hall : forallb (fun k =>
                   N.eqb (N.of_uint (two_digits k)) k
                   && Nat.eqb (String.length (NilEmpty.string_of_uint (two_digits k))) 2)
                   (List.map N.of_nat (seq 0 100)) = true) by (vm_compute; reflexivity).
  rewrite forallb_forall in Hall. specialize (Hall m).
  rewrite andb_true_iff, N.eqb_eq, Nat.eqb_eq in Hall. apply Hall.
  apply in_map_iff. exists (N.to_nat m). split; [lia|]. apply in_seq. lia.
Qed.

Lemma hundredths_decimal (n : N) :
  all_chars is_decimal_char (hundredths_to_string n) = true
  /\ hundredths_to_string n <> EmptyString.
Proof.
  unfold hundredths_to_string. split.
  - rewrite !all_chars_app, !andb_true_iff. split_and!; [|done|].
    + eapply all_chars_impl; [|apply string_of_uint_digits]. intros c Hc.
      by apply digit_facts.
    + eapply all_chars_impl; [|apply string_of_uint_digits]. intros c Hc.
      by apply digit_facts.
  - by apply append_nonempty_r.
Qed.

Lemma hundredths_token (n : N) : token (hundredths_to_string n).
Proof.
  destruct (hundredths_decimal n) as [Hd Hne]. split; [done|].
  eapply all_chars_impl; [|exact Hd]. intros c Hc. by apply decimal_char_facts.
Qed.

Lemma mantissa_hundredths (n : N) :
  mantissa_value (hundredths_to_string n) = Some (n, 2).
Proof.
  unfold mantissa_value, hundredths_to_string.
  change ("." ++ ?b)%string with (String "."%char b).
  rewrite cut_at_app; [|..|done].
  2:{ eapply all_chars_impl; [|apply string_of_uint_digits]. intros c Hc.
      apply digit_facts in Hc as [_ ->]. done. }
  destruct (two_digits_ok (n mod 100)) as [Hv Hl].
  { apply N.mod_lt. lia. }
  rewrite Hl, !NilEmpty.usu.
  replace (String.length _ + 2 =? 0)%nat with false by (symmetry; apply Nat.eqb_neq; lia).
  csimpl. rewrite DecimalN.Unsigned.of_to, Hv. f_equal. f_equal.
  assert (E := N.div_mod' n 100). lia.
Qed.

Lemma hundredths_value_eq (n : N) : (hundredths_value n * 100 == inject_Z (Z.of_N n))%Q.
Proof.
  unfold hundredths_value.
  change (pow10 (0 - Z.of_nat 2)) with (1 # 100)%Q. field.
Qed.

(** [float] reads a printed magnitude back exactly. *)
Lemma Q_py_float_hundredths (n : N) :
  Q_py_float (hundredths_to_string n) = Some (hundredths_value n).
Proof.
  unfold Q_py_float. destruct (hundredths_decimal n) as [Hd Hne].
  rewrite strip_no_space.
  2:{ eapply all_chars_impl; [|exact Hd]. intros c Hc. by apply decimal_char_facts. }
  assert (Hsign : cut_sign (hundredths_to_string n) = (false, hundredths_to_string n)).
  { destruct (hundredths_to_string n) as [|c s]; [done|].
    cbn [all_chars] in Hd. apply andb_true_iff in Hd as [Hc _].
    apply decimal_char_facts in Hc as (_ & _ & Hm & Hp).
    unfold cut_sign. by rewrite Hm, Hp. }
  rewrite Hsign, cut_at_none.
  2:{ eapply all_chars_impl; [|exact Hd]. intros c Hc.
      apply decimal_char_facts in Hc as (_ & -> & _). done. }
  by rewrite mantissa_hundredths.
Qed.

(** *** Rounding *)

Lemma Qltb_comp (a a' b b' : Q) :
  (a == a')%Q -> (b == b')%Q -> Qltb a b = Qltb a' b'.
Proof.
  intros Ea Eb. destruct (Qltb a b) eqn:E1, (Qltb a' b') eqn:E2; try done.
  - apply Qltb_lt in E1. apply Qltb_ge in E2. lra.
  - apply Qltb_ge in E1. apply Qltb_lt in E2. lra.
Qed.

Lemma round_half_even_comp (x y : Q) :
  (x == y)%Q -> round_half_even x = round_half_even y.
Proof.
  intros E. unfold round_half_even. rewrite (Qfloor_comp _ _ E).
  rewrite (Qltb_comp (x - inject_Z (Qfloor y)) (y - inject_Z (Qfloor y))
             (1 # 2) (1 # 2)) by lra.
  rewrite (Qltb_comp (1 # 2) (1 # 2)
             (x - inject_Z (Qfloor y)) (y - inject_Z (Qfloor y))) by lra.
  done.
Qed.


Lemma round_half_even_nonneg (x : Q) : (0 <= x)%Q -> (0 <= round_half_even x)%Z.
Proof.
  intros Hx. unfold round_half_even.
  assert (0 <= Qfloor x)%Z.
  { change 0%Z with (Qfloor 0). by apply Qfloor_resp_le. }
  repeat match goal with |- context [if ?b then _ else _] => destruct b end; lia.
Qed.

Lemma Q_format_2f_nonneg (x : Q) :
  (0 <= x)%Q ->
  Q_format_2f x = hundredths_to_string (Z.to_N (round_half_even (x * 100))).
Proof.
  intros Hx. unfold Q_format_2f.
  assert (E : Qltb x 0 = false) by by apply Qltb_ge.
  rewrite E. cbn [append]. f_equal. f_equal. apply round_half_even_comp.
  rewrite Qabs_pos by done. lra.
Qed.


Lemma Q_format_2f_token (x : Q) : token (Q_format_2f x).
Proof.
  unfold Q_format_2f. destruct (hundredths_token (Z.to_N (round_half_even (Qabs x * 100))))
    as [Hne Hs].
  destruct (Qltb x 0); cbn [append]; split; try done.
Qed.

(** ** What [:.2f] writes, [float] reads *)

(** Rounding moves a value by at most one half. *)
Lemma round_half_even_close (y : Q) :
  (y - (1 # 2) <= inject_Z (round_half_even y))%Q
  /\ (inject_Z (round_half_even y) <= y + (1 # 2))%Q.
Proof.
  unfold round_half_even. cbv zeta.
  pose proof (Qfloor_le y) as Hlo. pose proof (Qlt_floor y) as Hhi.
  rewrite inject_Z_plus in Hhi. change (inject_Z 1) with 1%Q in Hhi.
  destruct (Qltb (y - inject_Z (Qfloor y)) (1 # 2)) eqn:E1; cbv iota.
  { apply Qltb_lt in E1. lra. }
  apply Qltb_ge in E1.
  destruct (Qltb (1 # 2) (y - inject_Z (Qfloor y))) eqn:E2; cbv iota.
  { rewrite inject_Z_plus. change (inject_Z 1) with 1%Q. lra. }
  apply Qltb_ge in E2.
  destruct (Z.even (Qfloor y)); cbv iota; [lra|].
  rewrite inject_Z_plus. change (inject_Z 1) with 1%Q. lra.
Qed.

(** [float] reads a printed value back, whatever its sign, and finds it
    within half a hundredth of the value printed. *)
Lemma Q_py_float_format_2f (x : Q) :
  exists v : Q,
    Q_py_float (Q_format_2f x) = Some v
    /\ (x - (1 # 200) <= v)%Q /\ (v <= x + (1 # 200))%Q.
Proof.
  set (n := Z.to_N (round_half_even (Qabs x * 100))).
  assert (Hn : inject_Z (Z.of_N n) = inject_Z (round_half_even (Qabs x * 100))).
  { unfold n. rewrite Z2N.id; [done|]. apply round_half_even_nonneg.
    pose proof (Qabs_nonneg x). nra. }
  pose proof (round_half_even_close (Qabs x * 100)) as [Hlo Hhi].
  pose proof (hundredths_value_eq n) as Hv. rewrite Hn in Hv.
  unfold Q_format_2f. fold n. destruct (Qltb x 0) eqn:Ex.
  - apply Qltb_lt in Ex. exists (- hundredths_value n)%Q. split.
    + unfold Q_py_float. destruct (hundredths_decimal n) as [Hd Hne].
      rewrite strip_no_space.
      2:{ cbn [append all_chars]. apply andb_true_iff. split; [done|].
          eapply all_chars_impl; [|exact Hd]. intros c Hc. by apply decimal_char_facts. }
      cbn [append cut_sign]. change (Ascii.eqb "-" "-") with true. cbv iota.
      rewrite cut_at_none.
      2:{ eapply all_chars_impl; [|exact Hd]. intros c Hc.
          apply decimal_char_facts in Hc as (_ & -> & _). done. }
      by rewrite mantissa_hundredths.
    + assert (Ha : (Qabs x == - x)%Q) by (apply Qabs_neg; lra). lra.
  - apply Qltb_ge in Ex. exists (hundredths_value n). cbn [append]. split.
    + apply Q_py_float_hundredths.
    + assert (Ha : (Qabs x == x)%Q) by (apply Qabs_pos; lra). lra.
Qed.

(** *** Binary64 *)

Lemma decimal_char_plain (c : ascii) :
  is_decimal_char c = true ->
  lower_char c = c /\ Ascii.eqb c "i" = false /\ Ascii.eqb c "n" = false
  /\ Ascii.eqb c "_" = false.
Proof. by destruct c as [[] [] [] [] [] [] [] []]. Qed.

Lemma drop_underscores_decimal (w : string) :
  all_chars is_decimal_char w = true ->
  forall after_digit, drop_underscores after_digit w = w.
Proof.
  induction w as [|c w IH]; intros Hw after_digit; [done|].
  cbn [all_chars] in Hw. apply andb_true_iff in Hw as [Hc Hw].
  cbn [drop_underscores]. destruct (decimal_char_plain c Hc) as (_ & _ & _ & ->).
  cbn [andb]. by rewrite IH.
Qed.

(** [float] reads a printed magnitude, with or without a minus sign. *)
Lemma float_py_float_hundredths (neg : bool) (n : N) :
  float_py_float ((if neg then "-" else EmptyString) ++ hundredths_to_string n)
  = Some (nearest_float neg (inject_Z (Z.of_N n) * pow10 (0 - Z.of_nat 2))%Q).
Proof.
  unfold float_py_float. destruct (hundredths_decimal n) as [Hd Hne].
  assert (Hns : all_chars not_space (hundredths_to_string n) = true).
  { eapply all_chars_impl; [|exact Hd]. intros c Hc. by apply decimal_char_facts. }
  assert (Hsign : cut_sign (strip ((if neg then "-" else EmptyString)
                                   ++ hundredths_to_string n))
                  = (neg, hundredths_to_string n)).
  { rewrite strip_no_space by (destruct neg; cbn [append all_chars]; by rewrite ?Hns).
    destruct neg; [done|]. cbn [append].
    destruct (hundredths_to_string n) as [|c s]; [done|].
    cbn [all_chars] in Hd. apply andb_true_iff in Hd as [Hc _].
    apply decimal_char_facts in Hc as (_ & _ & Hm & Hp).
    unfold cut_sign. by rewrite Hm, Hp. }
  rewrite Hsign.
  assert (Hword : String.eqb (lower_ascii (hundredths_to_string n)) "inf"
                  || String.eqb (lower_ascii (hundredths_to_string n)) "infinity" = false
                  /\ String.eqb (lower_ascii (hundredths_to_string n)) "nan" = false).
  { destruct (hundredths_to_string n) as [|c s]; [done|].
    cbn [all_chars] in Hd. apply andb_true_iff in Hd as [Hc _].
    destruct (decimal_char_plain c Hc) as (Hl & Hi & Hn & _).
    cbn [lower_ascii String.eqb]. by rewrite Hl, Hi, Hn. }
  destruct Hword as [-> ->].
  rewrite drop_underscores_decimal by done.
  rewrite cut_at_none.
  2:{ eapply all_chars_impl; [|exact Hd]. intros c Hc.
      apply decimal_char_facts in Hc as (_ & -> & _). done. }
  by rewrite mantissa_hundredths.
Qed.

Lemma float_format_2f_readable (x : float) :
  token (float_format_2f x) /\ is_Some (float_py_float (float_format_2f x)).
Proof.
  unfold float_format_2f.
  destruct (Prim2SF x) as [s|s| |s m e].
  - destruct s; (split; [split; [discriminate|reflexivity]|vm_compute; eauto]).
  - destruct s; (split; [split; [discriminate|reflexivity]|vm_compute; eauto]).
  - split; [split; [discriminate|reflexivity]|vm_compute; eauto].
  - set (n := Z.to_N _). split.
    + destruct (hundredths_token n) as [Hne Hs].
      destruct s; cbn [append]; [|done]. split; [done|]. cbn [all_chars]. by rewrite Hs.
    + rewrite float_py_float_hundredths. eauto.
Qed.

Lemma Q_format_2f_readable (x : Q) :
  token (Q_format_2f x) /\ is_Some (Q_py_float (Q_format_2f x)).
Proof.
  split; [apply Q_format_2f_token|].
  destruct (Q_py_float_format_2f x) as (v & -> & _). eauto.
Qed.

(** ** The RTTM codec: round trip *)

(** The fields of a serialized line whose variable parts are tokens. *)
Lemma fields_of_rttm_line (file_id fs fd label : string) :
  token file_id -> token fs -> token fd -> token label ->
  fields ("SPEAKER " ++ file_id ++ " 1 " ++ fs ++ " " ++ fd
          ++ " <NA> <NA> " ++ label ++ " <NA> <NA>")%string
  = ["SPEAKER"; file_id; "1"; fs; fd; "<NA>"; "<NA>"; label; "<NA>"; "<NA>"].
Proof.
  intros Hid Hfs Hfd Hlabel. unfold fields.
  assert (Hstrip : strip ("SPEAKER " ++ file_id ++ " 1 " ++ fs ++ " " ++ fd
                          ++ " <NA> <NA> " ++ label ++ " <NA> <NA>")%string
                   = ("SPEAKER " ++ file_id ++ " 1 " ++ fs ++ " " ++ fd
                      ++ " <NA> <NA> " ++ label ++ " <NA> <NA>")%string).
  { unfold strip.
    change (lstrip ("SPEAKER " ++ ?x)%string) with ("SPEAKER " ++ x)%string.
    repeat (apply rstrip_app_r; [|by repeat apply append_nonempty_r]). done. }
  rewrite Hstrip.
  change ("SPEAKER " ++ file_id ++ " 1 " ++ fs ++ " " ++ fd
          ++ " <NA> <NA> " ++ label ++ " <NA> <NA>")%string
    with ("SPEAKER" ++ String " " (file_id ++ String " " ("1" ++ String " "
            (fs ++ String " " (fd ++ String " " ("<NA>" ++ String " "
              ("<NA>" ++ String " " (label ++ String " "
                ("<NA>" ++ String " " "<NA>")))))))))%string.
  assert (Hlit : forall w, all_chars not_space w = true -> w <> EmptyString -> token w)
    by (intros w ? ?; by split).
  rewrite !split_ws_token; try done; by apply Hlit.
Qed.


Section RoundTrip.
Context `{PyNum F} `{PyText F}.

(** The line parses to what [float] reads from its two numbers. *)
Lemma parse_serialized (file_id : string) (r : segment F) (s d : F) :
  token file_id -> token (speaker r) ->
  token (format_2f (start_time r)) ->
  token (format_2f (sub (end_time r) (start_time r))) ->
  py_float (format_2f (start_time r)) = Some s ->
  py_float (format_2f (sub (end_time r) (start_time r))) = Some d ->
  parse_rttm_line (list_to_rttm_string file_id r) = Ok (s, d, speaker r).
Proof.
  intros Hid Hlabel Hts Htd Ps Pd.
  assert (Hfields : fields (list_to_rttm_string file_id r)
                    = ["SPEAKER"; file_id; "1"; format_2f (start_time r);
                       format_2f (sub (end_time r) (start_time r));
                       "<NA>"; "<NA>"; speaker r; "<NA>"; "<NA>"]).
  { unfold list_to_rttm_string. by apply fields_of_rttm_line. }
  unfold parse_rttm_line.
  fold (fields (list_to_rttm_string file_id r)). rewrite Hfields.
  unfold index, float_of.
  cbn [lookup list_lookup mbind outcome_bind]. rewrite Ps.
  cbn [mbind outcome_bind]. rewrite Pd. done.
Qed.
End RoundTrip.



(** ** The converter: sorting by start *)

Section SortedFacts.
Implicit Types (x y : segment Q) (l acc : list (segment Q)).

Lemma ascending_tail x l : ascending (x :: l) -> ascending l.
Proof. destruct l; [done|]. by intros [_ ?]. Qed.

Lemma ascending_head x l :
  ascending (x :: l) -> forall r, r ∈ l -> (start_time x <= start_time r)%Q.
Proof.
  intros Hasc r Hr. apply (ordered_first x l Hasc). by right.
Qed.

Lemma insert_by_head x l :
  exists y l', insert_by start_time x l = y :: l'
               /\ (y = x \/ exists l0, l = y :: l0).
Proof.
  destruct l as [|y l]; [by eexists _, _; split; [|left]|].
  cbn [insert_by]. destruct (ltb _ _).
  - eexists _, _. split; [done|by left].
  - eexists _, _. split; [done|right; by eexists].
Qed.

Lemma insert_by_ascending x l :
  ascending l -> ascending (insert_by start_time x l).
Proof.
  induction l as [|y l IH]; intros Hasc; [done|].
  cbn [insert_by]. cbn [ltb Q_PyNum]. destruct (Qltb _ _) eqn:E.
  - apply Qltb_lt in E. split; [lra|done].
  - apply Qltb_ge in E. specialize (IH (ascending_tail _ _ Hasc)).
    destruct (insert_by_head x l) as (z & l' & Hz & Hcase). rewrite Hz in *.
    split; [|done]. destruct Hcase as [->|[l0 ->]]; [done|]. by destruct Hasc.
Qed.

Lemma insert_by_perm x l : Permutation (insert_by start_time x l) (l ++ [x]).
Proof.
  induction l as [|y l IH]; [done|]. cbn [insert_by]. destruct (ltb _ _).
  - change (x :: y :: l) with ([x] ++ (y :: l)). apply Permutation_app_comm.
  - cbn [app]. by constructor.
Qed.

Lemma starting_at_none q l :
  (forall r, r ∈ l -> (q < start_time r)%Q) -> starting_at q l = [].
Proof.
  induction l as [|y l IH]; intros Hl; [done|]. cbn [starting_at List.filter].
  destruct (Qeq_bool _ _) eqn:E.
  - apply Qeq_bool_iff in E. specialize (Hl y ltac:(left)). lra.
  - apply IH. intros r Hr. apply Hl. by right.
Qed.

(** Insertion puts a record behind the records with the same start. *)
Lemma insert_by_stable q x l :
  ascending l ->
  starting_at q (insert_by start_time x l) = starting_at q (l ++ [x]).
Proof.
  unfold starting_at. induction l as [|y l IH]; intros Hasc; [done|].
  cbn [insert_by]. cbn [ltb Q_PyNum]. destruct (Qltb _ _) eqn:E.
  - apply Qltb_lt in E. rewrite List.filter_app. cbn [List.filter].
    destruct (Qeq_bool (start_time x) q) eqn:Ex; [|by rewrite app_nil_r].
    apply Qeq_bool_iff in Ex.
    assert (Hnone : starting_at q (y :: l) = []).
    { apply starting_at_none. intros r Hr. apply elem_of_cons in Hr as [->|Hr]; [lra|].
      pose proof (ascending_head y l Hasc r Hr). lra. }
    unfold starting_at in Hnone. cbn [List.filter] in Hnone. by rewrite Hnone.
  - cbn [app List.filter]. rewrite (IH (ascending_tail _ _ Hasc)). done.
Qed.

Lemma py_sorted_from l :
  forall acc,
    ascending acc ->
    ascending (fold_left (fun a x => insert_by start_time x a) l acc)
    /\ Permutation (fold_left (fun a x => insert_by start_time x a) l acc) (acc ++ l)
    /\ (forall q, starting_at q (fold_left (fun a x => insert_by start_time x a) l acc)
                  = starting_at q (acc ++ l)).
Proof.
  induction l as [|x l IH]; intros acc Hacc.
  - cbn [fold_left]. by rewrite app_nil_r.
  - cbn [fold_left].
    destruct (IH (insert_by start_time x acc) (insert_by_ascending x acc Hacc))
      as (I1 & I2 & I3).
    split_and!; [done| |].
    + rewrite I2. rewrite (insert_by_perm x acc). rewrite <- app_assoc. reflexivity.
    + intros q. rewrite I3. unfold starting_at. rewrite !List.filter_app.
      fold (starting_at q (insert_by start_time x acc)).
      rewrite (insert_by_stable q x acc Hacc). unfold starting_at.
      rewrite List.filter_app. cbn [List.filter]. rewrite <- app_assoc. f_equal.
      by destruct (Qeq_bool _ _).
Qed.

(** [sorted(l, key=start)] is [l] rearranged in ascending order of
    start, the records with equal starts in their order in [l]. *)
Lemma py_sorted_spec l :
  ascending (py_sorted start_time l)
  /\ Permutation (py_sorted start_time l) l
  /\ (forall q, starting_at q (py_sorted start_time l) = starting_at q l).
Proof. by apply (py_sorted_from l []). Qed.
End SortedFacts.

(** ** The converter: grouping *)

Section GroupFacts.
Context `{PyNum F} `{PyText F}.
Implicit Types (rows : list (alignment_row F)) (r : alignment_row F) (sp : string).

Lemma elem_of_speakers_of rows sp :
  sp ∈ speakers_of rows <-> exists r, r ∈ rows /\ row_speaker r = sp.
Proof.
  induction rows as [|a rows IH]; cbn [speakers_of].
  - split; [by intros ?%elem_of_nil|]. by intros (r & ?%elem_of_nil & _).
  - rewrite elem_of_cons, list_elem_of_filter, IH. split.
    + intros [->|[Hne (r & Hr & <-)]].
      * exists a. split; [left|done].
      * exists r. split; [by right|done].
    + intros (r & Hr & <-). apply elem_of_cons in Hr as [->|Hr]; [by left|].
      destruct (decide (row_speaker r = row_speaker a)); [by left|right].
      split; [done|]. by exists r.
Qed.

Lemma NoDup_speakers_of rows : NoDup (speakers_of rows).
Proof.
  induction rows as [|a rows IH]; cbn [speakers_of]; [constructor|].
  apply list.NoDup_cons. split.
  - by intros [? _]%list_elem_of_filter.
  - by apply NoDup_filter.
Qed.

Lemma speakers_of_snoc rows r :
  speakers_of (rows ++ [r])
  = if decide (row_speaker r ∈ speakers_of rows) then speakers_of rows
    else speakers_of rows ++ [row_speaker r].
Proof.
  induction rows as [|a rows IH].
  - cbn. destruct (decide _) as [Hin|_]; [by apply elem_of_nil in Hin|done].
  - cbn [app speakers_of]. rewrite IH.
    destruct (decide (row_speaker r ∈ speakers_of rows)) as [Hin|Hin].
    + rewrite decide_True; [done|].
      destruct (decide (row_speaker r = row_speaker a)) as [->|Hne]; [left|right].
      by apply list_elem_of_filter.
    + rewrite filter_app, filter_cons, filter_nil.
      destruct (decide (row_speaker r = row_speaker a)) as [E|Hne].
      * rewrite decide_False by (by intros ?). rewrite app_nil_r.
        rewrite decide_True; [done|]. rewrite E. left.
      * rewrite (decide_True (P:=row_speaker r ≠ row_speaker a)) by done.
        rewrite decide_False; [done|].
        intros [?|[_ ?]%list_elem_of_filter]%elem_of_cons; done.
Qed.

Lemma sequence_of_snoc rows r sp :
  sequence_of (rows ++ [r]) sp
  = sequence_of rows sp
    ++ (if decide (row_speaker r = sp) then [row_segment r] else []).
Proof.
  unfold sequence_of. rewrite filter_app, fmap_app, filter_cons, filter_nil.
  by destruct (decide _).
Qed.

Lemma sequence_of_absent rows sp :
  sp ∉ speakers_of rows -> sequence_of rows sp = [].
Proof.
  intros Hsp. unfold sequence_of.
  destruct (filter _ rows) as [|r l] eqn:E; [done|]. exfalso. apply Hsp.
  apply elem_of_speakers_of. exists r.
  assert (Hr : r ∈ filter (fun r => row_speaker r = sp) rows) by (rewrite E; left).
  apply list_elem_of_filter in Hr as [? ?]. done.
Qed.

Lemma sequence_of_present rows sp :
  sp ∈ speakers_of rows -> sequence_of rows sp <> [].
Proof.
  intros (r & Hr & Hsp)%elem_of_speakers_of. unfold sequence_of.
  assert (Hin : r ∈ filter (fun r => row_speaker r = sp) rows)
    by by apply list_elem_of_filter.
  destruct (filter _ rows); [by apply elem_of_nil in Hin|done].
Qed.

Lemma dict_contains_grouped rows sp :
  dict_contains (grouped rows) sp = true <-> sp ∈ speakers_of rows.
Proof.
  unfold dict_contains, grouped. rewrite existsb_exists. split.
  - intros (kv & Hin & E). apply String.eqb_eq in E as <-.
    apply list_elem_of_In, list_elem_of_fmap in Hin as (k & -> & Hk). done.
  - intros Hsp. exists (sp, sequence_of rows sp). split; [|apply String.eqb_refl].
    apply list_elem_of_In, list_elem_of_fmap. by exists sp.
Qed.

(** One more row: its record goes to the end of its speaker's list, or
    to a new list at the end of the dict. *)
Lemma grouped_snoc rows r :
  grouped (rows ++ [r])
  = if dict_contains (grouped rows) (row_speaker r)
    then dict_append (grouped rows) (row_speaker r) (row_segment r)
    else grouped rows ++ [(row_speaker r, [row_segment r])].
Proof.
  destruct (dict_contains _ _) eqn:E.
  - apply dict_contains_grouped in E. unfold grouped, dict_append.
    rewrite speakers_of_snoc, decide_True by done.
    rewrite <- list_fmap_compose. apply list_fmap_ext. intros i k Hk. cbn.
    rewrite sequence_of_snoc. destruct (String.eqb_spec k (row_speaker r)) as [->|Hne].
    + by rewrite decide_True.
    + rewrite decide_False by done. by rewrite app_nil_r.
  - assert (Hout : row_speaker r ∉ speakers_of rows).
    { intros Hin. apply dict_contains_grouped in Hin. congruence. }
    unfold grouped. rewrite speakers_of_snoc, decide_False by done.
    rewrite fmap_app. f_equal.
    + apply list_fmap_ext. intros i k Hk. rewrite sequence_of_snoc.
      rewrite decide_False; [by rewrite app_nil_r|].
      intros <-. apply Hout. by eapply list_elem_of_lookup_2.
    + cbn. by rewrite sequence_of_snoc, sequence_of_absent, decide_True.
Qed.

Lemma group_iteration_row (result : groups F) (w : string) r :
  read_row w = Some r ->
  group_iteration result w
  = Ok (if dict_contains result (row_speaker r)
        then dict_append result (row_speaker r) (row_segment r)
        else result ++ [(row_speaker r, [row_segment r])]).
Proof.
  unfold read_row, group_iteration, float_of.
  destruct (split_on ", " w) as [|word [|st [|en [|score [|sp [|? ?]]]]]]; try done.
  cbn [unpack5]. csimpl.
  destruct (py_float st) as [s|]; [|done]. destruct (py_float en) as [e|]; [|done].
  intros [= <-]. csimpl. by destruct (dict_contains _ _).
Qed.

Lemma group_loop (words : list string) :
  forall rows done_rows,
    Forall2 (fun w r => read_row w = Some r) words rows ->
    for_each group_iteration words (grouped done_rows)
    = Ok (grouped (done_rows ++ rows)).
Proof.
  induction words as [|w words IH]; intros rows done_rows Hrows.
  - apply Forall2_nil_inv_l in Hrows as ->. by rewrite app_nil_r.
  - apply Forall2_cons_inv_l in Hrows as (r & rows' & Hr & Hrows & ->).
    cbn [for_each]. rewrite (group_iteration_row _ _ _ Hr). csimpl.
    rewrite <- grouped_snoc, (IH rows' (done_rows ++ [r]) Hrows).
    by rewrite <- app_assoc.
Qed.

(** Every group is merged; no group is empty, so no merge fails. *)
Lemma merge_groups_spec (g : groups F) :
  Forall (fun kv => kv.2 <> []) g ->
  exists merged : list (list (segment F)),
    merge_groups g = Ok (zip g.*1 merged)
    /\ Forall2 (fun kv m => merge_close_numbers kv.2 half = Ok m) g merged.
Proof.
  induction g as [|[k l] g IH]; intros Hne.
  - by exists [].
  - apply list.Forall_cons in Hne as [Hl Hne]. destruct (IH Hne) as (merged & E & Hm).
    destruct l as [|x rest]; [done|]. cbn [merge_groups].
    rewrite merge_close_numbers_cons, E. csimpl.
    exists (merge_from half x rest :: merged). split; [done|].
    constructor; [|done]. cbn. by rewrite merge_close_numbers_cons.
Qed.
End GroupFacts.

(** ** The converter: the file identifier *)

Section SplitFacts.
Implicit Types (s t : string) (c d : ascii).

Lemma split_char_cons d c s :
  split_on (String d EmptyString) (String c s)
  = if Ascii.eqb c d then EmptyString :: split_on (String d EmptyString) s
    else match split_on (String d EmptyString) s with
         | w :: ws => String c w :: ws
         | [] => [String c EmptyString]
         end.
Proof.
  unfold split_on. cbn [split_scan String.prefix String.length Nat.sub].
  destruct (ascii_dec d c) as [->|Hne].
  - rewrite Ascii.eqb_refl. by destruct s.
  - assert (E : Ascii.eqb c d = false) by (apply Ascii.eqb_neq; congruence).
    by rewrite E.
Qed.

(** Without the separator there is nothing to cut. *)
Lemma split_char_none d s :
  all_chars (fun c => negb (Ascii.eqb c d)) s = true ->
  split_on (String d EmptyString) s = [s].
Proof.
  induction s as [|c s IH]; [done|]. cbn [all_chars]. rewrite andb_true_iff.
  intros [Hc Hs]. apply negb_true_iff in Hc. by rewrite split_char_cons, Hc, (IH Hs).
Qed.

(** The first piece ends at the first separator. *)
Lemma split_char_first d s t :
  all_chars (fun c => negb (Ascii.eqb c d)) s = true ->
  split_on (String d EmptyString) (s ++ String d t)
  = s :: split_on (String d EmptyString) t.
Proof.
  induction s as [|c s IH]; cbn [all_chars append].
  - intros _. by rewrite split_char_cons, Ascii.eqb_refl.
  - rewrite andb_true_iff. intros [Hc Hs]. apply negb_true_iff in Hc.
    by rewrite split_char_cons, Hc, (IH Hs).
Qed.

(** The last piece starts after the last separator. *)
Lemma split_char_last d s t :
  exists w ws,
    split_on (String d EmptyString) (s ++ String d t) = w :: ws
    /\ ws <> []
    /\ List.last ws EmptyString
       = List.last (split_on (String d EmptyString) t) EmptyString.
Proof.
  assert (Hne : forall u, split_on (String d EmptyString) u <> []).
  { intros [|c u]; [done|]. rewrite split_char_cons.
    destruct (Ascii.eqb c d); [done|]. by destruct (split_on _ u). }
  induction s as [|c s IH]; cbn [append].
  - rewrite split_char_cons, Ascii.eqb_refl. by eexists _, _.
  - destruct IH as (w & ws & E & Hws & Hlast). rewrite split_char_cons, E.
    destruct (Ascii.eqb c d).
    + eexists _, _. split_and!; [done|done|]. rewrite <- Hlast.
      destruct ws as [|w' ws]; [done|]. by rewrite !last_cons_default.
    + by eexists _, _.
Qed.

Lemma basename_after_slash (dir name : string) :
  all_chars (fun c => negb (Ascii.eqb c "/")) name = true ->
  basename (dir ++ String "/" name) = name.
Proof.
  intros Hname. unfold basename.
  destruct (split_char_last "/" dir name) as (w & ws & -> & Hws & Hlast).
  destruct ws as [|w' ws]; [done|].
  change (List.last (w :: w' :: ws) EmptyString) with (List.last (w' :: ws) EmptyString).
  by rewrite Hlast, split_char_none.
Qed.

(** For a path [dir/stem.ext] the identifier is [stem]. *)
Lemma file_id_of_path (dir stem ext : string) :
  all_chars (fun c => negb (Ascii.eqb c "/")) stem = true ->
  all_chars (fun c => negb (Ascii.eqb c ".")) stem = true ->
  all_chars (fun c => negb (Ascii.eqb c "/")) ext = true ->
  file_id_of (dir ++ String "/" (stem ++ String "." ext)) = stem.
Proof.
  intros Hs1 Hs2 He. unfold file_id_of. rewrite basename_after_slash.
  - by rewrite split_char_first.
  - rewrite all_chars_app. cbn [all_chars]. by rewrite Hs1, He.
Qed.

Lemma file_id_of_plain (stem ext : string) :
  all_chars (fun c => negb (Ascii.eqb c "/")) stem = true ->
  all_chars (fun c => negb (Ascii.eqb c ".")) stem = true ->
  all_chars (fun c => negb (Ascii.eqb c "/")) ext = true ->
  file_id_of (stem ++ String "." ext) = stem.
Proof.
  intros Hs1 Hs2 He. unfold file_id_of, basename.
  rewrite (split_char_none "/" (stem ++ String "." ext)).
  - cbn [List.last]. by rewrite split_char_first.
  - rewrite all_chars_app. cbn [all_chars]. by rewrite Hs1, He.
Qed.
End SplitFacts.

(** A data line that is not a row makes the converter fail. *)
Section MalformedTable.
Context `{PyNum F} `{PyText F}.

Lemma group_iteration_malformed (result : groups F) (w : string) :
  read_row (F:=F) w = None -> group_iteration result w = Raise ValueError.
Proof.
  unfold read_row, group_iteration, float_of.
  destruct (split_on ", " w) as [|word [|st [|en [|score [|sp [|? ?]]]]]]; try done.
  cbn [unpack5]. csimpl.
  destruct (py_float st) as [s|]; [|done]. by destruct (py_float en) as [e|].
Qed.

Lemma group_loop_malformed (words : list string) :
  mapM (read_row (F:=F)) words = None ->
  forall result : groups F, for_each group_iteration words result = Raise ValueError.
Proof.
  induction words as [|w words IH]; [done|]. intros Hnone result.
  cbn [for_each]. destruct (read_row (F:=F) w) as [r|] eqn:Er.
  - rewrite (group_iteration_row _ _ _ Er). csimpl. apply IH.
    csimpl in Hnone. rewrite Er in Hnone. csimpl in Hnone.
    by destruct (mapM read_row words).
  - by rewrite group_iteration_malformed.
Qed.

Lemma convert_csv_to_rttm_malformed (input_csv_path input : string) :
  read_table (F:=F) input = None ->
  convert_csv_to_rttm (F:=F) input_csv_path input = Raise ValueError.
Proof.
  intros Hnone. unfold convert_csv_to_rttm. by rewrite group_loop_malformed.
Qed.
End MalformedTable.

(** ** The converter: sorting in every number model *)

Section SortedAny.
Context `{PyNum F}.
(** The numbers [K] on which [<] is an order. *)
Variable K : F -> Prop.
Hypothesis K_asym : forall a b, K a -> K b -> ltb a b = true -> ltb b a = false.
Hypothesis K_negtrans :
  forall a b c, K a -> K b -> K c ->
                ltb a b = false -> ltb b c = false -> ltb a c = false.
Implicit Types (x y z : segment F) (l acc : list (segment F)) (q : F).

Lemma insert_by_permutation x l : Permutation (insert_by start_time x l) (l ++ [x]).
Proof.
  induction l as [|y l IH]; [done|]. cbn [insert_by]. destruct (ltb _ _).
  - change (x :: y :: l) with ([x] ++ (y :: l)). apply Permutation_app_comm.
  - cbn [app]. by constructor.
Qed.

(** What follows a record that starts after [x], in a sorted list,
    starts after [x] as well. *)
Lemma sorted_after x y l :
  K (start_time x) -> Forall (fun z => K (start_time z)) (y :: l) ->
  sorted_by_start (y :: l) ->
  ltb (start_time x) (start_time y) = true ->
  Forall (fun z => ltb (start_time x) (start_time z) = true
                   /\ ltb (start_time z) (start_time x) = false) (y :: l).
Proof using All.
  intros Kx Kl Hs Hxy. apply list.Forall_cons in Kl as [Ky Kl].
  apply StronglySorted_inv in Hs as [_ Hy].
  rewrite list.Forall_forall in Kl. rewrite List.Forall_forall in Hy.
  assert (Hall : forall z, z ∈ y :: l -> ltb (start_time x) (start_time z) = true).
  { intros z [->|Hz]%elem_of_cons; [done|].
    destruct (ltb (start_time x) (start_time z)) eqn:E; [done|].
    assert (Hzy : ltb (start_time z) (start_time y) = false)
      by (apply Hy; by apply list_elem_of_In).
    rewrite (K_negtrans _ _ _ Kx (Kl z Hz) Ky E Hzy) in Hxy. done. }
  apply list.Forall_forall. intros z Hz. split; [by apply Hall|].
  apply K_asym; [done| |by apply Hall].
  apply elem_of_cons in Hz as [->|Hz]; [done|by apply Kl].
Qed.

Lemma insert_by_sorted x l :
  K (start_time x) -> Forall (fun z => K (start_time z)) l ->
  sorted_by_start l -> sorted_by_start (insert_by start_time x l).
Proof using All.
  intros Kx. induction l as [|y l IH]; intros Kl Hs; cbn [insert_by].
  - repeat constructor.
  - destruct (ltb (start_time x) (start_time y)) eqn:E.
    + constructor; [done|]. apply List.Forall_forall. intros z Hz%list_elem_of_In.
      pose proof (sorted_after x y l Kx Kl Hs E) as Hall.
      rewrite list.Forall_forall in Hall. by apply Hall.
    + apply list.Forall_cons in Kl as [Ky Kl].
      apply StronglySorted_inv in Hs as [Hl Hy].
      constructor; [by apply IH|].
      apply List.Forall_forall. intros z Hz%list_elem_of_In.
      rewrite (insert_by_permutation x l) in Hz.
      apply elem_of_app in Hz as [Hz|Hz%list_elem_of_singleton]; [|by subst].
      rewrite List.Forall_forall in Hy. by apply Hy, list_elem_of_In.
Qed.

(** Inserting keeps the order of the records tied with [q]. *)
Lemma insert_by_ties q x l :
  K q -> K (start_time x) -> Forall (fun z => K (start_time z)) l ->
  sorted_by_start l ->
  tied_with q (insert_by start_time x l) = tied_with q (l ++ [x]).
Proof using All.
  intros Kq Kx. unfold tied_with.
  induction l as [|y l IH]; intros Kl Hs; cbn [insert_by]; [done|].
  destruct (ltb (start_time x) (start_time y)) eqn:E.
  - rewrite List.filter_app. cbn [List.filter].
    destruct (tied q x) eqn:Tx; [|by rewrite app_nil_r].
    assert (Hnone : List.filter (tied q) (y :: l) = []).
    { pose proof (sorted_after x y l Kx Kl Hs E) as Hall.
      rewrite list.Forall_forall in Hall, Kl.
      apply andb_true_iff in Tx as [Tx1%negb_true_iff Tx2%negb_true_iff].
      clear IH E Hs.
      induction (y :: l) as [|z l' IH']; [done|]. cbn [List.filter].
      assert (Hz : tied q z = false).
      { destruct (Hall z ltac:(by left)) as [Hxz _].
        unfold tied. destruct (ltb (start_time z) q) eqn:E1; [done|].
        destruct (ltb q (start_time z)) eqn:E2; [done|]. cbn.
        rewrite (K_negtrans _ _ _ Kx Kq (Kl z ltac:(by left)) Tx1 E2) in Hxz. done. }
      rewrite Hz. apply IH'.
      - intros w Hw. apply Kl. by right.
      - intros w Hw. apply Hall. by right. }
    cbn [List.filter] in Hnone. by rewrite Hnone.
  - apply list.Forall_cons in Kl as [Ky Kl].
    apply StronglySorted_inv in Hs as [Hl _].
    cbn [List.filter app]. by rewrite (IH Kl Hl).
Qed.

Lemma py_sorted_any l :
  forall acc,
    Forall (fun z => K (start_time z)) (acc ++ l) ->
    sorted_by_start acc ->
    sorted_by_start (fold_left (fun a x => insert_by start_time x a) l acc)
    /\ Permutation (fold_left (fun a x => insert_by start_time x a) l acc) (acc ++ l)
    /\ (forall q, K q ->
          tied_with q (fold_left (fun a x => insert_by start_time x a) l acc)
          = tied_with q (acc ++ l)).
Proof using All.
  induction l as [|x l IH]; intros acc Kall Hacc.
  - cbn [fold_left]. by rewrite app_nil_r.
  - cbn [fold_left]. apply Forall_app in Kall as [Kacc Kl].
    apply list.Forall_cons in Kl as [Kx Kl].
    destruct (IH (insert_by start_time x acc)) as (I1 & I2 & I3).
    { apply Forall_app. split; [|done].
      rewrite (insert_by_permutation x acc). apply Forall_app. split; [done|].
      by constructor. }
    { by apply insert_by_sorted. }
    split_and!; [done| |].
    + rewrite I2, (insert_by_permutation x acc), <- app_assoc. reflexivity.
    + intros q Kq. rewrite (I3 q Kq). unfold tied_with. rewrite !List.filter_app.
      fold (tied_with q (insert_by start_time x acc)).
      rewrite (insert_by_ties q x acc Kq Kx Kacc Hacc). unfold tied_with.
      rewrite List.filter_app, <- app_assoc. cbn [List.filter app].
      by destruct (tied q x).
Qed.
End SortedAny.

(** [sorted(l, key=start)] where [<] orders the starts of [l]: the
    records of [l] in ascending order of start, those tied in their order
    in [l]. *)
Lemma py_sorted_ordered `{PyNum F} (l : list (segment F)) :
  weakly_ordered (start_time <$> l) ->
  sorted_by_start (py_sorted start_time l)
  /\ Permutation (py_sorted start_time l) l
  /\ (forall r, r ∈ l ->
        tied_with (start_time r) (py_sorted start_time l)
        = tied_with (start_time r) l).
Proof.
  intros [Hasym Hneg].
  destruct (py_sorted_any (fun k => k ∈ start_time <$> l) Hasym Hneg l [])
    as (S1 & S2 & S3).
  - cbn [app]. apply list.Forall_forall. intros z Hz.
    apply list_elem_of_fmap. by exists z.
  - constructor.
  - split_and!; [done|done|]. intros r Hr. apply S3.
    apply list_elem_of_fmap. by exists r.
Qed.

Section GroupStarts.
Context `{PyNum F} `{PyText F}.

Lemma Forall_concat_groups {A C} (P : A -> list C -> Prop) (Q : C -> Prop)
    (sps : list A) (merged : list (list C)) :
  Forall2 P sps merged ->
  (forall sp m, P sp m -> Forall Q m) ->
  Forall Q (concat merged).
Proof.
  intros Hm HP. induction Hm as [|sp m sps merged Hsp _ IH]; [constructor|].
  cbn [concat]. apply Forall_app. split; [by eapply HP|done].
Qed.

(** Every merged record starts where a row of the table starts. *)
Lemma merged_groups_starts (rows : list (alignment_row F))
    (merged : list (list (segment F))) :
  Forall2 (fun sp m => merge_close_numbers (sequence_of rows sp) half = Ok m)
          (speakers_of rows) merged ->
  Forall (fun o => exists r, r ∈ rows /\ start_time o = row_start r)
         (concat merged).
Proof.
  intros Hm. eapply Forall_concat_groups; [exact Hm|].
  intros sp m Hsp. cbn in Hsp. apply list.Forall_forall. intros o Ho.
  unfold sequence_of in Hsp.
  destruct (row_segment <$> filter (fun r => row_speaker r = sp) rows)
    as [|x rest] eqn:E.
  { by rewrite merge_close_numbers_nil in Hsp. }
  rewrite merge_close_numbers_cons in Hsp. injection Hsp as <-.
  apply merge_from_fields in Ho as [Ho _]. rewrite <- E in Ho.
  apply list_elem_of_fmap in Ho as (seg & -> & Hseg).
  apply list_elem_of_fmap in Hseg as (r & -> & Hr).
  apply list_elem_of_filter in Hr as [_ Hr]. by exists r.
Qed.

(** What the converter returns on a well-formed table, for every number
    model. *)
Lemma convert_csv_to_rttm_rows (input_csv_path input : string)
    (rows : list (alignment_row F)) :
  read_table input = Some rows ->
  exists merged : list (list (segment F)),
    Forall2 (fun sp m => merge_close_numbers (sequence_of rows sp) half = Ok m)
            (speakers_of rows) merged
    /\ convert_csv_to_rttm input_csv_path input
       = Ok (join (String LF EmptyString)
                  (list_to_rttm_string (file_id_of input_csv_path)
                     <$> py_sorted start_time (concat merged))).
Proof.
  intros Hrows. unfold read_table in Hrows. apply mapM_Some in Hrows.
  pose proof (group_loop _ rows [] Hrows) as Hloop. cbn [app] in Hloop.
  destruct (merge_groups_spec (grouped rows)) as (merged & Hmerge & Hm).
  { unfold grouped. apply Forall_fmap, list.Forall_forall. intros sp Hsp.
    by apply sequence_of_present. }
  unfold grouped in Hm at 1. apply Forall2_fmap_l in Hm. cbn in Hm.
  exists merged. split; [done|].
  unfold convert_csv_to_rttm. change (@nil (string * list (segment F))) with (grouped (F:=F) []).
  rewrite Hloop. csimpl. rewrite Hmerge. csimpl.
  rewrite snd_zip; [done|]. apply Forall2_length in Hm.
  rewrite length_fmap. unfold grouped. rewrite length_fmap. lia.
Qed.

Lemma weakly_ordered_subset (keys keys' : list F) :
  (forall k, k ∈ keys' -> k ∈ keys) -> weakly_ordered keys -> weakly_ordered keys'.
Proof.
  intros Hsub [Hasym Hneg]. split.
  - intros a b Ha Hb. apply Hasym; by apply Hsub.
  - intros a b c Ha Hb Hc. apply Hneg; by apply Hsub.
Qed.
End GroupStarts.
(** C3, as stated, fails where it names the file identifier: the code
    cuts the base name at its first dot, which strips the extension only
    from a name with a single dot.  For the path /data/my.file.csv the
    base name stripped of its extension is my.file, the identifier
    written is my. *)
Lemma file_id_cut_at_first_dot :
  stripped_of_extension "/data/my.file.csv" = "my.file"
  /\ file_id_of "/data/my.file.csv" = "my"
  /\ convert_csv_to_rttm (F:=float) "/data/my.file.csv" scenario_csv
     = Ok (join (String LF EmptyString)
             ["SPEAKER my 1 0.00 1.00 <NA> <NA> A <NA> <NA>";
              "SPEAKER my 1 0.20 0.20 <NA> <NA> B <NA> <NA>"])
  /\ stripped_of_extension "/data/rec01.csv" = "rec01"
  /\ file_id_of "/data/rec01.csv" = "rec01".
Proof. split_and!; vm_compute; reflexivity. Qed.

(** C3, amended.  In every number model (binary64, exact rationals) and
    for every [float]: for a table whose data lines (the header is
    skipped, empty lines are dropped) all hold five comma-space-separated
    fields with numeric start and end, and on whose start times [<] is an
    order, the converter groups the rows by speaker, each group in row
    order, the groups in the order of their first row; merges every group
    on its own with the threshold 0.5; concatenates the merged groups;
    sorts the result by start, ascending, records with tied starts keeping
    the order they had after concatenation; and returns the RTTM lines of
    the sorted records joined by line feeds, all with file_id the part of
    the path's base name before its first dot: for a path dir/stem.ext, or
    stem.ext, with no dot in stem, that is stem.  [<] is an order on all
    rationals and on all binary64 numbers but NaN.  The merge decisions
    are those of the number model: the rows (0.0, 0.2) and (0.7, 1.0) of
    one speaker become one record in binary64 and stay two in exact
    arithmetic. *)
Theorem convert_csv_to_rttm_pipeline :
  (forall (F : Type) (N : PyNum F) (T : PyText F) (input_csv_path input : string)
          (rows : list (alignment_row F)),
      read_table input = Some rows ->
      weakly_ordered (row_start <$> rows) ->
      exists (merged : list (list (segment F))) (sorted : list (segment F)),
        (forall sp, sequence_of rows sp
                    = row_segment <$> filter (fun r => row_speaker r = sp) rows)
        /\ NoDup (speakers_of rows)
        /\ (forall sp, sp ∈ speakers_of rows
                       <-> exists r, r ∈ rows /\ row_speaker r = sp)
        /\ Forall2 (fun sp m => merge_close_numbers (sequence_of rows sp) half = Ok m)
                   (speakers_of rows) merged
        /\ Permutation sorted (concat merged)
        /\ sorted_by_start sorted
        /\ (forall r, r ∈ concat merged ->
               tied_with (start_time r) sorted
               = tied_with (start_time r) (concat merged))
        /\ file_id_of input_csv_path
           = hd EmptyString (split_on "." (basename input_csv_path))
        /\ (forall dir stem ext : string,
               all_chars (fun c => negb (Ascii.eqb c "/")) stem = true ->
               all_chars (fun c => negb (Ascii.eqb c ".")) stem = true ->
               all_chars (fun c => negb (Ascii.eqb c "/")) ext = true ->
               file_id_of (dir ++ String "/" (stem ++ String "." ext)) = stem
               /\ file_id_of (stem ++ String "." ext) = stem)
        /\ convert_csv_to_rttm input_csv_path input
           = Ok (join (String LF EmptyString)
                      (list_to_rttm_string (file_id_of input_csv_path) <$> sorted)))
  /\ (forall keys : list Q, weakly_ordered keys)
  /\ (forall keys : list float,
         Forall (fun k => PrimFloat.eqb k k = true) keys -> weakly_ordered keys)
  /\ convert_csv_to_rttm (F:=float) "a.csv" boundary_csv
     = Ok "SPEAKER a 1 0.00 1.00 <NA> <NA> A <NA> <NA>"
  /\ convert_csv_to_rttm (F:=Q) "a.csv" boundary_csv
     = Ok (join (String LF EmptyString)
             ["SPEAKER a 1 0.00 0.20 <NA> <NA> A <NA> <NA>";
              "SPEAKER a 1 0.70 0.30 <NA> <NA> A <NA> <NA>"]).
Proof.
  split; [|split_and!; [apply Q_weakly_ordered|apply float_weakly_ordered
                       |vm_compute; reflexivity..]].
  intros F N T path input rows Hrows Hord.
  destruct (convert_csv_to_rttm_rows path input rows Hrows) as (merged & Hm & Hout).
  destruct (py_sorted_ordered (concat merged)) as (S1 & S2 & S3).
  { eapply weakly_ordered_subset; [|exact Hord]. intros k Hk.
    apply list_elem_of_fmap in Hk as (o & -> & Ho).
    pose proof (merged_groups_starts rows merged Hm) as Hst.
    rewrite list.Forall_forall in Hst. destruct (Hst o Ho) as (r & Hr & ->).
    apply list_elem_of_fmap. by exists r. }
  exists merged, (py_sorted start_time (concat merged)).
  split_and!; [done|apply NoDup_speakers_of|apply elem_of_speakers_of
              |done|done|done|done|done| |done].
  intros dir stem ext Hs1 Hs2 He.
  split; [by apply file_id_of_path|by apply file_id_of_plain].
Qed.

Lemma convert_csv_to_rttm_pipeline_witness :
  exists (merged : list (list (segment float))) (sorted : list (segment float)),
    Permutation sorted (concat merged)
    /\ sorted_by_start sorted
    /\ convert_csv_to_rttm "/data/rec01.csv" scenario_csv
       = Ok (join (String LF EmptyString) (list_to_rttm_string "rec01" <$> sorted)).
Proof.
  destruct (proj1 convert_csv_to_rttm_pipeline float _ _ "/data/rec01.csv" scenario_csv
              [Row "hi" 0.0%float 0.5%float "0.9" "A";
               Row "there" 0.6%float 1.0%float "0.8" "A";
               Row "yo" 0.2%float 0.4%float "0.7" "B"])
    as (merged & sorted & _ & _ & _ & _ & H3 & H4 & _ & _ & _ & H7).
  - vm_compute. reflexivity.
  - apply float_weakly_ordered. repeat constructor.
  - exists merged, sorted. split_and!; [exact H3|exact H4|exact H7].
Defined.

(** * Further properties of the code *)

(** ** The merger: what the output looks like *)

Section MergerOutput.
Context `{PyNum F}.
Implicit Types (x y o : segment F) (rest l tl : list (segment F)).

(** No two consecutive records of the output are close. *)
Lemma merge_from_separated threshold rest :
  forall x, adjacent (fun a b => close threshold a b = false)
                     (merge_from threshold x rest).
Proof.
  induction rest as [|i rest IH]; intros x; [done|].
  cbn [merge_from]. destruct (ltb _ _) eqn:E; [apply IH|].
  specialize (IH i).
  destruct (merge_from_head threshold rest i) as (o & tl & R & Ho & _).
  rewrite R in *. split; [|done]. unfold close. by rewrite Ho.
Qed.

(** A list without close neighbours is returned as it is. *)
Lemma merge_from_fixed threshold rest :
  forall x, adjacent (fun a b => close threshold a b = false) (x :: rest) ->
            merge_from threshold x rest = x :: rest.
Proof.
  induction rest as [|i rest IH]; intros x Hadj; [done|].
  destruct Hadj as [Hxi Hadj]. cbn [merge_from]. unfold close in Hxi.
  by rewrite Hxi, (IH i Hadj).
Qed.

Lemma merge_from_same_length threshold rest :
  forall x, length (merge_from threshold x rest) = length (x :: rest) ->
            adjacent (fun a b => close threshold a b = false) (x :: rest).
Proof.
  induction rest as [|i rest IH]; intros x Hlen; [done|].
  cbn [merge_from] in Hlen. unfold close at 1. cbn [adjacent].
  destruct (ltb _ _) eqn:E.
  - pose proof (merge_from_length threshold rest (set_end_time x (end_time i))) as L.
    cbn [length] in *. lia.
  - split; [done|]. apply IH. cbn [length] in *. lia.
Qed.

(** The starts and labels of the output are, in order, starts and labels
    of input records, the first one those of the first record. *)
Lemma merge_from_keeps_order threshold rest :
  forall x, exists o tl,
    merge_from threshold x rest = o :: tl
    /\ start_time o = start_time x /\ speaker o = speaker x
    /\ sublist ((fun r => (start_time r, speaker r)) <$> tl)
               ((fun r => (start_time r, speaker r)) <$> rest).
Proof.
  induction rest as [|i rest IH]; intros x.
  - exists x, []. by split_and!.
  - cbn [merge_from]. destruct (ltb _ _).
    + destruct (IH (set_end_time x (end_time i))) as (o & tl & -> & Hs & Hl & Hsub).
      exists o, tl. split_and!; [done|done|done|]. rewrite fmap_cons.
      by apply sublist_cons.
    + destruct (IH i) as (o & tl & -> & Hs & Hl & Hsub).
      exists x, (o :: tl). split_and!; [done|done|done|].
      rewrite !fmap_cons, Hs, Hl. by apply sublist_skip.
Qed.
End MergerOutput.

(** X1.  In the list the merger returns no record is close to its
    predecessor: every gap [next.start - current.end] fails the test
    [< threshold]. *)
Theorem merge_close_numbers_output_separated :
  forall (F : Type) (N : PyNum F) (x : segment F) (rest : list (segment F))
         (threshold : F),
  exists out,
    merge_close_numbers (x :: rest) threshold = Ok out
    /\ adjacent (fun a b => ltb (sub (start_time b) (end_time a)) threshold = false) out.
Proof.
  intros F N x rest threshold. exists (merge_from threshold x rest).
  split; [apply merge_close_numbers_cons|]. apply merge_from_separated.
Qed.

(** X2.  Merging is idempotent: merging the returned list again, with the
    same threshold, returns it unchanged. *)
Theorem merge_close_numbers_idempotent :
  forall (F : Type) (N : PyNum F) (x : segment F) (rest : list (segment F))
         (threshold : F),
  exists out,
    merge_close_numbers (x :: rest) threshold = Ok out
    /\ merge_close_numbers out threshold = Ok out.
Proof.
  intros F N x rest threshold. exists (merge_from threshold x rest).
  split; [apply merge_close_numbers_cons|].
  pose proof (merge_from_separated threshold rest x) as Hsep.
  destruct (merge_from_head threshold rest x) as (o & tl & R & _).
  rewrite R in *. by rewrite merge_close_numbers_cons, merge_from_fixed.
Qed.

(** X3.  The merger returns as many records as it was given exactly when
    no record is close to its predecessor, and then it returns the input
    itself. *)
Theorem merge_close_numbers_unchanged_iff :
  forall (F : Type) (N : PyNum F) (x : segment F) (rest : list (segment F))
         (threshold : F),
  exists out,
    merge_close_numbers (x :: rest) threshold = Ok out
    /\ (length out = length (x :: rest)
        <-> adjacent (fun a b => close threshold a b = false) (x :: rest))
    /\ (out = x :: rest
        <-> adjacent (fun a b => close threshold a b = false) (x :: rest)).
Proof.
  intros F N x rest threshold. exists (merge_from threshold x rest).
  split; [apply merge_close_numbers_cons|]. split; split.
  - apply merge_from_same_length.
  - intros Hadj. by rewrite merge_from_fixed.
  - intros E. apply merge_from_same_length. by rewrite E.
  - apply merge_from_fixed.
Qed.

Lemma merge_close_numbers_unchanged_iff_witness :
  merge_close_numbers [Seg 0%Q 1%Q "A"; Seg 2%Q 3%Q "A"] half
  = Ok [Seg 0%Q 1%Q "A"; Seg 2%Q 3%Q "A"].
Proof.
  destruct (merge_close_numbers_unchanged_iff Q _
              (Seg 0%Q 1%Q "A") [Seg 2%Q 3%Q "A"] half) as (out & E & _ & Hiff).
  rewrite E. f_equal. apply Hiff. cbn. split; [reflexivity|done].
Defined.

(** X4.  The merger keeps the order of the records: the (start, label)
    pairs of the output are a subsequence of those of the input and begin
    with the pair of the first record.  Over the rationals, an input
    ascending by start gives an output ascending by start. *)
Theorem merge_close_numbers_keeps_order :
  (forall (F : Type) (N : PyNum F) (x : segment F) (rest : list (segment F))
          (threshold : F),
   exists o tl,
     merge_close_numbers (x :: rest) threshold = Ok (o :: tl)
     /\ start_time o = start_time x /\ speaker o = speaker x
     /\ sublist ((fun r => (start_time r, speaker r)) <$> tl)
                ((fun r => (start_time r, speaker r)) <$> rest))
  /\ (forall (x : segment Q) (rest : list (segment Q)) (threshold : Q),
         ascending (x :: rest) ->
         exists out, merge_close_numbers (x :: rest) threshold = Ok out
                     /\ ascending out).
Proof.
  split.
  - intros F N x rest threshold. rewrite merge_close_numbers_cons.
    destruct (merge_from_keeps_order threshold rest x) as (o & tl & -> & ?).
    by exists o, tl.
  - intros x rest threshold Hasc. rewrite merge_close_numbers_cons.
    eexists. split; [done|]. revert x Hasc.
    induction rest as [|i rest IH]; intros x Hasc; [done|].
    cbn [merge_from]. destruct Hasc as [Hxi Hasc]. destruct (ltb _ _).
    + apply IH. destruct rest as [|j rest]; [done|].
      destruct Hasc as [Hij Hasc]. split; [|done]. cbn. lra.
    + specialize (IH i Hasc).
      destruct (merge_from_head threshold rest i) as (o & tl & R & Ho & _).
      rewrite R in *. split; [|done]. by rewrite Ho.
Qed.

Lemma merge_close_numbers_keeps_order_witness :
  exists out, merge_close_numbers scenario_Q half = Ok out /\ ascending out.
Proof.
  apply (proj2 merge_close_numbers_keeps_order
           (Seg 0%Q 1%Q "A") [Seg (13 # 10)%Q 2%Q "A"; Seg 5%Q 6%Q "A"] half).
  cbn. split_and!; [lra|lra|done].
Defined.

(** ** The merger: what it does to its argument *)

Section MergerFrame.
Context `{PyNum F}.

Lemma store_insert_ne (h : store F) (m a : loc) (v : segment F) :
  m <> a -> (<[m:=v]> h) a = h a.
Proof. apply fn_lookup_insert_ne. Qed.

Lemma merge_iteration_last threshold (h : store F) (merged : list loc) (m i : loc) :
  list.last merged = Some m ->
  merge_iteration threshold (h, merged) i =
    if ltb (sub (start_time (h i)) (end_time (h m))) threshold
    then Ok (<[m := set_end_time (h m) (end_time (h i))]> h, merged)
    else Ok (h, merged ++ [i]).
Proof. intros E. unfold merge_iteration. by rewrite E. Qed.

Lemma merge_loop_frame threshold (locs : list loc) :
  forall (h : store F) (merged : list loc),
    merged <> [] ->
    exists (h' : store F) (extra : list loc),
      for_each (merge_iteration threshold) locs (h, merged) = Ok (h', merged ++ extra)
      /\ sublist extra locs
      /\ (forall a, start_time (h' a) = start_time (h a)
                    /\ speaker (h' a) = speaker (h a))
      /\ (forall a, a ∉ merged ++ extra -> h' a = h a).
Proof.
  induction locs as [|i locs IH]; intros h merged Hne.
  - exists h, []. rewrite app_nil_r. by split_and!.
  - cbn [for_each].
    destruct (list.last merged) as [m|] eqn:Em.
    2:{ by apply last_None in Em. }
    assert (Hm : m ∈ merged).
    { apply last_Some in Em as [l' ->]. apply elem_of_app. right. left. }
    rewrite (merge_iteration_last _ _ _ _ _ Em).
    destruct (ltb _ _); csimpl.
    + destruct (IH (<[m:=set_end_time (h m) (end_time (h i))]> h) merged Hne)
        as (h' & extra & -> & Hsub & Hkeep & Hframe).
      exists h', extra. split_and!; [done|by apply sublist_cons| |].
      * intros a. destruct (Hkeep a) as [-> ->].
        destruct (decide (m = a)) as [<-|Hne'].
        -- by rewrite store_insert_eq.
        -- by rewrite store_insert_ne.
      * intros a Ha. rewrite (Hframe a Ha). apply store_insert_ne.
        intros <-. apply Ha. apply elem_of_app. by left.
    + destruct (IH h (merged ++ [i])) as (h' & extra & E & Hsub & Hkeep & Hframe).
      { by destruct merged. }
      exists h', (i :: extra). rewrite E, <- app_assoc.
      split_and!; [done|by apply sublist_skip|done|].
      intros a Ha. apply Hframe. by rewrite <- app_assoc.
Qed.
End MergerFrame.

(** X5.  On object references the merger never fails on a non-empty list,
    whether or not the list holds an object twice.  The list it returns
    starts with [l[0]] and continues with a subsequence of [l[1:]]: it
    shares its records with the argument.  The call writes to the store:
    it leaves the start and the label of every record alone, and changes
    (the end of) no record outside the returned list. *)
Theorem merge_close_numbers_refs_frame :
  forall (F : Type) (N : PyNum F) (h : store F) (l0 : loc) (tl : list loc)
         (threshold : F),
  exists (h' : store F) (extra : list loc),
    merge_close_numbers_refs h (l0 :: tl) threshold = Ok (h', l0 :: extra)
    /\ sublist extra tl
    /\ (forall a, start_time (h' a) = start_time (h a)
                  /\ speaker (h' a) = speaker (h a))
    /\ (forall a, a ∉ l0 :: extra -> h' a = h a).
Proof.
  intros F N h l0 tl threshold. unfold merge_close_numbers_refs.
  destruct (merge_loop_frame threshold tl h [l0]) as (h' & extra & E & ?); [done|].
  by exists h', extra.
Qed.

(** ** The Overlap Analyzer: bounds and edge cases *)

Section OverlapLabels.
Context `{PyNum F}.

Lemma qualifying_times (info info' : list (speaker_tuple F)) :
  fst <$> info = fst <$> info' -> qualifying info = qualifying info'.
Proof.
  revert info'. induction info as [|a info IH]; intros [|a' info'] E; try done.
  injection E as Ea E. destruct info as [|b info], info' as [|b' info']; try done.
  rewrite !qualifying_cons2, (IH (b' :: info') E).
  injection E as Eb _. unfold pair_overlap. by rewrite Ea, Eb.
Qed.
End OverlapLabels.

(** X6.  The analyser never reads the labels: two inputs with the same
    starts and durations get the same result, so overlap between two
    consecutive segments of one speaker counts like overlap between two
    speakers. *)
Theorem overlap_duration_ignores_labels :
  forall (F : Type) (N : PyNum F) (info info' : list (speaker_tuple F)),
    fst <$> info = fst <$> info' ->
    overlap_duration info = overlap_duration info'.
Proof.
  intros F N info info' E.
  by rewrite !overlap_duration_unfold, (qualifying_times info info' E).
Qed.

Lemma overlap_duration_ignores_labels_witness :
  overlap_duration [(0%Q, 2%Q, "A"); (1%Q, 2%Q, "A")]
  = overlap_duration [(0%Q, 2%Q, "A"); (1%Q, 2%Q, "B")].
Proof. apply overlap_duration_ignores_labels. reflexivity. Defined.

(** The qualifying intervals of segments that do not start before 0. *)
Lemma qualifying_positive (info : list (speaker_tuple Q)) :
  (forall t, t ∈ info -> (0 <= t.1.1)%Q) ->
  Forall (fun o : Q * Q => (0 <= o.1)%Q /\ (o.1 < o.2)%Q) (qualifying info).
Proof.
  induction info as [|a info IH]; intros Hpos; [constructor|].
  destruct info as [|b info]; [constructor|]. rewrite qualifying_cons2.
  assert (IH' := IH (fun t Ht => Hpos t (list_elem_of_further _ _ _ Ht))).
  unfold pair_overlap. cbn zeta.
  destruct (py_max_Q a.1.1 b.1.1) as (M1 & _ & _).
  assert (0 <= a.1.1)%Q by (apply Hpos; left).
  destruct (ltb _ _) eqn:E; [|done].
  apply Qltb_lt in E. constructor; [|done]. cbn [fst snd]. split; [lra|done].
Qed.

Lemma last_positive (os : list (Q * Q)) (d : Q) :
  Forall (fun o : Q * Q => (0 <= o.1)%Q /\ (o.1 < o.2)%Q) os ->
  os <> [] -> (0 < List.last (snd <$> os) d)%Q.
Proof.
  induction os as [|[s e] os IH]; intros Hall Hne; [done|].
  apply list.Forall_cons in Hall as [[H0 Hse] Hall].
  rewrite fmap_cons, last_cons_default. destruct os as [|o os]; [cbn in *; lra|].
  specialize (IH Hall ltac:(done)).
  rewrite fmap_cons, last_cons_default in IH. by rewrite fmap_cons, last_cons_default.
Qed.

(** X8.  When no segment starts below 0 the analyser returns for every
    input, ordered or not, in binary64 as in exact arithmetic: the
    division by [last_end] cannot fail, because every qualifying interval
    ends above a start, hence above 0. *)
Theorem overlap_duration_total_function :
  (forall info : list (speaker_tuple float),
      (forall t, t ∈ info -> PrimFloat.ltb t.1.1 0 = false) ->
      exists total relative : float, overlap_duration info = Ok (total, relative))
  /\ (forall info : list (speaker_tuple Q),
         (forall t, t ∈ info -> (0 <= t.1.1)%Q) ->
         (exists total relative : Q, overlap_duration info = Ok (total, relative))
         /\ (qualifying info <> [] -> (0 < final_last_end (qualifying info))%Q)).
Proof.
  split.
  - intros info Hpos.
    apply overlap_duration_returns; [apply float_positive_divisors|exact Hpos].
  - intros info Hpos. split.
    + apply overlap_duration_returns; [apply Q_positive_divisors|].
      intros t Ht. apply Qltb_ge. by apply Hpos.
    + intros Hne. apply last_positive; [by apply qualifying_positive|done].
Qed.

Lemma overlap_duration_total_function_witness :
  exists total relative : float,
    overlap_duration unsorted_float = Ok (total, relative).
Proof.
  apply (proj1 overlap_duration_total_function unsorted_float).
  intros t Ht. repeat (apply elem_of_cons in Ht as [->|Ht]; [reflexivity|]).
  by apply elem_of_nil in Ht.
Defined.

(** Two segments yield no interval exactly when one of them is empty or
    one ends no later than the other starts. *)
Lemma pair_overlap_none (a b : speaker_tuple Q) :
  pair_overlap a b = None
  <-> ((a.1.2 <= 0)%Q \/ (b.1.2 <= 0)%Q
       \/ (a.1.1 + a.1.2 <= b.1.1)%Q \/ (b.1.1 + b.1.2 <= a.1.1)%Q).
Proof.
  unfold pair_overlap. cbn zeta.
  destruct (py_max_Q a.1.1 b.1.1) as (M1 & M2 & M3).
  destruct (py_min_Q (add a.1.1 a.1.2) (add b.1.1 b.1.2)) as (m1 & m2 & m3).
  cbn [add Q_PyNum] in *.
  destruct (ltb _ _) eqn:E; cbn [ltb Q_PyNum] in E.
  - apply Qltb_lt in E. split; [done|]. intros Hc. exfalso. lra.
  - apply Qltb_ge in E. split; [|done]. intros _.
    destruct M3 as [Ea|Eb], m3 as [ea|eb].
    + left. rewrite Ea, ea in E. lra.
    + right; right; right. rewrite Ea, eb in E. lra.
    + right; right; left. rewrite Eb, ea in E. lra.
    + right; left. rewrite Eb, eb in E. lra.
Qed.

(** X9.  Over the rationals: when in every pair of consecutive segments
    one segment is empty or one ends no later than the other starts, no
    interval qualifies and the analyser returns total 0 and relative
    overlap 0. *)
Theorem overlap_duration_zero_case :
  forall info : list (speaker_tuple Q),
    adjacent (fun a b : speaker_tuple Q =>
                (a.1.2 <= 0)%Q \/ (b.1.2 <= 0)%Q
                \/ (a.1.1 + a.1.2 <= b.1.1)%Q \/ (b.1.1 + b.1.2 <= a.1.1)%Q) info ->
    qualifying info = [] /\ overlap_duration info = Ok (0%Q, 0%Q).
Proof.
  intros info Hadj.
  assert (Hq : qualifying info = []).
  { induction info as [|a info IH]; [done|]. destruct info as [|b info]; [done|].
    destruct Hadj as [Hab Hadj]. rewrite qualifying_cons2.
    apply pair_overlap_none in Hab. rewrite Hab. by apply IH. }
  split; [done|]. by rewrite overlap_duration_unfold, Hq.
Qed.

Lemma overlap_duration_zero_case_witness :
  overlap_duration [(0%Q, 1%Q, "A"); (1%Q, 2%Q, "B"); (5%Q, 1%Q, "A")] = Ok (0%Q, 0%Q).
Proof.
  apply (overlap_duration_zero_case [(0%Q, 1%Q, "A"); (1%Q, 2%Q, "B"); (5%Q, 1%Q, "A")]).
  cbn. split_and!; [right; right; left; lra..|done].
Defined.

(** ** The RTTM codec: accuracy and the text of a file *)

(** X10.  In binary64 as in exact arithmetic, [:.2f] writes a token that
    [float] reads, for every number, NaN and the infinities included.  In
    every number model with this property the line of every record parses,
    whatever its start and end, when label and file identifier are ASCII
    tokens: the label comes back unchanged and the two numbers are what
    [float] reads from the two printed texts.  In binary64 the record
    (-0.0, inf) is written with the numbers -0.00 and inf and read back
    as (-0.0, inf), and the record (-inf, 1.0) with -inf and inf. *)
Theorem rttm_line_reads_back :
  (forall (F : Type) (N : PyNum F) (T : PyText F) (file_id : string) (r : segment F),
      ascii_token file_id -> ascii_token (speaker r) ->
      (forall x : F, token (format_2f x) /\ is_Some (py_float (format_2f x))) ->
      exists s d : F,
        py_float (format_2f (start_time r)) = Some s
        /\ py_float (format_2f (sub (end_time r) (start_time r))) = Some d
        /\ parse_rttm_lines [list_to_rttm_string file_id r] = Ok [(s, d, speaker r)])
  /\ (forall x : float,
         token (format_2f x) /\ is_Some (py_float (F:=float) (format_2f x)))
  /\ (forall x : Q,
         token (format_2f x) /\ is_Some (py_float (F:=Q) (format_2f x)))
  /\ (list_to_rttm_string "f" (Seg neg_zero infinity "A")
      = "SPEAKER f 1 -0.00 inf <NA> <NA> A <NA> <NA>"
      /\ parse_rttm_lines [list_to_rttm_string "f" (Seg neg_zero infinity "A")]
         = Ok [(neg_zero, infinity, "A")]
      /\ list_to_rttm_string "f" (Seg neg_infinity 1.0%float "A")
         = "SPEAKER f 1 -inf inf <NA> <NA> A <NA> <NA>"
      /\ parse_rttm_lines [list_to_rttm_string "f" (Seg neg_infinity 1.0%float "A")]
         = Ok [(neg_infinity, infinity, "A")]).
Proof.
  split; [|split; [|split]];
    [|intros x; apply float_format_2f_readable|intros x; apply Q_format_2f_readable
     |split_and!; vm_compute; reflexivity].
  intros F N T file_id r [Hid _] [Hlabel _] Hfmt.
  destruct (Hfmt (start_time r)) as [Hts [s Ps]].
  destruct (Hfmt (sub (end_time r) (start_time r))) as [Htd [d Pd]].
  exists s, d. split_and!; [done|done|].
  unfold parse_rttm_lines. cbn [for_each].
  by rewrite (parse_serialized file_id r s d).
Qed.

Lemma rttm_line_reads_back_witness :
  exists s d : float,
    py_float (format_2f 0.125%float) = Some s
    /\ py_float (format_2f (sub 1.3%float 0.125%float)) = Some d
    /\ parse_rttm_lines [list_to_rttm_string "rec01" everyday_record_float]
       = Ok [(s, d, "spk_0")].
Proof.
  apply (proj1 rttm_line_reads_back float _ _ "rec01" everyday_record_float).
  - split; [split; [discriminate|reflexivity]|reflexivity].
  - split; [split; [discriminate|reflexivity]|reflexivity].
  - apply rttm_line_reads_back.
Defined.

Section FileText.
Context `{PyNum F} `{PyText F}.
Implicit Types (s t line : string) (c : ascii).

Lemma rstrip_app_space s c :
  is_space c = true -> rstrip (s ++ String c EmptyString) = rstrip s.
Proof.
  intros Hc. induction s as [|a s IH]; cbn [append rstrip].
  - by rewrite Hc.
  - by rewrite IH.
Qed.

Lemma lstrip_app_space s c :
  is_space c = true ->
  lstrip (s ++ String c EmptyString)
  = match lstrip s with
    | EmptyString => EmptyString
    | t => (t ++ String c EmptyString)%string
    end.
Proof.
  intros Hc. induction s as [|a s IH]; cbn [append lstrip].
  - by rewrite Hc.
  - destruct (is_space a); [done|]. done.
Qed.

(** A trailing whitespace character does not change what [strip] gives. *)
Lemma strip_app_space s c :
  is_space c = true -> strip (s ++ String c EmptyString) = strip s.
Proof.
  intros Hc. unfold strip. rewrite lstrip_app_space by done.
  destruct (lstrip s) as [|a t] eqn:E; [done|]. by rewrite rstrip_app_space.
Qed.

Lemma parse_rttm_line_line_feed line :
  parse_rttm_line (F:=F) (line ++ String LF EmptyString) = parse_rttm_line line.
Proof. unfold parse_rttm_line. by rewrite strip_app_space. Qed.

(** The lines [readlines] finds in lines joined by line feeds. *)
Lemma readlines_cons_line s t :
  all_chars (fun c => negb (Ascii.eqb c LF)) s = true ->
  readlines (s ++ String LF t) = (s ++ String LF EmptyString)%string :: readlines t.
Proof.
  induction s as [|a s IH]; cbn [all_chars append readlines].
  - intros _. by rewrite Ascii.eqb_refl.
  - rewrite andb_true_iff. intros [Ha Hs]. apply negb_true_iff in Ha.
    by rewrite Ha, (IH Hs).
Qed.

Lemma readlines_one_line s :
  s <> EmptyString ->
  all_chars (fun c => negb (Ascii.eqb c LF)) s = true ->
  readlines s = [s].
Proof.
  induction s as [|a s IH]; [done|]. intros _. cbn [all_chars readlines].
  rewrite andb_true_iff. intros [Ha Hs]. apply negb_true_iff in Ha. rewrite Ha.
  destruct s as [|b s]; [done|]. by rewrite IH.
Qed.

Lemma parse_rttm_lines_ext (lines lines' : list string) :
  Forall2 (fun l l' => parse_rttm_line (F:=F) l = parse_rttm_line l') lines lines' ->
  parse_rttm_lines (F:=F) lines = parse_rttm_lines lines'.
Proof.
  intros Hall. unfold parse_rttm_lines.
  enough (Hacc : forall acc : list (speaker_tuple F),
             for_each (fun speaker_info line =>
                         t ← parse_rttm_line line; Ok (speaker_info ++ [t]))
                      lines acc
             = for_each (fun speaker_info line =>
                           t ← parse_rttm_line line; Ok (speaker_info ++ [t]))
                        lines' acc) by apply Hacc.
  induction Hall as [|l l' lines lines' Hl _ IH]; intros acc; [done|].
  cbn [for_each]. rewrite Hl. destruct (parse_rttm_line l') as [t|e]; [|done].
  csimpl. apply IH.
Qed.

Lemma readlines_join (lines : list string) :
  Forall (fun l => l <> EmptyString
                   /\ all_chars (fun c => negb (Ascii.eqb c LF)) l = true) lines ->
  Forall2 (fun l l' => parse_rttm_line (F:=F) l = parse_rttm_line l')
          (readlines (join (String LF EmptyString) lines)) lines
  /\ (lines <> [] ->
      Forall2 (fun l l' => parse_rttm_line (F:=F) l = parse_rttm_line l')
              (readlines (join (String LF EmptyString) lines ++ String LF EmptyString))
              lines).
Proof.
  induction 1 as [|l lines [Hne Hl] Hall [IH1 IH2]]; [by split|].
  destruct lines as [|l2 lines].
  - cbn [join]. split.
    + rewrite readlines_one_line by done. by repeat constructor.
    + intros _. rewrite readlines_cons_line by done. cbn [readlines].
      constructor; [apply parse_rttm_line_line_feed|constructor].
  - change (join (String LF EmptyString) (l :: l2 :: lines))
      with (l ++ String LF (join (String LF EmptyString) (l2 :: lines)))%string.
    split.
    + rewrite readlines_cons_line by done.
      constructor; [apply parse_rttm_line_line_feed|done].
    + intros _. rewrite append_assoc. cbn [append].
      rewrite readlines_cons_line by done.
      constructor; [apply parse_rttm_line_line_feed|by apply IH2].
Qed.
End FileText.

(** X11.  The text of a file is read line by line: for lines that are not
    empty and hold no line feed, parsing the lines joined by line feeds
    gives what parsing the list of lines gives, and a line feed after the
    last line changes nothing.  The empty text parses to the empty list;
    the text that is one line feed does not parse (IndexError). *)
Theorem parse_rttm_file_of_joined_lines :
  forall (F : Type) (N : PyNum F) (T : PyText F) (lines : list string),
    Forall (fun l => l <> EmptyString
                     /\ all_chars (fun c => negb (Ascii.eqb c LF)) l = true) lines ->
    parse_rttm_file (F:=F) (join (String LF EmptyString) lines)
    = parse_rttm_lines lines
    /\ (lines <> [] ->
        parse_rttm_file (F:=F) (join (String LF EmptyString) lines ++ String LF EmptyString)
        = parse_rttm_lines lines)
    /\ parse_rttm_file (F:=F) EmptyString = Ok []
    /\ parse_rttm_file (F:=F) (String LF EmptyString) = Raise IndexError.
Proof.
  intros F N T lines Hlines. destruct (readlines_join (F:=F) lines Hlines) as [H1 H2].
  unfold parse_rttm_file. split_and!; [|intros Hne|done|done].
  - by apply parse_rttm_lines_ext.
  - by apply parse_rttm_lines_ext, H2.
Qed.

Lemma parse_rttm_file_of_joined_lines_witness :
  parse_rttm_file (F:=Q)
    (join (String LF EmptyString)
       ["SPEAKER f 1 0.00 1.00 <NA> <NA> A <NA> <NA>";
        "SPEAKER f 1 0.50 1.00 <NA> <NA> B <NA> <NA>"])
  = parse_rttm_lines ["SPEAKER f 1 0.00 1.00 <NA> <NA> A <NA> <NA>";
                      "SPEAKER f 1 0.50 1.00 <NA> <NA> B <NA> <NA>"].
Proof.
  refine (proj1 (parse_rttm_file_of_joined_lines Q _ _
                   ["SPEAKER f 1 0.00 1.00 <NA> <NA> A <NA> <NA>";
                    "SPEAKER f 1 0.50 1.00 <NA> <NA> B <NA> <NA>"] _)).
  repeat constructor; discriminate.
Defined.

Section FirstFailure.
Context `{PyNum F} `{PyText F}.

Lemma parse_rttm_lines_app_from (good : list string) :
  forall (acc : list (speaker_tuple F)) (rest : list string),
    Forall (fun line => ~ malformed (F:=F) line) good ->
    exists recs,
      Forall2 line_tuple good recs
      /\ for_each (fun speaker_info line =>
                     t ← parse_rttm_line line; Ok (speaker_info ++ [t]))
                  (good ++ rest) acc
         = for_each (fun speaker_info line =>
                       t ← parse_rttm_line line; Ok (speaker_info ++ [t]))
                    rest (acc ++ recs).
Proof.
  induction good as [|line good IH]; intros acc rest Hgood.
  - exists []. by rewrite app_nil_r.
  - apply list.Forall_cons in Hgood as [Hline Hgood]. cbn [app for_each].
    destruct (parse_rttm_line_cases (F:=F) line) as [(t & -> & Ht & _)|(e & _ & _ & Hm)];
      [|done].
    csimpl. destruct (IH (acc ++ [t]) rest Hgood) as (recs & Hrecs & ->).
    exists (t :: recs). rewrite <- app_assoc. split; [by constructor|done].
Qed.
End FirstFailure.

(** X12.  Parsing stops at the first malformed line and raises what that
    line raises; the tuples read before it are lost, the lines after it
    are not looked at.  A line of whitespace only (a blank line in the
    file) is such a line: it raises IndexError. *)
Theorem parse_rttm_first_malformed_line :
  forall (F : Type) (N : PyNum F) (T : PyText F)
         (good : list string) (bad : string) (rest : list string) (e : exn),
    Forall (fun line => ~ malformed (F:=F) line) good ->
    (parse_rttm_line (F:=F) bad = Raise e
     -> parse_rttm_lines (F:=F) (good ++ bad :: rest) = Raise e)
    /\ (all_chars is_space bad = true
        -> parse_rttm_lines (F:=F) (good ++ bad :: rest) = Raise IndexError).
Proof.
  intros F N T good bad rest e Hgood.
  assert (Hstop : forall e', parse_rttm_line (F:=F) bad = Raise e'
                             -> parse_rttm_lines (F:=F) (good ++ bad :: rest) = Raise e').
  { intros e' Hbad. unfold parse_rttm_lines.
    destruct (parse_rttm_lines_app_from good [] (bad :: rest) Hgood) as (recs & _ & ->).
    cbn [for_each]. by rewrite Hbad. }
  split; [apply Hstop|]. intros Hblank. apply Hstop.
  assert (Hsplit : forall s, all_chars is_space s = true -> split_ws s = []).
  { induction s as [|c s IH]; [done|]. cbn [all_chars]. rewrite andb_true_iff.
    intros [Hc Hs]. by rewrite split_ws_cons, Hc, IH. }
  assert (Hstrip : forall s, all_chars is_space s = true -> all_chars is_space (strip s) = true).
  { intros s Hs. unfold strip.
    assert (Hl : lstrip s = EmptyString).
    { induction s as [|c s IH]; [done|]. cbn [all_chars] in Hs.
      apply andb_true_iff in Hs as [Hc Hs]. cbn [lstrip]. by rewrite Hc, IH. }
    by rewrite Hl. }
  unfold parse_rttm_line. by rewrite (Hsplit _ (Hstrip _ Hblank)).
Qed.

Lemma parse_rttm_first_malformed_line_witness :
  parse_rttm_lines (F:=Q)
    ["SPEAKER f 1 0.00 1.00 <NA> <NA> A <NA> <NA>"; String LF EmptyString;
     "SPEAKER f 1 x 1.00 <NA> <NA> B <NA> <NA>"]
  = Raise IndexError.
Proof.
  apply (parse_rttm_first_malformed_line Q _ _
           ["SPEAKER f 1 0.00 1.00 <NA> <NA> A <NA> <NA>"] (String LF EmptyString)
           ["SPEAKER f 1 x 1.00 <NA> <NA> B <NA> <NA>"] IndexError).
  - constructor; [|constructor].
    intros [L|[(p & Hp & Fp)|(p & Hp & Fp)]].
    + vm_compute in L. lia.
    + vm_compute in Hp. injection Hp as <-. vm_compute in Fp. discriminate.
    + vm_compute in Hp. injection Hp as <-. vm_compute in Fp. discriminate.
  - reflexivity.
Defined.

(** ** Speaker counting *)

Section CountFacts.
Implicit Types (lines : list string) (line : string) (acc : gset string).

Lemma elem_of_counted_lines content line :
  line ∈ counted_lines content
  <-> line ∈ split_on (String LF EmptyString) content /\ line <> EmptyString.
Proof.
  unfold counted_lines. rewrite !list_elem_of_In, filter_In.
  destruct line; cbn; intuition congruence.
Qed.

Lemma speaker_field_none line :
  speaker_field line = None <-> length (split_on " " line) < 8.
Proof.
  unfold speaker_field. rewrite lookup_ge_None. lia.
Qed.

(** The loop adds field 7 of every line to the set, and fails at the
    first line that has no field 7. *)
Lemma count_loop lines :
  forall acc,
    (Forall (fun line => is_Some (speaker_field line)) lines ->
     for_each (fun (speakers : gset string) line =>
                 p ← index (split_on " " line) 7; Ok (speakers ∪ {[p]}))
              lines acc
     = Ok (acc ∪ list_to_set (omap speaker_field lines)))
    /\ (Exists (fun line => speaker_field line = None) lines ->
        for_each (fun (speakers : gset string) line =>
                    p ← index (split_on " " line) 7; Ok (speakers ∪ {[p]}))
                 lines acc
        = Raise IndexError).
Proof.
  induction lines as [|line lines IH]; intros acc.
  - split; [|by intros ?%Exists_nil]. intros _. cbn. by rewrite (right_id_L ∅ (∪)).
  - cbn [for_each].
    assert (Hidx : index (split_on " " line) 7
                   = match speaker_field line with
                     | Some p => Ok p
                     | None => Raise IndexError
                     end) by done.
    rewrite Hidx. clear Hidx.
    destruct (speaker_field line) as [p|] eqn:E; csimpl.
    + destruct (IH (acc ∪ {[p]})) as [IHok IHbad]. split.
      * intros Hall. apply list.Forall_cons in Hall as [_ Hall].
        rewrite (IHok Hall). csimpl. rewrite E. cbn [list_to_set].
        by rewrite (assoc_L (∪)).
      * intros Hex. apply Exists_cons in Hex as [Hex|Hex]; [congruence|].
        by apply IHbad.
    + split; [|done]. intros Hall. apply list.Forall_cons in Hall as [[? ?] _].
      congruence.
Qed.

Lemma fields_cases lines :
  Forall (fun line => is_Some (speaker_field line)) lines
  \/ Exists (fun line => speaker_field line = None) lines.
Proof.
  induction lines as [|line lines [IH|IH]]; [by left| |right; by constructor 2].
  destruct (speaker_field line) eqn:E; [left|right].
  - constructor; [by rewrite E|done].
  - by constructor.
Qed.

Lemma count_speaker_from_rttm_unfold content :
  count_speaker_from_rttm content
  = if decide (Forall (fun line => is_Some (speaker_field line)) (counted_lines content))
    then Ok (size (list_to_set (C:=gset string)
                     (omap speaker_field (counted_lines content))))
    else Raise IndexError.
Proof.
  unfold count_speaker_from_rttm. fold (counted_lines content).
  destruct (count_loop (counted_lines content) ∅) as [Hok Hbad].
  destruct (decide _) as [Hall|Hnot].
  - rewrite (Hok Hall). csimpl. by rewrite (left_id_L ∅ (∪)).
  - destruct (fields_cases (counted_lines content)) as [?|Hex]; [done|].
    by rewrite (Hbad Hex).
Qed.

Lemma size_list_to_set_le (l : list string) :
  size (list_to_set (C:=gset string) l) <= length l.
Proof.
  induction l as [|x l IH]; [done|]. cbn [list_to_set length].
  rewrite size_union_alt, size_singleton.
  assert (size (list_to_set (C:=gset string) l ∖ {[x]}) <= size (list_to_set (C:=gset string) l)).
  { apply subseteq_size, subseteq_difference_l. done. }
  lia.
Qed.

Lemma omap_length_le {A B} (f : A -> option B) (l : list A) :
  length (omap f l) <= length l.
Proof.
  induction l as [|x l IH]; [done|]. csimpl. destruct (f x); cbn; lia.
Qed.
End CountFacts.

(** X13.  [count_speaker_from_rttm] fails exactly when some non-empty
    line of the file has fewer than 8 pieces between single blanks, and
    then with IndexError; the empty lines are skipped. *)
Theorem count_speaker_from_rttm_fails_iff :
  forall content : string,
    (count_speaker_from_rttm content = Raise IndexError
     <-> exists line, line ∈ split_on (String LF EmptyString) content
                      /\ line <> EmptyString
                      /\ length (split_on " " line) < 8)
    /\ (forall e, count_speaker_from_rttm content = Raise e -> e = IndexError).
Proof.
  intros content. rewrite count_speaker_from_rttm_unfold.
  assert (Hex : (exists line, line ∈ split_on (String LF EmptyString) content
                              /\ line <> EmptyString
                              /\ length (split_on " " line) < 8)
                <-> Exists (fun line => speaker_field line = None) (counted_lines content)).
  { rewrite Exists_exists. split.
    - intros (line & Hin & Hne & Hlen). exists line. split.
      + by apply elem_of_counted_lines.
      + by apply speaker_field_none.
    - intros (line & Hin & Hnone). exists line.
      apply elem_of_counted_lines in Hin as [Hin Hne].
      split_and!; [done..|]. by apply speaker_field_none. }
  destruct (decide _) as [Hall|Hnot].
  - split; [|done]. split; [done|]. intros Hbad. apply Hex in Hbad. exfalso.
    apply Exists_exists in Hbad as (line & Hin & Hnone).
    rewrite Forall_forall in Hall. specialize (Hall line Hin) as [? ?]. congruence.
  - split; [|by intros e [= <-]]. split; [|done]. intros _. apply Hex.
    by destruct (fields_cases (counted_lines content)).
Qed.

(** X14.  When [count_speaker_from_rttm] returns, the number is that of
    the distinct values of field 7 and is at most the number of non-empty
    lines.  The result depends only on which non-empty lines the file
    holds, not on their order or on how often a line occurs. *)
Theorem count_speaker_from_rttm_counts_distinct :
  forall content : string,
    (forall n, count_speaker_from_rttm content = Ok n ->
               n = size (list_to_set (C:=gset string)
                           (omap speaker_field (counted_lines content)))
               /\ n <= length (counted_lines content))
    /\ (forall content' : string,
           (forall line, line ∈ counted_lines content <-> line ∈ counted_lines content') ->
           count_speaker_from_rttm content = count_speaker_from_rttm content').
Proof.
  intros content. split.
  - intros n. rewrite count_speaker_from_rttm_unfold.
    destruct (decide _) as [Hall|]; [|done]. intros [= <-]. split; [done|].
    etrans; [apply size_list_to_set_le|]. apply omap_length_le.
  - intros content' Hsame. rewrite !count_speaker_from_rttm_unfold.
    assert (Hall : Forall (fun line => is_Some (speaker_field line)) (counted_lines content)
                   <-> Forall (fun line => is_Some (speaker_field line))
                              (counted_lines content')).
    { rewrite !list.Forall_forall. split; intros Hall line Hin; apply Hall; by apply Hsame. }
    destruct (decide _) as [H1|H1], (decide _) as [H2|H2]; try done.
    + f_equal. f_equal. apply set_eq. intros p.
      rewrite !elem_of_list_to_set, !list_elem_of_omap.
      split; intros (line & Hin & Hp); exists line; (split; [by apply Hsame|done]).
    + by apply Hall in H1.
    + by apply Hall in H2.
Qed.

Lemma count_speaker_from_rttm_counts_distinct_witness :
  count_speaker_from_rttm
    (join (String LF EmptyString)
       ["S f 1 0.00 1.00 <NA> <NA> A <NA> <NA>"; "S f 1 2.00 1.00 <NA> <NA> B <NA> <NA>"])
  = count_speaker_from_rttm
      (join (String LF EmptyString)
         ["S f 1 2.00 1.00 <NA> <NA> B <NA> <NA>"; EmptyString;
          "S f 1 0.00 1.00 <NA> <NA> A <NA> <NA>";
          "S f 1 2.00 1.00 <NA> <NA> B <NA> <NA>"]).
Proof.
  apply count_speaker_from_rttm_counts_distinct.
  intros line. vm_compute counted_lines.
  rewrite !elem_of_cons, !elem_of_nil. tauto.
Defined.

(** X15.  When both files can be counted,
    [compare_speaker_amount_of_two_files] returns the two counts in the
    order of its arguments and, third, the quotient of the second count
    by the first in the number model (not first by second); it raises
    ZeroDivisionError when the first file has no speaker, as when it holds
    no non-empty line.  In binary64 a file with three speakers and one
    with one speaker give (3, 1, 0.3333333333333333) and, in the other
    order, (1, 3, 3.0). *)
Theorem compare_speaker_amount_ratio :
  (forall (F : Type) (N : PyNum F) (I : PyInt F) (rttm_a rttm_b : string) (a b : nat),
      count_speaker_from_rttm rttm_a = Ok a ->
      count_speaker_from_rttm rttm_b = Ok b ->
      (a = 0 ->
       compare_speaker_amount_of_two_files (F:=F) rttm_a rttm_b
       = Raise ZeroDivisionError)
      /\ (forall ratio : F,
             a <> 0 -> div (of_int b) (of_int a) = Some ratio ->
             compare_speaker_amount_of_two_files rttm_a rttm_b = Ok (a, b, ratio))
      /\ (counted_lines rttm_a = [] -> a = 0))
  /\ compare_speaker_amount_of_two_files (F:=float) three_speakers_rttm one_speaker_rttm
     = Ok (3, 1, 0.3333333333333333%float)
  /\ compare_speaker_amount_of_two_files (F:=float) one_speaker_rttm three_speakers_rttm
     = Ok (1, 3, 3.0%float)
  /\ compare_speaker_amount_of_two_files (F:=Q) three_speakers_rttm one_speaker_rttm
     = Ok (3, 1, (1 # 3)%Q).
Proof.
  split; [|split_and!; vm_compute; reflexivity].
  intros F N I rttm_a rttm_b a b Ha Hb. unfold compare_speaker_amount_of_two_files.
  rewrite Ha, Hb. csimpl. split_and!.
  - by intros ->.
  - intros ratio Hne Hdiv. destruct a as [|a']; [done|]. cbn [true_div].
    by rewrite Hdiv.
  - intros Hnone. rewrite count_speaker_from_rttm_unfold, Hnone in Ha.
    destruct (decide _); [|done]. by injection Ha as <-.
Qed.

Lemma compare_speaker_amount_ratio_witness :
  compare_speaker_amount_of_two_files (F:=float) EmptyString one_speaker_rttm
  = Raise ZeroDivisionError.
Proof.
  apply (proj1 compare_speaker_amount_ratio float _ _
           EmptyString one_speaker_rttm 0 1); reflexivity.
Defined.

(** ** The converter on every table *)

Section ConverterTotal.
Context `{PyNum F} `{PyText F}.

(** A data line is rejected when it does not split into five pieces at
    [", "], or when [float] rejects piece 1 or piece 2. *)
Lemma read_row_None (w : string) :
  read_row (F:=F) w = None
  <-> length (split_on ", " w) <> 5
      \/ (exists p, split_on ", " w !! 1 = Some p /\ py_float (F:=F) p = None)
      \/ (exists p, split_on ", " w !! 2 = Some p /\ py_float (F:=F) p = None).
Proof.
  unfold read_row.
  destruct (split_on ", " w) as [|a [|b [|c [|d [|e [|f l]]]]]]; cbn;
    try (split; [intros _; left; lia|done]).
  destruct (py_float b) as [x|] eqn:Eb, (py_float c) as [y|] eqn:Ec; split;
    try done; try (intros _; right; eauto; fail).
  intros [?|[(p & [= <-] & ?)|(p & [= <-] & ?)]]; [lia|congruence..].
Qed.

Lemma mapM_None_exists {A B} (f : A -> option B) (l : list A) :
  mapM f l = None <-> exists x, x ∈ l /\ f x = None.
Proof.
  induction l as [|x l IH]; csimpl.
  - split; [done|]. by intros (x & Hx%elem_of_nil & _).
  - destruct (f x) as [y|] eqn:E; csimpl.
    + destruct (mapM f l) as [ys|]; csimpl.
      * split; [done|]. intros (x' & [->|Hin]%elem_of_cons & Hx'); [congruence|].
        destruct IH as [_ IH]. discriminate IH. eauto.
      * split; [|done]. intros _. destruct IH as [IH _].
        destruct (IH eq_refl) as (x' & Hin & Hx'). exists x'. split; [by right|done].
    + split; [|done]. intros _. exists x. split; [by left|done].
Qed.

Lemma read_table_None (input : string) :
  read_table (F:=F) input = None
  <-> exists w, w ∈ data_lines input /\ read_row (F:=F) w = None.
Proof. apply mapM_None_exists. Qed.
End ConverterTotal.

(** X16.  For every number model and every [float]: the converter fails
    exactly when some data line (a non-empty line after the header line)
    does not split into five pieces at comma-blank, or has a piece 1 or 2
    that [float] rejects, and the failure is a ValueError; no other
    exception comes out, in particular the IndexError of the merger on an
    empty list never does.  A text without data lines, such as a header
    alone or a header and a line feed, is converted to the empty text. *)
Theorem convert_csv_to_rttm_fails_iff :
  forall (F : Type) (N : PyNum F) (T : PyText F) (input_csv_path input : string),
    (convert_csv_to_rttm (F:=F) input_csv_path input = Raise ValueError
     <-> exists w, w ∈ data_lines input
                   /\ (length (split_on ", " w) <> 5
                       \/ (exists p, split_on ", " w !! 1 = Some p
                                     /\ py_float (F:=F) p = None)
                       \/ (exists p, split_on ", " w !! 2 = Some p
                                     /\ py_float (F:=F) p = None)))
    /\ (forall e, convert_csv_to_rttm (F:=F) input_csv_path input = Raise e
                  -> e = ValueError)
    /\ (forall header : string,
           all_chars (fun c => negb (Ascii.eqb c LF)) header = true ->
           convert_csv_to_rttm (F:=F) input_csv_path header = Ok EmptyString
           /\ convert_csv_to_rttm (F:=F) input_csv_path
                (header ++ String LF EmptyString) = Ok EmptyString).
Proof.
  intros F N T path input.
  assert (Hcases : (exists out, convert_csv_to_rttm (F:=F) path input = Ok out)
                   /\ read_table (F:=F) input <> None
                   \/ convert_csv_to_rttm (F:=F) path input = Raise ValueError
                      /\ read_table (F:=F) input = None).
  { destruct (read_table (F:=F) input) as [rows|] eqn:E.
    - left. destruct (convert_csv_to_rttm_rows path input rows E) as (m & _ & ->).
      eauto.
    - right. split; [|done]. by apply convert_csv_to_rttm_malformed. }
  split_and!.
  - assert (Hn := read_table_None (F:=F) input).
    setoid_rewrite (read_row_None (F:=F)) in Hn. rewrite <- Hn.
    destruct Hcases as [[[out E] Hs]|[E Hn']]; rewrite E; split; done.
  - intros e. destruct Hcases as [[[out E] _]|[E _]]; rewrite E; [done|].
    by intros [= <-].
  - intros header Hh.
    assert (E1 : data_lines header = []).
    { unfold data_lines. by rewrite split_char_none. }
    assert (E2 : data_lines (header ++ String LF EmptyString) = []).
    { unfold data_lines. by rewrite split_char_first. }
    unfold convert_csv_to_rttm. by rewrite E1, E2.
Qed.

Lemma convert_csv_to_rttm_fails_iff_witness :
  convert_csv_to_rttm (F:=Q) "a.csv" "Word, Start_ms, End_ms, Score, Speaker"
  = Ok EmptyString.
Proof.
  apply (convert_csv_to_rttm_fails_iff Q _ _ "a.csv" EmptyString).
  reflexivity.
Defined.

(** ** The converter's output read by the speaker counter *)

Section LineFacts.
Implicit Types (s t line fid label : string) (c : ascii) (lines : list string).

Lemma not_space_not_blank c : not_space c = true -> negb (Ascii.eqb c " ") = true.
Proof. by destruct c as [[] [] [] [] [] [] [] []]. Qed.

Lemma not_space_not_line_feed c : not_space c = true -> negb (Ascii.eqb c LF) = true.
Proof. by destruct c as [[] [] [] [] [] [] [] []]. Qed.

(** [line.split(' ')] on a serialized record. *)
Lemma pieces_of_rttm_line fid fs fd label :
  all_chars not_space fid = true -> all_chars not_space fs = true ->
  all_chars not_space fd = true -> all_chars not_space label = true ->
  split_on " " ("SPEAKER " ++ fid ++ " 1 " ++ fs ++ " " ++ fd
                ++ " <NA> <NA> " ++ label ++ " <NA> <NA>")%string
  = ["SPEAKER"; fid; "1"; fs; fd; "<NA>"; "<NA>"; label; "<NA>"; "<NA>"].
Proof.
  intros Hid Hfs Hfd Hlabel.
  change ("SPEAKER " ++ fid ++ " 1 " ++ fs ++ " " ++ fd
          ++ " <NA> <NA> " ++ label ++ " <NA> <NA>")%string
    with ("SPEAKER" ++ String " " (fid ++ String " " ("1" ++ String " "
            (fs ++ String " " (fd ++ String " " ("<NA>" ++ String " "
              ("<NA>" ++ String " " (label ++ String " "
                ("<NA>" ++ String " " "<NA>")))))))))%string.
  assert (Hnb : forall w, all_chars not_space w = true ->
                          all_chars (fun c => negb (Ascii.eqb c " ")) w = true).
  { intros w. apply all_chars_impl, not_space_not_blank. }
  rewrite !split_char_first by (by apply Hnb).
  by rewrite split_char_none.
Qed.

Lemma rttm_line_one_line fid fs fd label :
  all_chars not_space fid = true -> all_chars not_space fs = true ->
  all_chars not_space fd = true -> all_chars not_space label = true ->
  ("SPEAKER " ++ fid ++ " 1 " ++ fs ++ " " ++ fd
   ++ " <NA> <NA> " ++ label ++ " <NA> <NA>")%string <> EmptyString
  /\ all_chars (fun c => negb (Ascii.eqb c LF))
       ("SPEAKER " ++ fid ++ " 1 " ++ fs ++ " " ++ fd
        ++ " <NA> <NA> " ++ label ++ " <NA> <NA>")%string = true.
Proof.
  intros Hid Hfs Hfd Hlabel. split; [done|].
  assert (Hnl : forall w, all_chars not_space w = true ->
                          all_chars (fun c => negb (Ascii.eqb c LF)) w = true).
  { intros w. apply all_chars_impl, not_space_not_line_feed. }
  rewrite !all_chars_app, (Hnl fid), (Hnl fs), (Hnl fd), (Hnl label) by done. done.
Qed.

(** [text.split('\n')] undoes ['\n'.join(lines)] when no line holds a
    line feed and there is at least one line. *)
Lemma split_lines_join lines :
  lines <> [] ->
  Forall (fun l => all_chars (fun c => negb (Ascii.eqb c LF)) l = true) lines ->
  split_on (String LF EmptyString) (join (String LF EmptyString) lines) = lines.
Proof.
  induction lines as [|x lines IH]; [done|]. intros _ Hall.
  apply list.Forall_cons in Hall as [Hx Hall].
  destruct lines as [|y lines]; [by apply split_char_none|].
  change (join (String LF EmptyString) (x :: y :: lines))
    with (x ++ String LF (join (String LF EmptyString) (y :: lines)))%string.
  rewrite split_char_first by done. by rewrite IH.
Qed.

Lemma counted_lines_join lines :
  Forall (fun l => l <> EmptyString
                   /\ all_chars (fun c => negb (Ascii.eqb c LF)) l = true) lines ->
  counted_lines (join (String LF EmptyString) lines) = lines.
Proof.
  intros Hall. destruct lines as [|x lines]; [done|].
  unfold counted_lines. rewrite split_lines_join; [|done|].
  - apply forallb_filter_id, forallb_forall. intros l Hin%list_elem_of_In.
    rewrite list.Forall_forall in Hall. destruct (Hall l Hin) as [Hne _].
    by destruct l.
  - eapply list.Forall_impl; [exact Hall|]. by intros l [_ ?].
Qed.
End LineFacts.

Section LabelFacts.
Context `{PyNum F}.
Implicit Types (x o : segment F) (rest m : list (segment F)) (sp : string).

(** Merging records of one speaker gives records of that speaker, and at
    least one. *)
Lemma merge_from_speaker threshold sp rest :
  forall x, speaker x = sp -> Forall (fun o => speaker o = sp) rest ->
            Forall (fun o => speaker o = sp) (merge_from threshold x rest)
            /\ merge_from threshold x rest <> [].
Proof.
  induction rest as [|y rest IH]; intros x Hx Hrest; cbn [merge_from].
  - split; [by constructor|done].
  - apply list.Forall_cons in Hrest as [Hy Hrest].
    destruct (ltb _ _); [by apply IH|].
    destruct (IH y Hy Hrest) as [IH1 _]. split; [by constructor|done].
Qed.

Lemma merged_speakers (sps : list string) (merged : list (list (segment F))) :
  Forall2 (fun sp m => m <> [] /\ Forall (fun o => speaker o = sp) m) sps merged ->
  forall sp, sp ∈ speaker <$> concat merged <-> sp ∈ sps.
Proof.
  induction 1 as [|sp0 m sps merged [Hne Hm] _ IH]; intros sp; [done|].
  cbn [concat]. rewrite fmap_app, elem_of_app, elem_of_cons, IH.
  assert (Hsp : sp ∈ speaker <$> m <-> sp = sp0); [|by rewrite Hsp].
  rewrite list_elem_of_fmap. rewrite list.Forall_forall in Hm. split.
  - intros (o & -> & Ho). by apply Hm.
  - intros ->. destruct m as [|o m]; [done|]. exists o. split; [|by left].
    symmetry. apply Hm. by left.
Qed.
End LabelFacts.

Section TableLabels.
Context `{PyNum F} `{PyText F}.

Lemma sequence_of_speaker (rows : list (alignment_row F)) (sp : string) :
  Forall (fun o => speaker o = sp) (sequence_of rows sp).
Proof.
  unfold sequence_of. apply Forall_fmap, list.Forall_forall.
  by intros r [Hr _]%list_elem_of_filter.
Qed.

(** The labels of the merged groups are the speakers of the table. *)
Lemma merged_groups_speakers (rows : list (alignment_row F))
    (merged : list (list (segment F))) :
  Forall2 (fun sp m => merge_close_numbers (sequence_of rows sp) half = Ok m)
          (speakers_of rows) merged ->
  forall sp, sp ∈ speaker <$> concat merged <-> sp ∈ speakers_of rows.
Proof.
  intros Hm. apply merged_speakers.
  eapply Forall2_impl; [exact Hm|]. intros sp m Hsp. cbn in Hsp.
  pose proof (sequence_of_speaker rows sp) as Hall.
  destruct (sequence_of rows sp) as [|x rest].
  { by rewrite merge_close_numbers_nil in Hsp. }
  rewrite merge_close_numbers_cons in Hsp. injection Hsp as <-.
  apply list.Forall_cons in Hall as [Hx Hrest].
  destruct (merge_from_speaker half sp rest x Hx Hrest). done.
Qed.
End TableLabels.

(** X17.  Converting a table and counting the speakers of the RTTM text
    gives the number of distinct speakers of the table: merging and
    sorting lose no speaker and invent none.  The labels and the file id
    hold no whitespace; times are exact rationals. *)
Theorem count_speakers_of_converted_table :
  forall (input_csv_path input : string) (rows : list (alignment_row Q)),
    read_table (F:=Q) input = Some rows ->
    all_chars not_space (file_id_of input_csv_path) = true ->
    Forall (fun r => all_chars not_space (row_speaker r) = true) rows ->
    exists rttm : string,
      convert_csv_to_rttm (F:=Q) input_csv_path input = Ok rttm
      /\ count_speaker_from_rttm rttm = Ok (length (speakers_of rows)).
Proof.
  intros path input rows Hrows Hid Hlabels.
  destruct (convert_csv_to_rttm_rows path input rows Hrows) as (merged & Hm & ->).
  eexists. split; [done|].
  pose proof (merged_groups_speakers rows merged Hm) as Hsp.
  destruct (py_sorted_spec (concat merged)) as (_ & Hperm & _).
  set (sorted := py_sorted start_time (concat merged)) in *. clearbody sorted.
  assert (Hsorted : forall r, r ∈ sorted -> all_chars not_space (speaker r) = true).
  { intros r Hr. rewrite Hperm in Hr.
    assert (Hin : speaker r ∈ speakers_of rows).
    { apply Hsp, list_elem_of_fmap. eauto. }
    apply elem_of_speakers_of in Hin as (row & Hrow & <-).
    rewrite list.Forall_forall in Hlabels. by apply Hlabels. }
  assert (Hfmt : forall x : Q, all_chars not_space (format_2f x) = true).
  { intros x. apply (Q_format_2f_token x). }
  rewrite count_speaker_from_rttm_unfold, counted_lines_join; cycle 1.
  { apply Forall_fmap, list.Forall_forall. intros r Hr.
    apply rttm_line_one_line; auto. }
  assert (Hfield : forall r, r ∈ sorted ->
            speaker_field (list_to_rttm_string (file_id_of path) r) = Some (speaker r)).
  { intros r Hr. unfold speaker_field, list_to_rttm_string.
    rewrite pieces_of_rttm_line; auto. }
  assert (Homap : omap speaker_field (list_to_rttm_string (file_id_of path) <$> sorted)
                  = speaker <$> sorted).
  { clear -Hfield. induction sorted as [|r l IH]; [done|].
    cbn [omap list_omap fmap list_fmap].
    rewrite Hfield by by left. f_equal. apply IH. intros r' Hr'.
    apply Hfield. by right. }
  rewrite Homap. destruct (decide _) as [_|Hbad].
  - f_equal. rewrite <- (size_list_to_set (C:=gset string) (speakers_of rows))
      by apply NoDup_speakers_of.
    f_equal. apply set_eq. intros sp. rewrite !elem_of_list_to_set, <- Hsp.
    by rewrite Hperm.
  - exfalso. apply Hbad, Forall_fmap, list.Forall_forall. intros r Hr.
    change (is_Some (speaker_field (list_to_rttm_string (file_id_of path) r))).
    by rewrite Hfield.
Qed.

Lemma count_speakers_of_converted_table_witness :
  exists rttm : string,
    convert_csv_to_rttm (F:=Q) "/data/rec01.csv" scenario_csv = Ok rttm
    /\ count_speaker_from_rttm rttm = Ok 2.
Proof.
  apply (count_speakers_of_converted_table "/data/rec01.csv" scenario_csv
           [Row "hi" (inject_Z 0 * pow10 (0 - 1)) (inject_Z 5 * pow10 (0 - 1)) "0.9" "A";
            Row "there" (inject_Z 6 * pow10 (0 - 1)) (inject_Z 10 * pow10 (0 - 1)) "0.8" "A";
            Row "yo" (inject_Z 2 * pow10 (0 - 1)) (inject_Z 4 * pow10 (0 - 1)) "0.7" "B"]%Q).
  - reflexivity.
  - reflexivity.
  - repeat constructor.
Defined.

(** ** The converter's output read by the overlap analyser *)

(** Rounding is monotone. *)
Lemma round_half_even_mono (x y : Q) :
  (x <= y)%Q -> (round_half_even x <= round_half_even y)%Z.
Proof.
  intros Hxy. destruct (Qlt_le_dec x y) as [Hlt|Hge].
  - pose proof (round_half_even_close x) as [_ Hx].
    pose proof (round_half_even_close y) as [Hy _].
    assert (Hq : (inject_Z (round_half_even x) < inject_Z (round_half_even y + 1))%Q).
    { rewrite inject_Z_plus. change (inject_Z 1) with 1%Q. lra. }
    rewrite <- Zlt_Qlt in Hq. lia.
  - rewrite (round_half_even_comp x y); [lia|]. by apply Qle_antisym.
Qed.

Lemma hundredths_value_mono (n m : N) :
  (n <= m)%N -> (hundredths_value n <= hundredths_value m)%Q.
Proof.
  intros Hnm. pose proof (hundredths_value_eq n) as Hn.
  pose proof (hundredths_value_eq m) as Hm.
  assert (Hz : (inject_Z (Z.of_N n) <= inject_Z (Z.of_N m))%Q).
  { rewrite <- Zle_Qle. lia. }
  lra.
Qed.

Lemma hundredths_value_nonneg (n : N) : (0 <= hundredths_value n)%Q.
Proof.
  pose proof (hundredths_value_eq n) as Hn.
  assert (Hz : (inject_Z 0 <= inject_Z (Z.of_N n))%Q).
  { rewrite <- Zle_Qle. lia. }
  change (inject_Z 0) with 0%Q in Hz. lra.
Qed.

(** What [float] reads from the text of a value that is not negative. *)
Lemma Q_py_float_format_2f_nonneg (x : Q) :
  (0 <= x)%Q ->
  Q_py_float (Q_format_2f x)
  = Some (hundredths_value (Z.to_N (round_half_even (x * 100)))).
Proof.
  intros Hx. rewrite Q_format_2f_nonneg by done. apply Q_py_float_hundredths.
Qed.

Section ParseMany.
Context `{PyNum F} `{PyText F}.

Lemma parse_rttm_lines_fmap {A} (f : A -> string) (g : A -> speaker_tuple F)
    (l : list A) :
  (forall a, a ∈ l -> parse_rttm_line (f a) = Ok (g a)) ->
  parse_rttm_lines (f <$> l) = Ok (g <$> l).
Proof.
  unfold parse_rttm_lines. intros Hl.
  enough (Hacc : forall acc,
             for_each (fun speaker_info line =>
                         t ← parse_rttm_line line; Ok (speaker_info ++ [t]))
                      (f <$> l) acc = Ok (acc ++ (g <$> l))) by apply Hacc.
  induction l as [|a l IH]; intros acc; cbn [fmap list_fmap for_each].
  - by rewrite app_nil_r.
  - rewrite Hl by by left. cbn [mbind outcome_bind].
    rewrite IH; [by rewrite <- app_assoc|]. intros a' Ha'. apply Hl. by right.
Qed.

Lemma parse_rttm_file_join (lines : list string) :
  Forall (fun l => l <> EmptyString
                   /\ all_chars (fun c => negb (Ascii.eqb c LF)) l = true) lines ->
  parse_rttm_file (F:=F) (join (String LF EmptyString) lines)
  = parse_rttm_lines lines.
Proof.
  intros Hlines. unfold parse_rttm_file.
  by apply parse_rttm_lines_ext, readlines_join.
Qed.

End ParseMany.

Lemma adjacent_fmap {A B} (R : A -> A -> Prop) (R' : B -> B -> Prop) (g : A -> B)
    (l : list A) :
  (forall a b, a ∈ l -> b ∈ l -> R a b -> R' (g a) (g b)) ->
  adjacent R l -> adjacent R' (g <$> l).
Proof.
  induction l as [|a l IH]; [done|]. intros HR Hadj.
  destruct l as [|b l]; [done|]. destruct Hadj as [Hab Hadj].
  split.
  - apply HR; [by left|right; by left|done].
  - apply IH; [|done]. intros x y Hx Hy. apply HR; by right.
Qed.

(** *** The sign of a binary64 number that is read back *)

Section FloatSign.
Implicit Types (y : spec_float).

Lemma binary_round_aux_not_negative mx ex lx :
  not_negative (binary_round_aux prec emax false mx ex lx).
Proof.
  unfold binary_round_aux.
  destruct (shr_fexp prec emax mx ex lx) as [mrs' e'].
  destruct (shr_fexp prec emax _ e' loc_Exact) as [mrs'' e''].
  destruct (shr_m mrs''); [done| |done]. by destruct (Z.leb _ _).
Qed.

Lemma binary_round_not_negative mx ex :
  not_negative (binary_round prec emax false mx ex).
Proof.
  unfold binary_round. destruct (shl_align _ _ _).
  apply binary_round_aux_not_negative.
Qed.

Lemma binary_normalize_not_negative (m e : Z) :
  (0 <= m)%Z -> not_negative (binary_normalize prec emax m e false).
Proof.
  destruct m; [done| |lia]. intros _. apply binary_round_not_negative.
Qed.

Lemma SFldexp_not_negative y (e : Z) :
  not_negative y -> not_negative (SFldexp prec emax y e).
Proof.
  destruct y as [s|s| |s m ex]; try done. cbn [not_negative SFldexp].
  intros ->. apply binary_round_not_negative.
Qed.

Lemma SF2Prim_not_negative y :
  not_negative y -> not_negative (Prim2SF (SF2Prim y)).
Proof.
  destruct y as [s|s| |s m e]; cbn [not_negative]; try intros ->; try done.
  { by destruct s. }
  unfold SF2Prim, Z.ldexp. rewrite ldshiftexp_spec.
  apply SFldexp_not_negative. rewrite of_uint63_spec.
  apply binary_normalize_not_negative, Uint63.to_Z_bounded.
Qed.

Lemma not_negative_ltb y : not_negative y -> SFltb y (S754_zero false) = false.
Proof. by destruct y as [[]|[]| |[] m e]. Qed.

Lemma negative_ltb y :
  SFltb y (S754_zero false) = false -> not_negative y.
Proof. destruct y as [[]|[]| |[] m e]; cbn; intros; done || discriminate. Qed.
End FloatSign.

Lemma nearest_float_not_below_zero (x : Q) :
  PrimFloat.ltb (nearest_float false x) 0 = false.
Proof.
  rewrite FloatAxioms.ltb_spec, Prim2SF_zero. apply not_negative_ltb.
  unfold nearest_float. destruct (Qle_bool x 0) eqn:E; [done|]. cbn zeta.
  apply SF2Prim_not_negative, binary_normalize_not_negative, round_half_even_nonneg.
  assert (Hx : (0 < x)%Q).
  { apply Qnot_le_lt. intros Hle. apply Qle_bool_iff in Hle. congruence. }
  apply Qle_shift_div_l; [by apply Qpower_0_lt|]. lra.
Qed.

(** A binary64 number that is not below 0 is printed and read back as
    a number that is not below 0. *)
Lemma float_read_back_not_below_zero (x s : float) :
  PrimFloat.ltb x 0 = false ->
  float_py_float (float_format_2f x) = Some s ->
  PrimFloat.ltb s 0 = false.
Proof.
  rewrite FloatAxioms.ltb_spec, Prim2SF_zero. intros Hx%negative_ltb.
  unfold float_format_2f.
  destruct (Prim2SF x) as [sx|sx| |sx m e]; cbn [not_negative] in Hx; subst.
  - destruct sx; intros [= <-]; reflexivity.
  - intros [= <-]. reflexivity.
  - intros [= <-]. reflexivity.
  - rewrite (float_py_float_hundredths false). intros [= <-].
    apply nearest_float_not_below_zero.
Qed.

Lemma Q_read_back_not_below_zero (x s : Q) :
  ltb x zero = false -> Q_py_float (Q_format_2f x) = Some s -> ltb s zero = false.
Proof.
  cbn [ltb zero Q_PyNum]. intros Hx Ps.
  assert (H0 : (0 <= x)%Q).
  { destruct (Qlt_le_dec x 0) as [Hlt|]; [|done]. apply Qltb_lt in Hlt. congruence. }
  rewrite Q_py_float_format_2f_nonneg in Ps by done. injection Ps as <-.
  pose proof (hundredths_value_nonneg (Z.to_N (round_half_even (x * 100)))) as Hv.
  destruct (Qltb (hundredths_value _) 0) eqn:E; [|done]. apply Qltb_lt in E. lra.
Qed.

(** *** From the table to the parsed text *)

Lemma py_sorted_permutation `{PyNum F} (l : list (segment F)) :
  Permutation (py_sorted start_time l) l.
Proof.
  unfold py_sorted.
  enough (Hacc : forall acc,
             Permutation (fold_left (fun a x => insert_by start_time x a) l acc)
                         (acc ++ l)) by apply (Hacc []).
  induction l as [|x l IH]; intros acc; cbn [fold_left].
  - by rewrite app_nil_r.
  - rewrite IH, insert_by_permutation, <- app_assoc. done.
Qed.

Section Converted.
Context `{PyNum F} `{PyText F}.

(** The converter's text parses, line by line, to what [float] reads from
    the printed numbers. *)
Lemma converted_table_parses (input_csv_path input : string)
    (rows : list (alignment_row F)) :
  read_table input = Some rows ->
  ascii_token (file_id_of input_csv_path) ->
  Forall (fun r => ascii_token (row_speaker r)) rows ->
  (forall x : F, token (format_2f x) /\ is_Some (py_float (format_2f x))) ->
  exists merged : list (list (segment F)),
    Forall2 (fun sp m => merge_close_numbers (sequence_of rows sp) half = Ok m)
            (speakers_of rows) merged
    /\ convert_csv_to_rttm input_csv_path input
       = Ok (join (String LF EmptyString)
                  (list_to_rttm_string (file_id_of input_csv_path)
                     <$> py_sorted start_time (concat merged)))
    /\ parse_rttm_file
         (join (String LF EmptyString)
               (list_to_rttm_string (file_id_of input_csv_path)
                  <$> py_sorted start_time (concat merged)))
       = Ok (read_back <$> py_sorted start_time (concat merged))
    /\ Forall (fun o => exists r, r ∈ rows /\ start_time o = row_start r)
              (py_sorted start_time (concat merged)).
Proof.
  intros Hrows [Hid _] Hlabels Hfmt.
  destruct (convert_csv_to_rttm_rows input_csv_path input rows Hrows)
    as (merged & Hm & Hconv).
  exists merged. split; [done|]. split; [done|].
  pose proof (merged_groups_speakers rows merged Hm) as Hsp.
  pose proof (merged_groups_starts rows merged Hm) as Hst.
  pose proof (py_sorted_permutation (concat merged)) as Hperm.
  set (sorted := py_sorted start_time (concat merged)) in *. clearbody sorted.
  rewrite list.Forall_forall in Hlabels. rewrite list.Forall_forall in Hst.
  assert (Hsorted : forall r, r ∈ sorted -> token (speaker r)).
  { intros r Hr. rewrite Hperm in Hr.
    assert (Hin : speaker r ∈ speakers_of rows).
    { apply Hsp, list_elem_of_fmap. eauto. }
    apply elem_of_speakers_of in Hin as (row & Hrow & <-). by apply Hlabels. }
  split.
  - rewrite parse_rttm_file_join.
    + apply parse_rttm_lines_fmap. intros r Hr.
      destruct (Hfmt (start_time r)) as [Hts [s Ps]].
      destruct (Hfmt (sub (end_time r) (start_time r))) as [Htd [d Pd]].
      unfold read_back. rewrite Ps, Pd. cbn [default].
      apply parse_serialized; auto.
    + apply Forall_fmap, list.Forall_forall. intros r Hr.
      destruct (Hsorted r Hr) as [_ Hl]. destruct Hid as [_ Hid].
      apply rttm_line_one_line; [done|apply Hfmt..|done].
  - apply list.Forall_forall. intros r Hr. rewrite Hperm in Hr. by apply Hst.
Qed.
End Converted.

(** X18.  The text the converter writes can be read by the overlap
    analyser, which returns a result on it.  This holds in every number
    model in which [:.2f] writes a token that [float] reads, a number that
    is not below 0 is read back as such a number, and a number above such
    a number can divide: for every well-formed table with no start below
    0 whose labels and file identifier are ASCII tokens, conversion
    returns a text, the text parses, no parsed start is below 0 and the
    analyser returns a total and a relative overlap.  Binary64 is such a
    model, and so are the exact rationals; over the rationals the parsed
    tuples are moreover in ascending order of start, also after the times
    have been rounded to hundredths.  No bound on the two results is
    stated, since binary64 rounding can move them out of [0, 1].  In
    binary64 the example table gives a total of 0.2 and a relative overlap
    of 0.5. *)
Theorem overlap_of_converted_table :
  (forall (F : Type) (N : PyNum F) (T : PyText F)
          (input_csv_path input : string) (rows : list (alignment_row F)),
      read_table input = Some rows ->
      ascii_token (file_id_of input_csv_path) ->
      Forall (fun r => ascii_token (row_speaker r)
                       /\ ltb (row_start r) zero = false) rows ->
      (forall x : F, token (format_2f x) /\ is_Some (py_float (format_2f x))) ->
      (forall x s : F, ltb x zero = false -> py_float (format_2f x) = Some s ->
                       ltb s zero = false) ->
      positive_divisors F ->
      exists (rttm : string) (info : list (F * F * string)) (total relative : F),
        convert_csv_to_rttm input_csv_path input = Ok rttm
        /\ parse_rttm_file rttm = Ok info
        /\ Forall (fun t => ltb t.1.1 zero = false) info
        /\ calculate_overlap_duration rttm = Ok (total, relative))
  /\ ((forall x : float,
          token (format_2f x) /\ is_Some (py_float (F:=float) (format_2f x)))
      /\ (forall x s : float,
             ltb x zero = false -> py_float (format_2f x) = Some s ->
             ltb s zero = false)
      /\ positive_divisors float)
  /\ ((forall x : Q,
          token (format_2f x) /\ is_Some (py_float (F:=Q) (format_2f x)))
      /\ (forall x s : Q,
             ltb x zero = false -> py_float (format_2f x) = Some s ->
             ltb s zero = false)
      /\ positive_divisors Q)
  /\ (forall (input_csv_path input : string) (rows : list (alignment_row Q)),
         read_table (F:=Q) input = Some rows ->
         ascii_token (file_id_of input_csv_path) ->
         Forall (fun r => ascii_token (row_speaker r) /\ (0 <= row_start r)%Q) rows ->
         exists (rttm : string) (info : list (Q * Q * string)),
           convert_csv_to_rttm (F:=Q) input_csv_path input = Ok rttm
           /\ parse_rttm_file rttm = Ok info
           /\ adjacent (fun a b : Q * Q * string => (a.1.1 <= b.1.1)%Q) info)
  /\ (exists rttm : string,
         convert_csv_to_rttm (F:=float) "/data/rec01.csv" scenario_csv = Ok rttm
         /\ calculate_overlap_duration (F:=float) rttm = Ok (0.2%float, 0.5%float)).
Proof.
  split; [|split; [|split; [|split]]].
  - intros F N T path input rows Hrows Hid Hrs Hfmt Hback Hdiv.
    destruct (converted_table_parses path input rows Hrows Hid)
      as (merged & _ & Hconv & Hparse & Hst); [|done|].
    { eapply Forall_impl; [exact Hrs|]. by intros r [Hr _]. }
    assert (Hpos : Forall (fun t : F * F * string => ltb t.1.1 zero = false)
                          (read_back <$> py_sorted start_time (concat merged))).
    { apply Forall_fmap. eapply Forall_impl; [exact Hst|].
      intros o (r & Hr & Ho). cbn [compose read_back fst].
      destruct (Hfmt (start_time o)) as [_ [s Ps]]. rewrite Ps. cbn [default].
      apply (Hback (start_time o)); [|done]. rewrite Ho.
      rewrite list.Forall_forall in Hrs. by apply Hrs. }
    destruct (overlap_duration_returns
                (read_back <$> py_sorted start_time (concat merged)) Hdiv)
      as (total & relative & E).
    { intros t Ht. rewrite list.Forall_forall in Hpos. by apply Hpos. }
    eexists _, _, total, relative. split_and!; [done|done|done|].
    unfold calculate_overlap_duration. rewrite Hparse. exact E.
  - split_and!.
    + intros x. apply float_format_2f_readable.
    + intros x s. apply float_read_back_not_below_zero.
    + apply float_positive_divisors.
  - split_and!.
    + intros x. apply Q_format_2f_readable.
    + intros x s. apply Q_read_back_not_below_zero.
    + apply Q_positive_divisors.
  - intros path input rows Hrows Hid Hrs.
    destruct (converted_table_parses path input rows Hrows Hid)
      as (merged & _ & Hconv & Hparse & Hst).
    { eapply Forall_impl; [exact Hrs|]. by intros r [Hr _]. }
    { intros x. apply Q_format_2f_readable. }
    eexists _, _. split_and!; [done|done|].
    destruct (py_sorted_spec (concat merged)) as (Hasc & _ & _).
    eapply adjacent_fmap; [|exact Hasc]. intros a b Ha Hb Hab. cbn beta in Hab.
    rewrite list.Forall_forall in Hst. rewrite list.Forall_forall in Hrs.
    assert (Hnn : forall o, o ∈ py_sorted start_time (concat merged) ->
                            (0 <= start_time o)%Q).
    { intros o Ho. destruct (Hst o Ho) as (r & Hr & ->). by apply Hrs. }
    unfold read_back. cbn [fst format_2f py_float Q_PyText].
    rewrite !Q_py_float_format_2f_nonneg by by apply Hnn. cbn [default].
    apply hundredths_value_mono, Z2N.inj_le;
      [apply round_half_even_nonneg; specialize (Hnn a Ha); lra
      |apply round_half_even_nonneg; specialize (Hnn b Hb); lra|].
    apply round_half_even_mono. lra.
  - eexists. split; [vm_compute; reflexivity|]. vm_compute. reflexivity.
Qed.

Lemma overlap_of_converted_table_witness :
  exists (rttm : string) (total relative : float),
    convert_csv_to_rttm (F:=float) "/data/rec01.csv" scenario_csv = Ok rttm
    /\ calculate_overlap_duration (F:=float) rttm = Ok (total, relative).
Proof.
  destruct (proj1 overlap_of_converted_table float _ _ "/data/rec01.csv" scenario_csv
              [Row "hi" 0.0%float 0.5%float "0.9" "A";
               Row "there" 0.6%float 1.0%float "0.8" "A";
               Row "yo" 0.2%float 0.4%float "0.7" "B"])
    as (rttm & info & total & relative & H1 & _ & _ & H2).
  - vm_compute. reflexivity.
  - split; [split; [discriminate|reflexivity]|reflexivity].
  - repeat constructor; discriminate.
  - apply overlap_of_converted_table.
  - apply overlap_of_converted_table.
  - apply overlap_of_converted_table.
  - exists rttm, total, relative. split; [exact H1|exact H2].
Defined.

(** ** The two readers of an RTTM text *)

Section TwoReaders.
Implicit Types (s t w line : string) (c d : ascii) (toks : list string).

Lemma split_char_join d toks :
  toks <> [] ->
  Forall (fun w => all_chars (fun c => negb (Ascii.eqb c d)) w = true) toks ->
  split_on (String d EmptyString) (join (String d EmptyString) toks) = toks.
Proof.
  induction toks as [|x toks IH]; [done|]. intros _ Hall.
  apply list.Forall_cons in Hall as [Hx Hall].
  destruct toks as [|y toks]; [by apply split_char_none|].
  change (join (String d EmptyString) (x :: y :: toks))
    with (x ++ String d (join (String d EmptyString) (y :: toks)))%string.
  rewrite split_char_first by done. by rewrite IH.
Qed.

Lemma join_tokens_cons w toks :
  toks <> [] -> join " " (w :: toks) = (w ++ String " " (join " " toks))%string.
Proof. by destruct toks. Qed.

Lemma join_tokens_nonempty toks :
  toks <> [] -> Forall token toks -> join " " toks <> EmptyString.
Proof.
  destruct toks as [|w toks]; [done|]. intros _ [[Hw _] _]%list.Forall_cons.
  destruct toks; [done|]. rewrite join_tokens_cons by done. by destruct w.
Qed.

Lemma rstrip_join_tokens toks :
  Forall token toks -> rstrip (join " " toks) = join " " toks.
Proof.
  induction toks as [|w toks IH]; [done|]. intros [Hw Htoks]%list.Forall_cons.
  destruct toks as [|y toks]; [apply rstrip_no_space, Hw|].
  rewrite join_tokens_cons by done.
  change (w ++ String " " (join " " (y :: toks)))%string
    with (w ++ (" " ++ join " " (y :: toks)))%string.
  rewrite <- append_assoc. apply rstrip_app_r; [by apply IH|].
  by apply join_tokens_nonempty.
Qed.

Lemma lstrip_token_app w t : token w -> lstrip (w ++ t) = (w ++ t)%string.
Proof.
  intros Hw. destruct w as [|a w]; [by destruct Hw|].
  apply token_cons in Hw as [Ha _]. cbn [append lstrip]. by rewrite Ha.
Qed.

Lemma split_ws_join_tokens toks :
  Forall token toks -> split_ws (join " " toks) = toks.
Proof.
  induction toks as [|w toks IH]; [done|]. intros [Hw Htoks]%list.Forall_cons.
  destruct toks as [|y toks]; [by apply split_ws_token_end|].
  rewrite join_tokens_cons by done. rewrite split_ws_token by done.
  by rewrite IH.
Qed.

(** On a line of tokens separated by single blanks, [line.split(' ')] and
    [line.strip().split()] give the same pieces: the tokens. *)
Lemma pieces_of_token_line toks :
  toks <> [] -> Forall token toks ->
  split_on " " (join " " toks) = toks /\ split_ws (strip (join " " toks)) = toks.
Proof.
  intros Hne Htoks. split.
  - apply split_char_join; [done|]. eapply list.Forall_impl; [exact Htoks|].
    intros w [_ Hw]. eapply all_chars_impl; [|exact Hw].
    apply not_space_not_blank.
  - unfold strip.
    assert (Hl : lstrip (join " " toks) = join " " toks).
    { destruct toks as [|w toks]; [done|].
      apply list.Forall_cons in Htoks as [Hw _].
      destruct toks as [|y toks].
      { destruct w as [|a w]; [by destruct Hw|].
        apply token_cons in Hw as [Ha _]. cbn [join lstrip]. by rewrite Ha. }
      rewrite join_tokens_cons by done. by apply lstrip_token_app. }
    rewrite Hl, rstrip_join_tokens by done. by apply split_ws_join_tokens.
Qed.

Lemma token_line_one_line toks :
  toks <> [] -> Forall token toks ->
  join " " toks <> EmptyString
  /\ all_chars (fun c => negb (Ascii.eqb c LF)) (join " " toks) = true.
Proof.
  intros Hne Htoks. split; [by apply join_tokens_nonempty|]. clear Hne.
  induction toks as [|w toks IH]; [done|].
  apply list.Forall_cons in Htoks as [[_ Hw] Htoks].
  assert (Hw' : all_chars (fun c => negb (Ascii.eqb c LF)) w = true).
  { eapply all_chars_impl; [|exact Hw]. apply not_space_not_line_feed. }
  destruct toks as [|y toks]; [done|].
  rewrite join_tokens_cons by done. rewrite all_chars_app, Hw'.
  cbn [all_chars andb]. change (negb (Ascii.eqb " " LF)) with true.
  by apply IH.
Qed.
End TwoReaders.

(** X19.  [count_speaker_from_rttm] cuts a line at every single blank,
    [parse_rttm_file] at every run of whitespace.  On a text whose lines
    hold tokens separated by single blanks the two agree: when the parser
    returns, the counter returns the number of distinct labels among the
    parsed tuples.  A second blank in one line is enough for them to
    disagree: the parser reads the label A twice, the counter counts 2. *)
Theorem count_agrees_with_parse :
  (forall (F : Type) (N : PyNum F) (T : PyText F) (table : list (list string))
          (info : list (speaker_tuple F)),
      Forall (fun toks => toks <> [] /\ Forall token toks) table ->
      parse_rttm_file (F:=F)
        (join (String LF EmptyString) (join " " <$> table)) = Ok info ->
      count_speaker_from_rttm (join (String LF EmptyString) (join " " <$> table))
      = Ok (size (list_to_set (C:=gset string) (snd <$> info))))
  /\ (exists info : list (speaker_tuple Q),
         parse_rttm_file (F:=Q)
           (join (String LF EmptyString)
              ["S f 1 0.00 1.00 <NA> <NA> A <NA> <NA>";
               "S  f 1 0.00 1.00 <NA> <NA> A <NA> <NA>"]) = Ok info
         /\ snd <$> info = ["A"; "A"]
         /\ count_speaker_from_rttm
              (join (String LF EmptyString)
                 ["S f 1 0.00 1.00 <NA> <NA> A <NA> <NA>";
                  "S  f 1 0.00 1.00 <NA> <NA> A <NA> <NA>"]) = Ok 2).
Proof.
  split; [|eexists; split_and!; reflexivity].
  intros F N T table info Htable Hparse.
  assert (Hlines : Forall (fun l => l <> EmptyString
                     /\ all_chars (fun c => negb (Ascii.eqb c LF)) l = true)
                     (join " " <$> table)).
  { apply Forall_fmap. eapply list.Forall_impl; [exact Htable|].
    intros toks [Hne Htoks]. by apply token_line_one_line. }
  rewrite parse_rttm_file_join in Hparse by done.
  assert (Htuples : Forall2 (fun toks t => toks !! 7 = Some t.2) table info).
  { destruct (parse_rttm_lines_from (F:=F) (join " " <$> table) []) as [Hok Hbad].
    destruct (lines_cases (F:=F) (join " " <$> table)) as [Hgood|Hex].
    - destruct (Hok Hgood) as (recs & E & Hrecs). unfold parse_rttm_lines in Hparse.
      rewrite E in Hparse. injection Hparse as <-. cbn [app].
      rewrite Forall2_fmap_l in Hrecs. clear -Hrecs Htable. revert Htable.
      induction Hrecs as [|toks t tb rc Ht _ IH]; intros Htable; [constructor|].
      apply list.Forall_cons in Htable as [[Hne Htoks] Htable].
      constructor; [|by apply IH].
      destruct Ht as (p3 & p4 & _ & _ & _ & _ & H7). unfold fields in H7.
      destruct (pieces_of_token_line toks Hne Htoks) as [_ Hws].
      by rewrite Hws in H7.
    - destruct (Hbad Hex) as (e & E & _). unfold parse_rttm_lines in Hparse.
      by rewrite E in Hparse. }
  rewrite count_speaker_from_rttm_unfold, counted_lines_join by done.
  assert (Hfield : Forall2 (fun line t => speaker_field line = Some t.2)
                           (join " " <$> table) info).
  { apply Forall2_fmap_l. clear -Htuples Htable. revert Htable.
    induction Htuples as [|toks t tb rc Ht _ IH]; intros Htable; [constructor|].
    apply list.Forall_cons in Htable as [[Hne Htoks] Htable].
    constructor; [|by apply IH]. cbn. unfold speaker_field.
    destruct (pieces_of_token_line toks Hne Htoks) as [Hsp _].
    by rewrite Hsp. }
  assert (Homap : omap speaker_field (join " " <$> table) = snd <$> info
                  /\ Forall (fun line => is_Some (speaker_field line))
                            (join " " <$> table)).
  { clear -Hfield. induction Hfield as [|line t lines recs Ht _ [IH1 IH2]]; [done|].
    split.
    - cbn [omap list_omap fmap list_fmap]. rewrite Ht. by f_equal.
    - constructor; [by rewrite Ht|done]. }
  destruct Homap as [-> Hall]. by destruct (decide _).
Qed.

Lemma count_agrees_with_parse_witness :
  count_speaker_from_rttm
    (join (String LF EmptyString)
       (join " " <$> [["S"; "f"; "1"; "0.00"; "1.00"; "<NA>"; "<NA>"; "A"; "<NA>"; "<NA>"];
                      ["S"; "f"; "1"; "0.50"; "1.00"; "<NA>"; "<NA>"; "B"; "<NA>"; "<NA>"]]))
  = Ok (size (list_to_set (C:=gset string)
                (snd <$> [(inject_Z 0 * pow10 (0 - 2), inject_Z 100 * pow10 (0 - 2), "A");
                          (inject_Z 50 * pow10 (0 - 2), inject_Z 100 * pow10 (0 - 2), "B")]%Q))).
Proof.
  apply (proj1 count_agrees_with_parse Q _ _).
  - repeat constructor; discriminate.
  - reflexivity.
Defined.

(** ** Batch diarization *)

Lemma endswith_character (c : ascii) (suffix : string) :
  endswith (String c EmptyString) suffix = true ->
  suffix = EmptyString \/ suffix = String c EmptyString.
Proof.
  destruct suffix as [|d [|e suffix]]; [by left| |done].
  unfold endswith. cbn. destruct (Ascii.eqb_spec c d) as [->|]; [by right|done].
Qed.

Lemma elem_of_characters (f s : string) :
  f ∈ characters s -> exists c, f = String c EmptyString.
Proof.
  induction s as [|c s IH]; cbn [characters].
  - by intros ?%elem_of_nil.
  - intros [->|Hin]%elem_of_cons; [by exists c|by apply IH].
Qed.

(** X20.  [diarize_all_files] takes its candidates from the characters of
    the string [audio_path], not from the entries of that directory.  So
    every file it selects has a name of one character, and with the default
    [audio_format] ['.wav'], or any format of two or more characters, it
    selects nothing and returns without a single call of [diarize],
    whatever the directory holds. *)
Theorem diarize_all_files_selects_characters :
  forall (St : Type) (isfile : string -> bool) (read_text : string -> string)
         (diarize : string -> string -> string -> option nat -> St -> outcome St)
         (audio_path result_path access_token audio_format : string)
         (consider_speakers : bool) (reference_path : string),
    (forall f, f ∈ wav_files isfile audio_path audio_format ->
               String.length f = 1
               /\ (audio_format = EmptyString \/ audio_format = f))
    /\ (2 <= String.length audio_format ->
        wav_files isfile audio_path audio_format = []
        /\ forall st : St,
             diarize_all_files isfile read_text diarize audio_path result_path
               access_token audio_format consider_speakers reference_path st
             = Ok st).
Proof.
  intros St isfile read_text diarize audio_path result_path access_token
         audio_format consider_speakers reference_path.
  assert (Hsel : forall f, f ∈ wav_files isfile audio_path audio_format ->
                           String.length f = 1
                           /\ (audio_format = EmptyString \/ audio_format = f)).
  { intros f Hf. unfold wav_files in Hf.
    apply list_elem_of_In, filter_In in Hf as [Hin Hf].
    apply list_elem_of_In, elem_of_characters in Hin as [c ->].
    apply andb_true_iff in Hf as [_ Hf]. split; [done|].
    by apply endswith_character. }
  split; [exact Hsel|]. intros Hlen.
  assert (Hnone : wav_files isfile audio_path audio_format = []).
  { destruct (wav_files isfile audio_path audio_format) as [|f l] eqn:E; [done|].
    destruct (Hsel f) as [Hf [->| ->]]; [by left|cbn in Hlen; lia|lia]. }
  split; [done|]. intros st. unfold diarize_all_files. by rewrite Hnone.
Qed.

Lemma diarize_all_files_selects_characters_witness :
  diarize_all_files (fun _ => true) (fun _ => EmptyString)
    (fun _ _ _ _ (_ : nat) => Raise ValueError)
    "/data/audio" "/data/out" "token" ".wav" false EmptyString 0
  = Ok 0.
Proof.
  apply (diarize_all_files_selects_characters nat (fun _ => true)
           (fun _ => EmptyString) (fun _ _ _ _ _ => Raise ValueError)
           "/data/audio" "/data/out" "token" ".wav" false EmptyString).
  cbn. lia.
Defined.

(** ** The table written by [forced_alignment] *)

Section AlignmentTable.
Implicit Types (s t w : string) (c : ascii).

Lemma plain_no_comma s :
  plain s -> all_chars (fun c => negb (Ascii.eqb c ",")) s = true.
Proof. apply all_chars_impl. by intros c [? _]%andb_true_iff. Qed.

Lemma plain_no_line_feed s :
  plain s -> all_chars (fun c => negb (Ascii.eqb c LF)) s = true.
Proof. apply all_chars_impl. by intros c [_ ?]%andb_true_iff. Qed.

(** [w.split(', ')] cuts after a piece that holds no comma. *)
Lemma split_comma_blank_first s t :
  all_chars (fun c => negb (Ascii.eqb c ",")) s = true ->
  split_on ", " (s ++ ", " ++ t) = s :: split_on ", " t.
Proof.
  unfold split_on. change (", " ++ t)%string with (String "," (String " " t)).
  induction s as [|c s IH]; intros Hs.
  - cbn [append]. unfold split_scan at 1. fold split_scan.
    cbn [String.prefix String.length Nat.sub].
    destruct (ascii_dec "," ",") as [_|Hn]; [|done].
    destruct (ascii_dec " " " ") as [_|Hn]; [|done].
    by destruct t.
  - cbn [all_chars] in Hs. apply andb_true_iff in Hs as [Hc Hs].
    cbn [append split_scan String.prefix].
    destruct (ascii_dec "," c) as [<-|Hne]; [done|]. by rewrite IH.
Qed.

Lemma split_comma_blank_none s :
  all_chars (fun c => negb (Ascii.eqb c ",")) s = true ->
  split_on ", " s = [s].
Proof.
  unfold split_on. induction s as [|c s IH]; intros Hs; [done|].
  cbn [all_chars] in Hs. apply andb_true_iff in Hs as [Hc Hs].
  cbn [split_scan String.prefix].
  destruct (ascii_dec "," c) as [<-|Hne]; [done|]. by rewrite IH.
Qed.

Lemma alignment_line_pieces (span : string * string * string * string) :
  plain span.1.1.1 -> plain span.1.1.2 -> plain span.1.2 -> plain span.2 ->
  split_on ", " (alignment_line span) = [span.1.1.1; span.1.1.2; span.1.2; span.2].
Proof.
  destruct span as [[[word x0] x1] score]. cbn [fst snd alignment_line].
  intros Hw H0 H1 Hs.
  rewrite !split_comma_blank_first by by apply plain_no_comma.
  by rewrite split_comma_blank_none by by apply plain_no_comma.
Qed.

Lemma alignment_line_one_line (span : string * string * string * string) :
  plain span.1.1.1 -> plain span.1.1.2 -> plain span.1.2 -> plain span.2 ->
  alignment_line span <> EmptyString
  /\ all_chars (fun c => negb (Ascii.eqb c LF)) (alignment_line span) = true.
Proof.
  destruct span as [[[word x0] x1] score]. cbn [fst snd alignment_line].
  intros Hw H0 H1 Hs. split.
  - by apply append_nonempty_r.
  - rewrite !all_chars_app, (plain_no_line_feed word), (plain_no_line_feed x0),
      (plain_no_line_feed x1), (plain_no_line_feed score) by done.
    done.
Qed.

Lemma save_result_as_csv_text spans :
  forall fp,
    save_result_as_csv fp spans
    = (fp ++ fold_right (fun span t => alignment_line span ++ String LF t)
                        EmptyString spans)%string.
Proof.
  unfold save_result_as_csv.
  induction spans as [|span spans IH]; intros fp; cbn [fold_left fold_right].
  - induction fp as [|c fp IHfp]; [done|]. cbn [append]. by rewrite <- IHfp.
  - rewrite IH, !append_assoc. done.
Qed.

Lemma split_lines_of_rows (lines : list string) :
  Forall (fun l => all_chars (fun c => negb (Ascii.eqb c LF)) l = true) lines ->
  split_on (String LF EmptyString)
           (fold_right (fun l t => l ++ String LF t)%string EmptyString lines)
  = lines ++ [EmptyString].
Proof.
  induction 1 as [|l lines Hl _ IH]; [done|]. cbn [fold_right app].
  rewrite split_char_first by done. by rewrite IH.
Qed.
End AlignmentTable.

(** X21.  The table [forced_alignment] writes has four columns, the
    converter reads five.  For spans whose word and printed numbers hold
    no comma and no line feed: every span becomes one data line, every
    data line splits into exactly four pieces at comma-blank, and unless
    there is no span at all the converter fails on the table with a
    ValueError; the speaker column has to be added first. *)
Theorem convert_rejects_alignment_table :
  forall (F : Type) (N : PyNum F) (T : PyText F) (input_csv_path : string)
         (spans : list (string * string * string * string)),
    Forall (fun span => plain span.1.1.1 /\ plain span.1.1.2
                        /\ plain span.1.2 /\ plain span.2) spans ->
    data_lines (save_result_as_csv alignment_header spans) = alignment_line <$> spans
    /\ Forall (fun w => length (split_on ", " w) = 4)
              (data_lines (save_result_as_csv alignment_header spans))
    /\ (spans <> [] ->
        convert_csv_to_rttm (F:=F) input_csv_path
          (save_result_as_csv alignment_header spans) = Raise ValueError)
    /\ (spans = [] ->
        convert_csv_to_rttm (F:=F) input_csv_path
          (save_result_as_csv alignment_header spans) = Ok EmptyString).
Proof.
  intros F N T path spans Hspans.
  assert (Hlines : data_lines (save_result_as_csv alignment_header spans)
                   = alignment_line <$> spans).
  { rewrite save_result_as_csv_text. unfold data_lines, alignment_header.
    rewrite append_assoc.
    change (String LF EmptyString ++ ?x)%string with (String LF x).
    rewrite split_char_first by done.
    replace (fold_right (fun span t => alignment_line span ++ String LF t)%string
                        EmptyString spans)
      with (fold_right (fun l t => l ++ String LF t)%string EmptyString
                       (alignment_line <$> spans))
      by (clear; induction spans as [|s l IH]; [done|]; cbn; by rewrite IH).
    rewrite split_lines_of_rows.
    2:{ apply Forall_fmap. eapply list.Forall_impl; [exact Hspans|].
        intros span (H1 & H2 & H3 & H4). by apply alignment_line_one_line. }
    cbn [drop]. rewrite drop_0, list.filter_app.
    rewrite (filter_cons_False _ EmptyString) by (intros Hn; by apply Hn).
    rewrite filter_nil, app_nil_r.
    assert (Hne : Forall (fun w => w <> EmptyString) (alignment_line <$> spans)).
    { apply Forall_fmap. eapply list.Forall_impl; [exact Hspans|].
      intros span (H1 & H2 & H3 & H4). by apply alignment_line_one_line. }
    induction Hne as [|w l Hw _ IH]; [done|].
    by rewrite filter_cons_True, IH. }
  assert (Hfour : Forall (fun w => length (split_on ", " w) = 4)
                         (alignment_line <$> spans)).
  { apply Forall_fmap. eapply list.Forall_impl; [exact Hspans|].
    intros span (H1 & H2 & H3 & H4). cbn.
    by rewrite alignment_line_pieces. }
  rewrite Hlines. split_and!; [done|done| |].
  - intros Hne. apply convert_csv_to_rttm_malformed, read_table_None.
    destruct spans as [|span spans]; [done|].
    exists (alignment_line span). rewrite Hlines. split; [by left|].
    apply read_row_None. left. apply list.Forall_cons in Hfour as [-> _]. lia.
  - intros ->. reflexivity.
Qed.

Lemma convert_rejects_alignment_table_witness :
  convert_csv_to_rttm (F:=Q) "/data/rec01.csv"
    (save_result_as_csv alignment_header
       [("hello", "0.1", "0.5", "0.93"); ("world", "0.6", "1.0", "0.88")])
  = Raise ValueError.
Proof.
  apply (convert_rejects_alignment_table Q _ _ "/data/rec01.csv"
           [("hello", "0.1", "0.5", "0.93"); ("world", "0.6", "1.0", "0.88")]).
  - repeat constructor.
  - discriminate.
Defined.

(** ** Transcript normalization *)

Section NormalizeFacts.
Implicit Types (t r w : text) (c : N) (P : N -> Prop).

Lemma blank_others_class (keep : N -> bool) t :
  keep blank = true -> Forall (fun c => keep c = true) (blank_others keep t).
Proof.
  intros Hb. unfold blank_others. apply Forall_fmap, list.Forall_forall.
  intros c _. cbn. by destruct (keep c) eqn:E.
Qed.

Lemma sub_blank_runs_class P r t :
  Forall P r -> Forall P t -> Forall P (sub_blank_runs r t).
Proof.
  intros Hr. induction 1 as [|c t Hc Ht IH]; [done|]. cbn [sub_blank_runs].
  destruct (c =? blank)%N.
  - destruct t as [|c' t]; [done|].
    destruct (c' =? blank)%N; [done|]. by apply Forall_app.
  - by constructor.
Qed.

Lemma sub_blank_runs_no_blank t :
  Forall (fun c => c <> blank) (sub_blank_runs [] t).
Proof.
  induction t as [|c t IH]; [done|]. cbn [sub_blank_runs].
  destruct (N.eqb_spec c blank) as [->|Hc].
  - destruct t as [|c' t]; [done|]. by destruct (c' =? blank)%N.
  - by constructor.
Qed.

Lemma split_text_words P t :
  Forall P t ->
  Forall (fun w => w <> [] /\ Forall (fun c => P c /\ py_isspace c = false) w)
         (split_text t).
Proof.
  induction 1 as [|c t Hc Ht IH]; [done|]. cbn [split_text].
  destruct (py_isspace c) eqn:Ec; [done|].
  destruct t as [|c' t]; [by repeat constructor|].
  destruct (py_isspace c') eqn:Ec'.
  - constructor; [|done]. by repeat constructor.
  - destruct (split_text (c' :: t)) as [|w ws]; [by repeat constructor|].
    apply list.Forall_cons in IH as [[_ Hw] Hws].
    constructor; [|done]. split; [done|]. by constructor.
Qed.
End NormalizeFacts.

(** X22.  Whatever [str.lower] and [num2words] do: when
    [normalize_uroman] returns, every word of the result holds only the
    characters a-z, the apostrophe and 0-9, and no word is numeric: a
    numeric word has been replaced by the letters of its spelling, and
    digits survive only in words that also hold a letter or an apostrophe.
    The function returns unless [num2words] raises. *)
Theorem normalize_uroman_words :
  forall (lower : text -> text) (numeric : N -> bool)
         (num2words : text -> option text) (t : text),
    ((forall w, is_Some (num2words w)) ->
     is_Some (normalize_uroman lower numeric num2words t))
    /\ (forall words : list text,
           (forall c, is_lower_letter c || (c =? apostrophe)%N = true ->
                      numeric c = false) ->
           normalize_uroman lower numeric num2words t = Some words ->
           Forall (fun w =>
                     Forall (fun c => is_lower_letter c || (c =? apostrophe)%N
                                      || is_ascii_digit c = true) w
                     /\ isnumeric numeric w = false) words).
Proof.
  intros lower numeric num2words t. unfold normalize_uroman.
  set (t' := sub_blank_runs [blank] _). split.
  - intros Htotal. apply mapM_is_Some, list.Forall_forall. intros w _.
    unfold compose, normalize_word. destruct (isnumeric numeric w); [|done].
    destruct (Htotal w) as [s ->]. done.
  - intros words Hnum Hwords. apply mapM_Some in Hwords.
    assert (Hclass : Forall (fun c => word_or_blank c = true) t').
    { apply sub_blank_runs_class; [by repeat constructor|].
      by apply blank_others_class. }
    apply split_text_words in Hclass.
    induction Hwords as [|w w' ws ws' Hw _ IH]; [constructor|].
    apply list.Forall_cons in Hclass as [[Hne Hchars] Hclass].
    constructor; [|by apply IH]. clear IH Hclass.
    unfold normalize_word in Hw. destruct (isnumeric numeric w) eqn:Eis.
    + destruct (num2words w) as [s|]; [|done]. injection Hw as <-.
      set (s' := blank_others letter_or_blank (replace_quote s)).
      assert (Hs : Forall (fun c => letter_or_blank c = true /\ c <> blank)
                          (sub_blank_runs [] s')).
      { apply Forall_and. split; [|apply sub_blank_runs_no_blank].
        apply sub_blank_runs_class; [done|]. by apply blank_others_class. }
      assert (Hletters : Forall (fun c => is_lower_letter c || (c =? apostrophe)%N = true)
                                (sub_blank_runs [] s')).
      { eapply list.Forall_impl; [exact Hs|]. intros c [Hc Hb]. cbn in Hc.
        unfold letter_or_blank in Hc. apply orb_true_iff in Hc as [Hc|Hc]; [done|].
        by apply N.eqb_eq in Hc. }
      split.
      * eapply list.Forall_impl; [exact Hletters|]. intros c Hc. cbn.
        by rewrite Hc.
      * destruct (sub_blank_runs [] s') as [|c l]; [done|].
        apply list.Forall_cons in Hletters as [Hc _]. cbn [isnumeric forallb].
        by rewrite (Hnum c Hc).
    + injection Hw as <-. split; [|done].
      eapply list.Forall_impl; [exact Hchars|]. intros c [Hc Hsp]. cbn in Hc.
      unfold word_or_blank in Hc. apply orb_true_iff in Hc as [Hc|Hc]; [done|].
      apply N.eqb_eq in Hc as ->. done.
Qed.

Lemma normalize_uroman_words_witness :
  Forall (fun w =>
            Forall (fun c => is_lower_letter c || (c =? apostrophe)%N
                             || is_ascii_digit c = true) w
            /\ isnumeric is_ascii_digit w = false)
         [[104; 105]; [116; 119; 111]; [98; 50; 98]]%N.
Proof.
  apply (proj2 (normalize_uroman_words
                  (fmap (fun c : N => if ((65 <=? c) && (c <=? 90))%N then (c + 32)%N else c))
                  is_ascii_digit
                  (fun _ => Some [116; 119; 111]%N)
                  [72; 105; 33; 32; 50; 32; 98; 50; 98]%N)).
  - intros c Hc. unfold is_ascii_digit.
    apply orb_true_iff in Hc as [Hc|Hc%N.eqb_eq].
    + unfold is_lower_letter in Hc. apply andb_true_iff in Hc as [Hc _].
      apply N.leb_le in Hc. apply andb_false_iff. right. apply N.leb_gt. lia.
    + subst c. reflexivity.
  - reflexivity.
Defined.
